(** * Reimbursement calculator: a shallow embedding and its properties

    The development embeds

    - [calculate_reimbursement], [main], [derive_linear_coefficients] and
      the three tier functions of [calculate_reimbursement.py],
    - [classify_trip] and [derive_linear_coefficients] of
      [derive_coefficients.py],
    - the dictionaries and the rates of [analyze_patterns.py],

    over IEEE 754 binary64 numbers (Python's [float]), which Rocq provides
    as the primitive type [float] together with its specification in terms
    of [spec_float], and over Python's [int], which is [Z]. *)

From Stdlib Require Import ZArith Bool List String Ascii Lia.
From Stdlib Require Import Floats DecimalString.
From Stdlib Require FloatLemmas Uint63 DecimalN DecimalPos.
Import ListNotations.

Set Warnings "-inexact-float".

Local Open Scope Z_scope.

(** ** Exceptions and the error monad

    The exceptions that the embedded code can raise.  [ValueError] is what
    [int()] and [float()] raise on a malformed string. *)

Inductive exn : Type :=
| ZeroDivisionError
| OverflowError
| ValueError.

Inductive result (A : Type) : Type :=
| Ok (a : A)
| Raise (e : exn).

Arguments Ok {A} a.
Arguments Raise {A} e.

Definition bind {A B : Type} (c : result A) (k : A -> result B) : result B :=
  match c with
  | Ok a => k a
  | Raise e => Raise e
  end.

Notation "x <- c ;; k" := (bind c (fun x => k))
  (at level 61, c at next level, right associativity).

(** ** Python's float operations

    [+], [*] and the comparisons of Python floats are the IEEE operations;
    true division raises [ZeroDivisionError] when the divisor compares equal
    to zero (either sign). *)

Module Py.

Definition truediv (a b : float) : result float :=
  if PrimFloat.eqb b 0%float then Raise ZeroDivisionError
  else Ok (PrimFloat.div a b).

(** [round_half_even num den] is the integer nearest to [num / den], ties
    going to the even neighbour ([0 <= num], [0 < den]). *)
Definition round_half_even (num den : Z) : Z :=
  let q := num / den in
  let r := num mod den in
  match 2 * r ?= den with
  | Lt => q
  | Gt => q + 1
  | Eq => if Z.even q then q else q + 1
  end.

(** The magnitude [m * 2^e] expressed in hundredths and rounded to an
    integer: the digits that correctly rounded conversion to two decimal
    places produces. *)
Definition hundredths (m : positive) (e : Z) : Z :=
  if 0 <=? e then 100 * Z.pos m * 2 ^ e
  else round_half_even (100 * Z.pos m) (2 ^ (- e)).

(** The binary64 number nearest to the decimal [n / 100]. *)
Definition of_hundredths (s : bool) (n : positive) : float :=
  SF2Prim (SFdiv prec emax (S754_finite s n 0) (S754_finite false 100 0)).

(** [round(x, 2)]: NaN, infinities and zeros are returned as they are; a
    finite [x] is converted to the decimal with two fractional digits that
    is nearest to its exact value (ties to even), and that decimal is
    converted back to the nearest binary64 number.  The sign of [x] is
    kept, also when the digits are all zero. *)
Definition round2 (x : float) : float :=
  match Prim2SF x with
  | S754_finite s m e =>
      match hundredths m e with
      | Z.pos n => of_hundredths s n
      | _ => if s then (-0)%float else 0%float
      end
  | _ => x
  end.

End Py.

(** ** [calculate_reimbursement.py] *)

(** The four arms of the [if]/[elif] chain of [calculate_reimbursement]. *)
Inductive Cluster : Type :=
| LongHighReceipts    (* Cluster 0 *)
| ShortLowActivity    (* Cluster 1 *)
| MidHighMileage      (* Cluster 2 *)
| Default.            (* the final [else] *)

Local Open Scope float_scope.

(** The body of [calculate_reimbursement] up to the [return]: the arm taken
    and the value bound to [reimbursement].  The three parameters are
    floats, as the signature declares them. *)
Definition reimbursement_arm
  (trip_duration_days miles_traveled total_receipts_amount : float)
  : result (Cluster * float) :=
  receipts_per_day <- Py.truediv total_receipts_amount trip_duration_days ;;
  if (5 <=? trip_duration_days) && (trip_duration_days <=? 12)
     && (100 <=? receipts_per_day)
  then Ok (LongHighReceipts,
           87.111841 * trip_duration_days
           + 0.673030 * miles_traveled
           + 0.285504 * total_receipts_amount)
  else if (trip_duration_days <=? 6) && (receipts_per_day <? 100)
  then Ok (ShortLowActivity,
           94.201797 * trip_duration_days
           + 0.462207 * miles_traveled
           + 0.253290 * total_receipts_amount)
  else if (trip_duration_days <=? 9) && (400 <=? miles_traveled)
  then Ok (MidHighMileage,
           73.582926 * trip_duration_days
           + 0.506600 * miles_traveled
           + 0.462858 * total_receipts_amount)
  else Ok (Default,
           94.201797 * trip_duration_days
           + 0.462207 * miles_traveled
           + 0.253290 * total_receipts_amount).

Definition calculate_reimbursement
  (trip_duration_days miles_traveled total_receipts_amount : float)
  : result float :=
  ar <- reimbursement_arm trip_duration_days miles_traveled
          total_receipts_amount ;;
  Ok (Py.round2 (snd ar)).

Local Close Scope float_scope.

(** ** Conversions at the command line *)

Module Fmt.

Local Open Scope string_scope.

Definition digit (n : Z) : ascii := ascii_of_nat (48 + Z.to_nat n).

Definition decimal (n : Z) : string :=
  NilZero.string_of_uint (N.to_uint (Z.to_N n)).

(** [n] hundredths written with two fractional digits. *)
Definition fixed2 (s : bool) (n : Z) : string :=
  (if s then "-" else "") ++ decimal (n / 100) ++ "."
  ++ String (digit (n mod 100 / 10)) (String (digit (n mod 10)) "").

(** The format specification [.2f] applied to a float: a finite number is
    converted to the nearest decimal with two fractional digits (the same
    correctly rounded conversion [round] uses); infinities and NaN are
    written as words. *)
Definition format_2f (x : float) : string :=
  match Prim2SF x with
  | S754_nan => "nan"
  | S754_infinity s => if s then "-inf" else "inf"
  | S754_zero s => fixed2 s 0
  | S754_finite s m e => fixed2 s (Py.hundredths m e)
  end.

Definition newline : string := String (ascii_of_nat 10) "".

End Fmt.

(** The conversion of a Python [int] to a float that arithmetic between
    the two performs: the nearest binary64 number (ties to even), or
    [OverflowError] when that is out of range. *)
Definition float_of_int (z : Z) : result float :=
  match binary_normalize prec emax z 0 false with
  | S754_infinity _ => Raise OverflowError
  | sf => Ok (SF2Prim sf)
  end.

(** What a run of the script leaves behind: the text written to the two
    streams and the calls of [calculate_reimbursement], in order, and how
    the process ended.  An exception that no handler catches ends the
    process with a traceback and exit code 1. *)
Inductive event : Type :=
| Stdout (s : string)
| Stderr (s : string)
| Call (days : Z) (miles receipts : float).

Inductive ending : Type :=
| Exit (code : Z)
| Uncaught (e : exn).

Definition exit_code (e : ending) : Z :=
  match e with
  | Exit c => c
  | Uncaught _ => 1
  end.

Record run : Type := mkRun { trace : list event; final : ending }.

Section Main.

(** The builtins [int()] and [float()] on a command-line word; [None]
    stands for [ValueError]. *)
Variable py_int : string -> option Z.
Variable py_float : string -> option float.

Local Open Scope string_scope.

Definition usage_message : string :=
  "Usage: python3 calculate_reimbursement.py <days> <miles> <receipts>"
  ++ Fmt.newline.

Definition range_message : string :=
  "Error: All inputs must be non-negative, and days must be positive"
  ++ Fmt.newline.

Definition format_message : string :=
  "Error: Invalid input format" ++ Fmt.newline.

Definition invalid_format : run := mkRun [Stderr format_message] (Exit 1).

(** [main], given [sys.argv] (the script's name followed by the
    arguments).  The call passes the [int] parsed for the days; every use
    of it inside [calculate_reimbursement] that involves a float first
    converts it, and the first statement is such a use. *)
Definition main (argv : list string) : run :=
  match argv with
  | [_; a1; a2; a3] =>
      match py_int a1 with
      | None => invalid_format
      | Some days =>
      match py_float a2 with
      | None => invalid_format
      | Some miles =>
      match py_float a3 with
      | None => invalid_format
      | Some receipts =>
          if (days <? 1)%Z || (miles <? 0)%float || (receipts <? 0)%float
          then mkRun [Stderr range_message] (Exit 1)
          else
            match (d <- float_of_int days ;;
                   calculate_reimbursement d miles receipts) with
            | Ok result =>
                mkRun [Call days miles receipts;
                       Stdout (Fmt.format_2f result ++ Fmt.newline)]
                      (Exit 0)
            | Raise ValueError =>
                mkRun [Call days miles receipts; Stderr format_message]
                      (Exit 1)
            | Raise e =>
                mkRun [Call days miles receipts] (Uncaught e)
            end
      end end end
  | _ => mkRun [Stderr usage_message] (Exit 1)
  end.

End Main.

(** ** [derive_coefficients.py] *)

Record trip : Type := mkTrip {
  trip_duration_days : float;
  miles_traveled : float;
  total_receipts_amount : float
}.

(** A record of the case file. *)
Record entry : Type := mkEntry {
  input : trip;
  expected_output : float
}.

Definition classify_trip (entry : entry) : result Z :=
  let days := trip_duration_days (input entry) in
  let miles := miles_traveled (input entry) in
  let receipts := total_receipts_amount (input entry) in
  receipts_per_day <- Py.truediv receipts days ;;
  if ((5 <=? days) && (days <=? 12) && (100 <=? receipts_per_day))%float
  then Ok 0
  else if ((days <=? 6) && (receipts_per_day <? 100))%float
  then Ok 1
  else if ((days <=? 9) && (400 <=? miles))%float
  then Ok 2
  else Ok (-1).

(** ** The rules as the specification words them

    The ordered rule table of the specification: a predicate and a formula
    per cluster, scanned top-down, the first match winning. *)

Module Spec.

Local Open Scope float_scope.

Definition rule (c : Cluster) (days miles receipts : float) : bool :=
  match c with
  | LongHighReceipts =>
      (5 <=? days) && (days <=? 12) && (100 <=? receipts / days)
  | ShortLowActivity => (days <=? 6) && (receipts / days <? 100)
  | MidHighMileage => (days <=? 9) && (400 <=? miles)
  | Default => true
  end.

Definition formula (c : Cluster) (days miles receipts : float) : float :=
  match c with
  | LongHighReceipts => 87.111841 * days + 0.673030 * miles + 0.285504 * receipts
  | ShortLowActivity => 94.201797 * days + 0.462207 * miles + 0.253290 * receipts
  | MidHighMileage => 73.582926 * days + 0.506600 * miles + 0.462858 * receipts
  | Default => 94.201797 * days + 0.462207 * miles + 0.253290 * receipts
  end.

Definition priority : list Cluster :=
  [LongHighReceipts; ShortLowActivity; MidHighMileage].

Definition classify (days miles receipts : float) : Cluster :=
  match find (fun c => rule c days miles receipts) priority with
  | Some c => c
  | None => Default
  end.

Definition compute (days miles receipts : float) : float :=
  Py.round2 (formula (classify days miles receipts) days miles receipts).

End Spec.

(** The precondition of the calculator: [days >= 1], [miles >= 0],
    [receipts >= 0] (none of them NaN, therefore). *)
Definition valid_input (days miles receipts : float) : Prop :=
  (1 <=? days)%float = true /\ (0 <=? miles)%float = true
  /\ (0 <=? receipts)%float = true.

(** The number [classify_trip] returns for each arm. *)
Definition cluster_code (c : Cluster) : Z :=
  match c with
  | LongHighReceipts => 0
  | ShortLowActivity => 1
  | MidHighMileage => 2
  | Default => -1
  end.

(** The arm that [calculate_reimbursement] takes. *)
Definition taken_arm (days miles receipts : float) : result Cluster :=
  ar <- reimbursement_arm days miles receipts ;; Ok (fst ar).

(** A datum that is not negative: a zero, a positive number or the
    positive infinity; this is what [0 <= x] tests. *)
Definition nonneg_sf (x : spec_float) : bool :=
  match x with
  | S754_zero _ => true
  | S754_infinity s | S754_finite s _ _ => negb s
  | S754_nan => false
  end.

(** A datum of sign [s]. *)
Definition sign_is (s : bool) (x : spec_float) : Prop :=
  match x with
  | S754_zero s' | S754_infinity s' | S754_finite s' _ _ => s' = s
  | S754_nan => False
  end.

(** A constant that is a positive number. *)
Definition pos_finite (c : float) : bool :=
  match Prim2SF c with
  | S754_finite false _ _ => true
  | _ => false
  end.

(** ** Texts with two fractional digits

    Whether a text is a number written with exactly two decimal places: an
    optional minus sign, one digit or more, a point and two digits. *)

Definition is_digit (c : ascii) : bool :=
  (48 <=? nat_of_ascii c)%nat && (nat_of_ascii c <=? 57)%nat.

Fixpoint all_digits (s : string) : bool :=
  match s with
  | EmptyString => true
  | String c rest => is_digit c && all_digits rest
  end.

Fixpoint digits_then_fraction (seen : bool) (s : string) : bool :=
  match s with
  | EmptyString => false
  | String c rest =>
      if is_digit c then digits_then_fraction true rest
      else if Ascii.eqb c "."%char then
        seen && match rest with
                | String a (String b EmptyString) => is_digit a && is_digit b
                | _ => false
                end
      else false
  end.

Definition two_decimals (s : string) : bool :=
  match s with
  | EmptyString => false
  | String c rest =>
      if Ascii.eqb c "-"%char then digits_then_fraction false rest
      else digits_then_fraction false s
  end.

(** The values of [int()] and [float()] on the words that the examples
    use.  Other words are left out of these tables; the theorems about
    [main] hold for every pair of parsers. *)
Definition example_int (s : string) : option Z :=
  if String.eqb s "1" then Some 1%Z
  else if String.eqb s "8" then Some 8%Z
  else if String.eqb s "0" then Some 0%Z
  else None.

Definition example_float (s : string) : option float :=
  if String.eqb s "0" then Some 0%float
  else if String.eqb s "300" then Some 300%float
  else if String.eqb s "450" then Some 450%float
  else if String.eqb s "-5" then Some (-5)%float
  else if String.eqb s "inf" then Some infinity
  else None.

(** ** [derive_linear_coefficients] of [derive_coefficients.py]

    The records are grouped by the number [classify_trip] gives them, and
    a regression is run on every group that is not empty.  A dictionary is
    a list of pairs in insertion order.  [np.linalg.lstsq] is a parameter:
    it either raises [LinAlgError] with a message, or returns the
    coefficients, the array of residuals (which can be empty) and the
    rank. *)

Module DeriveCoefficients.

Definition dict (V : Type) : Type := list (Z * V).

Inductive error : Type :=
| Exn (e : exn)
| KeyError (key : Z)
| IndexError.

Inductive outcome (A : Type) : Type :=
| Done (a : A)
| Failed (e : error).

Arguments Done {A} a.
Arguments Failed {A} e.

(** The dictionary [clusters]. *)
Definition grouped : Type := dict (list entry).

(** [clusters[key].append(entry)]; [None] when the key is missing. *)
Fixpoint append_at (clusters : grouped) (key : Z) (entry : entry)
  : option grouped :=
  match clusters with
  | [] => None
  | (k, l) :: rest =>
      if (k =? key)%Z then Some ((k, l ++ [entry]) :: rest)
      else option_map (cons (k, l)) (append_at rest key entry)
  end.

(** [coefficients[key] = value]. *)
Fixpoint set_item {V : Type} (key : Z) (value : V) (d : dict V) : dict V :=
  match d with
  | [] => [(key, value)]
  | (k, v) :: rest =>
      if (k =? key)%Z then (k, value) :: rest
      else (k, v) :: set_item key value rest
  end.

(** The loop [for entry in data] that fills [clusters]. *)
Fixpoint group (data : list entry) (clusters : grouped)
  : outcome grouped :=
  match data with
  | [] => Done clusters
  | entry :: rest =>
      match classify_trip entry with
      | Raise e => Failed (Exn e)
      | Ok cluster =>
          if negb (cluster =? -1)%Z then
            match append_at clusters cluster entry with
            | None => Failed (KeyError cluster)
            | Some clusters' => group rest clusters'
            end
          else group rest clusters
      end
  end.

Definition row (entry : entry) : list float :=
  [trip_duration_days (input entry); miles_traveled (input entry);
   total_receipts_amount (input entry)].

(** The loop that fills [A] and [y] for one cluster. *)
Definition design (cluster_data : list entry)
  : list (list float) * list float :=
  fold_left
    (fun Ay entry =>
       (fst Ay ++ [row entry], snd Ay ++ [expected_output entry]))
    cluster_data ([], []).

Definition str_int (z : Z) : string :=
  if (z <? 0)%Z then ("-" ++ Fmt.decimal (- z))%string else Fmt.decimal z.

(** What is kept for a cluster: the coefficients, the first residual and
    [y]. *)
Definition fit : Type := list float * float * list float.

Record state : Type := mkState {
  coefficients : dict fit;
  printed : list string
}.

Section Lstsq.

Variable lstsq :
  list (list float) -> list float -> string + (list float * list float * Z).

(** The loop [for cluster, cluster_data in clusters.items()]. *)
Fixpoint fit_clusters (clusters : grouped) (st : state)
  : outcome state :=
  match clusters with
  | [] => Done st
  | (cluster, cluster_data) :: rest =>
      match cluster_data with
      | [] => fit_clusters rest st
      | _ :: _ =>
          let (A, y) := design cluster_data in
          match lstsq A y with
          | inl message =>
              fit_clusters rest
                (mkState (coefficients st)
                   (printed st
                    ++ [("Warning: Error solving for cluster "
                         ++ str_int cluster ++ ": " ++ message
                         ++ Fmt.newline)%string]))
          | inr (coef, residuals, rank) =>
              match residuals with
              | [] => Failed IndexError
              | residual :: _ =>
                  fit_clusters rest
                    (mkState
                       (set_item cluster (coef, residual, y)
                          (coefficients st))
                       (printed st
                        ++ [(Fmt.newline ++ "Cluster " ++ str_int cluster
                             ++ " Statistics:" ++ Fmt.newline)%string;
                            ("Number of samples: "
                             ++ str_int (Z.of_nat (List.length cluster_data))
                             ++ Fmt.newline)%string;
                            ("Residuals: " ++ Fmt.format_2f residual
                             ++ Fmt.newline)%string;
                            ("Rank: " ++ str_int rank
                             ++ Fmt.newline)%string]))
              end
          end
      end
  end.

Definition derive_linear_coefficients (data : list entry) : outcome state :=
  match group data [(0, []); (1, []); (2, [])]%Z with
  | Failed e => Failed e
  | Done clusters => fit_clusters clusters (mkState [] [])
  end.

(** What makes a cluster's entry in [coefficients]: the cluster has
    records, and the regression on their rows and outputs returned the
    coefficients and a first residual. *)
Definition fitted (cluster_data : list entry) (coef : list float)
    (residual : float) (y : list float) : Prop :=
  cluster_data <> []
  /\ y = map expected_output cluster_data
  /\ exists residuals rank,
       lstsq (map row cluster_data) y = inr (coef, residual :: residuals, rank).

End Lstsq.

(** The line that reports the size of a cluster. *)
Definition samples_line (cluster_data : list entry) : string :=
  ("Number of samples: " ++ str_int (Z.of_nat (List.length cluster_data))
   ++ Fmt.newline)%string.

(** The records of [data] that [classify_trip] gives the number [k]. *)
Definition members (k : Z) (data : list entry) : list entry :=
  filter (fun entry => match classify_trip entry with
                       | Ok c => (c =? k)%Z
                       | Raise _ => false
                       end) data.

Definition zero_days (entry : entry) : bool :=
  (trip_duration_days (input entry) =? 0)%float.

(** A case file and a regression that always answers the same, for the
    examples. *)
Definition example_data : list entry :=
  [mkEntry (mkTrip 8 450 300) 955.49; mkEntry (mkTrip 3 100 50) 341.49;
   mkEntry (mkTrip 13 0 5000) 2491.07; mkEntry (mkTrip 10 900 1200) 1819.45;
   mkEntry (mkTrip 7 400 0) 717.72]%float.

Definition example_lstsq (A : list (list float)) (y : list float)
  : string + (list float * list float * Z) :=
  inr ([1; 2; 3]%float, [0.5]%float, 3%Z).

End DeriveCoefficients.

(** ** [derive_linear_coefficients] of [calculate_reimbursement.py]

    The same two lists are filled from all the records and handed to
    [np.linalg.solve], a parameter here. *)

Module ExactFit.

Section Solve.

Variable R : Type.
Variable solve : list (list float) -> list float -> R.

Definition derive_linear_coefficients (data : list entry) : R :=
  let (A, y) :=
    fold_left
      (fun Ay entry =>
         (fst Ay ++ [DeriveCoefficients.row entry],
          snd Ay ++ [expected_output entry]))
      data ([], []) in
  solve A y.

End Solve.

End ExactFit.

(** ** The tier functions of [calculate_reimbursement.py]

    Three helpers that the file defines next to [calculate_reimbursement];
    their argument is a float. *)

Module Tiers.

Local Open Scope float_scope.

Definition calculate_mileage_reimbursement (miles : float) : float :=
  if miles <=? 100 then miles * 40.0
  else if miles <=? 500 then 4000.0 + (miles - 100) * 2.0
  else if miles <=? 1000 then 4800.0 + (miles - 500) * 1.5
  else 5550.0 + (miles - 1000) * 1.0.

Definition calculate_receipt_multiplier (receipts : float) : float :=
  if receipts =? 0 then 1.0
  else if receipts <? 100 then 15.0
  else if receipts <? 500 then 3.0
  else if receipts <? 1000 then 1.5
  else 0.8.

Definition calculate_base_per_diem (days : float) : float :=
  if days =? 1 then 100.0
  else if days =? 2 then 200.0
  else if days =? 3 then 300.0
  else if days =? 4 then 400.0
  else if days =? 5 then 550.0
  else if days <=? 10 then 100.0 * days
  else 110.0 * days.

End Tiers.

(** ** Reading a text with two fractional digits

    The number of hundredths that a text of the form produced by [.2f]
    denotes, with its sign. *)

Module Read.

Fixpoint split_at_dot (s : string) : string * string :=
  match s with
  | EmptyString => (EmptyString, EmptyString)
  | String c rest =>
      if Ascii.eqb c "."%char then (EmptyString, rest)
      else let (a, b) := split_at_dot rest in (String c a, b)
  end.

Definition digit_value (c : ascii) : Z := Z.of_nat (nat_of_ascii c) - 48.

Definition unsigned (t : string) : option Z :=
  let (whole, fraction) := split_at_dot t in
  match NilZero.uint_of_string whole, fraction with
  | Some u, String a (String b EmptyString) =>
      if is_digit a && is_digit b
      then Some (100 * Z.of_N (N.of_uint u) + 10 * digit_value a
                 + digit_value b)
      else None
  | _, _ => None
  end.

Definition fixed2 (t : string) : option (bool * Z) :=
  match t with
  | EmptyString => None
  | String c rest =>
      if Ascii.eqb c "-"%char
      then option_map (pair true) (unsigned rest)
      else option_map (pair false) (unsigned t)
  end.

End Read.

(** The sign and the hundredths that [.2f] writes for a finite float. *)
Definition digits_of (x : float) : option (bool * Z) :=
  match Prim2SF x with
  | S754_zero s => Some (s, 0)
  | S754_finite s m e => Some (s, Py.hundredths m e)
  | _ => None
  end.

(** ** Python numbers

    An argument of a function, or a number read by [json.load], is an
    [int] or a float.  Arithmetic between a float and an [int] converts the
    [int] first ([OverflowError] when it is too large); comparisons
    between [int]s are exact, and so is the true division of two [int]s,
    which rounds the exact quotient once. *)

Inductive number : Type :=
| Int (z : Z)
| Float (f : float).

Module Num.

Definition to_float (x : number) : result float :=
  match x with
  | Int z => float_of_int z
  | Float f => Ok f
  end.

(** The float of an [int] literal of the source; the literals are small,
    and the conversion of an [int] below [2^53] is exact. *)
Definition literal (c : Z) : float :=
  SF2Prim (binary_normalize prec emax c 0 false).

(** [c <= x] and [x <= c] for an [int] literal [c]. *)
Definition int_le (c : Z) (x : number) : bool :=
  match x with
  | Int z => (c <=? z)%Z
  | Float f => (literal c <=? f)%float
  end.

Definition le_int (x : number) (c : Z) : bool :=
  match x with
  | Int z => (z <=? c)%Z
  | Float f => (f <=? literal c)%float
  end.

(** [x == 0]. *)
Definition is_zero (x : number) : bool :=
  match x with
  | Int z => (z =? 0)%Z
  | Float f => (f =? 0)%float
  end.

(** An [int] as a datum with exponent zero. *)
Definition int_datum (z : Z) : spec_float :=
  match z with
  | Z0 => S754_zero false
  | Z.pos p => S754_finite false p 0
  | Z.neg p => S754_finite true p 0
  end.

(** [a / b]. *)
Definition truediv (a b : number) : result float :=
  match a, b with
  | Int x, Int y =>
      if (y =? 0)%Z then Raise ZeroDivisionError
      else match SFdiv prec emax (int_datum x) (int_datum y) with
           | S754_infinity _ => Raise OverflowError
           | q => Ok (SF2Prim q)
           end
  | _, _ =>
      x <- to_float a ;;
      y <- to_float b ;;
      Py.truediv x y
  end.

(** [c * x] for a float [c]. *)
Definition mul (c : float) (x : number) : result float :=
  d <- to_float x ;; Ok (c * d)%float.

(** The value [round]ed in the arm, from its three products. *)
Definition weighted (c1 c2 c3 : float) (days miles receipts : number)
  : result float :=
  a <- mul c1 days ;;
  b <- mul c2 miles ;;
  c <- mul c3 receipts ;;
  Ok (Py.round2 (a + b + c)%float).

(** [calculate_reimbursement] on the numbers it is called with. *)
Definition calculate_reimbursement
  (trip_duration_days miles_traveled total_receipts_amount : number)
  : result float :=
  receipts_per_day <- truediv total_receipts_amount trip_duration_days ;;
  if int_le 5 trip_duration_days && le_int trip_duration_days 12
     && (100 <=? receipts_per_day)%float
  then weighted 87.111841 0.673030 0.285504
         trip_duration_days miles_traveled total_receipts_amount
  else if le_int trip_duration_days 6 && (receipts_per_day <? 100)%float
  then weighted 94.201797 0.462207 0.253290
         trip_duration_days miles_traveled total_receipts_amount
  else if le_int trip_duration_days 9 && int_le 400 miles_traveled
  then weighted 73.582926 0.506600 0.462858
         trip_duration_days miles_traveled total_receipts_amount
  else weighted 94.201797 0.462207 0.253290
         trip_duration_days miles_traveled total_receipts_amount.

(** [days >= 1], [miles >= 0] and [receipts >= 0]. *)
Definition valid_input (days miles receipts : number) : Prop :=
  int_le 1 days = true /\ int_le 0 miles = true /\ int_le 0 receipts = true.

End Num.

(** Whether anything reached the standard error by the end of a run: a
    message of the script, or the traceback that the interpreter writes
    when an exception is not caught. *)
Definition is_stderr (e : event) : bool :=
  match e with
  | Stderr _ => true
  | _ => false
  end.

Definition stderr_used (r : run) : bool :=
  existsb is_stderr (trace r)
  || match final r with
     | Uncaught _ => true
     | Exit _ => false
     end.

(** ** The case file as [json.load] returns it

    A record of the case file holds numbers: an [int] where the file has
    an integer literal (the days, as a rule), a float elsewhere.  The
    three scripts read the fields of a record and compute on them as
    Python does on such numbers. *)
Module CaseFile.

Record trip : Type := mkTrip {
  trip_duration_days : number;
  miles_traveled : number;
  total_receipts_amount : number
}.

Record case : Type := mkCase {
  input : trip;
  expected_output : number
}.

(** [classify_trip] of [derive_coefficients.py] on such a record. *)
Definition classify_trip (entry : case) : result Z :=
  let days := trip_duration_days (input entry) in
  let miles := miles_traveled (input entry) in
  let receipts := total_receipts_amount (input entry) in
  receipts_per_day <- Num.truediv receipts days ;;
  if Num.int_le 5 days && Num.le_int days 12
     && (100 <=? receipts_per_day)%float
  then Ok 0
  else if Num.le_int days 6 && (receipts_per_day <? 100)%float
  then Ok 1
  else if Num.le_int days 9 && Num.int_le 400 miles
  then Ok 2
  else Ok (-1).

Definition clusters : Type := list (Z * list case).

(** [clusters[key].append(entry)]; [None] when the key is missing. *)
Fixpoint append_at (d : clusters) (key : Z) (entry : case)
  : option clusters :=
  match d with
  | [] => None
  | (k, l) :: rest =>
      if (k =? key)%Z then Some ((k, l ++ [entry]) :: rest)
      else option_map (cons (k, l)) (append_at rest key entry)
  end.

(** The loop [for entry in data] of [derive_linear_coefficients] that
    fills [clusters]. *)
Fixpoint group (data : list case) (d : clusters)
  : DeriveCoefficients.outcome clusters :=
  match data with
  | [] => DeriveCoefficients.Done d
  | entry :: rest =>
      match classify_trip entry with
      | Raise e => DeriveCoefficients.Failed (DeriveCoefficients.Exn e)
      | Ok cluster =>
          if negb (cluster =? -1)%Z then
            match append_at d cluster entry with
            | None =>
                DeriveCoefficients.Failed
                  (DeriveCoefficients.KeyError cluster)
            | Some d' => group rest d'
            end
          else group rest d
      end
  end.

(** The records of [data] that [classify_trip] gives the number [k]. *)
Definition members (k : Z) (data : list case) : list case :=
  filter (fun entry => match classify_trip entry with
                       | Ok c => (c =? k)%Z
                       | Raise _ => false
                       end) data.

(** Whether the division of the receipts by the days of a record gives a
    quotient. *)
Definition divides (entry : case) : bool :=
  match Num.truediv (total_receipts_amount (input entry))
          (trip_duration_days (input entry)) with
  | Ok _ => true
  | Raise _ => false
  end.

Definition example_data : list case :=
  [mkCase (mkTrip (Int 8) (Int 450) (Float 300)) (Float 955.49);
   mkCase (mkTrip (Int 3) (Float 100) (Int 50)) (Float 341.49);
   mkCase (mkTrip (Int 13) (Int 0) (Float 5000)) (Float 2491.07);
   mkCase (mkTrip (Int 10) (Int 900) (Int 1200)) (Float 1819.45);
   mkCase (mkTrip (Int 7) (Float 400) (Float 0)) (Float 717.72)].

End CaseFile.

(** A record of floats, as the deriver's own model above has it, read as
    a record of the case file. *)
Definition case_of_entry (e : entry) : CaseFile.case :=
  CaseFile.mkCase
    (CaseFile.mkTrip (Float (trip_duration_days (input e)))
                     (Float (miles_traveled (input e)))
                     (Float (total_receipts_amount (input e))))
    (Float (expected_output e)).

(** ** The dictionaries of [analyze_patterns.py]

    [d[key].append(case)] on a [defaultdict(list)]: the case goes to the
    list of the key that the dictionary takes for the same as [key], or
    to a new list under [key] itself, at the end.  A dictionary takes two
    objects for the same key when they are one object or compare equal;
    [same_key stored key] stands for that test. *)
Module AnalyzePatterns.

Section Grouping.

Variable K : Type.
Variable C : Type.
Variable same_key : K -> K -> bool.

Definition groups : Type := list (K * list C).

Fixpoint append_to (d : groups) (key : K) (case : C) : groups :=
  match d with
  | [] => [(key, [case])]
  | (k, l) :: rest =>
      if same_key k key then (k, l ++ [case]) :: rest
      else (k, l) :: append_to rest key case
  end.

Definition group_by (key : C -> K) (cases : list C) : groups :=
  fold_left (fun d case => append_to d (key case) case) cases [].

(** A case that is in some group. *)
Definition grouped (d : groups) (x : C) : Prop :=
  exists g, In g d /\ In x (snd g).

(** A group holds a first case, under the key of that case, and cases
    whose keys the dictionary took for that key. *)
Definition well_formed (key : C -> K) (g : K * list C) : Prop :=
  exists c l, snd g = c :: l /\ fst g = key c
              /\ Forall (fun x => same_key (fst g) (key x) = true) l.

Definition sizes (d : groups) : list nat :=
  map (fun g => List.length (snd g)) d.

(** The dictionary took no key for an earlier one. *)
Definition distinct_keys (d : groups) : Prop :=
  ForallOrdPairs (fun k1 k2 => same_key k1 k2 = false) (map fst d).

End Grouping.

Arguments append_to {K C} same_key d key case.
Arguments group_by {K C} same_key key cases.
Arguments grouped {K C} d x.
Arguments well_formed {K C} same_key key g.
Arguments sizes {K C} d.
Arguments distinct_keys {K C} same_key d.

(** Whether an [int] and a float are the same number. *)
Definition float_is_int (f : float) (z : Z) : bool :=
  match Prim2SF f with
  | S754_zero _ => (z =? 0)%Z
  | S754_finite s m e =>
      let v := if s then Z.neg m else Z.pos m in
      if (0 <=? e)%Z then (z =? v * 2 ^ e)%Z else (z * 2 ^ (- e) =? v)%Z
  | _ => false
  end.

(** [a == b] on numbers: exact, also between an [int] and a float; a NaN
    equals nothing. *)
Definition equal (a b : number) : bool :=
  match a, b with
  | Int x, Int y => (x =? y)%Z
  | Float x, Float y => (x =? y)%float
  | Int x, Float y => float_is_int y x
  | Float x, Int y => float_is_int x y
  end.

Definition is_nan (a : number) : bool :=
  match a with
  | Int _ => false
  | Float f => PrimFloat.is_nan f
  end.

(** The test of a dictionary on two numbers of a loaded case file.
    [json.load] returns one and the same object for every [NaN] of the
    file, so that two of them are one key. *)
Definition loaded_key (stored key : number) : bool :=
  (is_nan stored && is_nan key) || equal stored key.

(** The test on two numbers that were computed: a computed NaN is an
    object of its own. *)
Definition computed_key (stored key : number) : bool := equal stored key.

(** [duration_groups] after the first loop of [analyze_patterns]. *)
Definition duration_groups (cases : list CaseFile.case)
  : groups number CaseFile.case :=
  group_by loaded_key
    (fun case => CaseFile.trip_duration_days (CaseFile.input case)) cases.

(** The quotients [c['expected_output'] / c['input'][field]] of the
    cases of a band, in order, as the generator handed to
    [statistics.mean] produces them; the first division that fails ends
    it. *)
Fixpoint rates (field : CaseFile.case -> number)
    (cases : list CaseFile.case) : result (list float) :=
  match cases with
  | [] => Ok []
  | case :: rest =>
      rate <- Num.truediv (CaseFile.expected_output case) (field case) ;;
      more <- rates field rest ;;
      Ok (rate :: more)
  end.

End AnalyzePatterns.

(** * Properties *)

(** ** Comparisons of floats, through their specification *)

(** Replaces the [spec_float] image of every literal by its value, leaving
    that of the variable [d]. *)
Ltac sf_const c :=
  let v := eval vm_compute in (Prim2SF c) in
  replace (Prim2SF c) with v by (vm_compute; reflexivity).

Ltac sf_consts d :=
  repeat match goal with
  | |- context [Prim2SF ?c] => tryif constr_eq c d then fail else sf_const c
  end.

(** Mantissas are compared as integers. *)
Lemma compare_cont_Z (a b : positive) :
  PosDef.Pos.compare_cont Eq a b = Z.compare (Z.pos a) (Z.pos b).
Proof. reflexivity. Qed.

(** Splits on the comparisons of exponents and mantissas in the goal. *)
Ltac sf_cases :=
  rewrite ?compare_cont_Z;
  repeat match goal with
  | |- context [Z.compare ?a ?b] =>
      let E := fresh "E" in
      destruct (Z.compare a b) eqn:E;
      [apply Z.compare_eq_iff in E | change (Z.lt a b) in E
      | change (Z.gt a b) in E]
  end.

(** Decides a goal on comparisons of the float [d] with literals, by cases
    on the [spec_float] image of [d]. *)
Ltac by_spec d :=
  rewrite ?leb_spec, ?ltb_spec, ?eqb_spec;
  sf_consts d;
  destruct (Prim2SF d) as [[|]|[|]| |[|] ? ?];
  cbv [SFleb SFltb SFeqb SFcompare];
  try (intros; reflexivity); try (intros; discriminate);
  sf_cases; intros; try reflexivity; try discriminate; try lia.

Lemma ge_1_not_zero d : (1 <=? d)%float = true -> (d =? 0)%float = false.
Proof. by_spec d. Qed.

Lemma ge_13_not_le_12 d : (13 <=? d)%float = true -> (d <=? 12)%float = false.
Proof. by_spec d. Qed.

Lemma ge_13_not_le_9 d : (13 <=? d)%float = true -> (d <=? 9)%float = false.
Proof. by_spec d. Qed.

Lemma ge_13_not_le_6 d : (13 <=? d)%float = true -> (d <=? 6)%float = false.
Proof. by_spec d. Qed.

Lemma ge_13_ge_1 d : (13 <=? d)%float = true -> (1 <=? d)%float = true.
Proof. by_spec d. Qed.

(** Under the precondition the division of line 104 returns a number. *)
Lemma truediv_valid days receipts :
  (1 <=? days)%float = true ->
  Py.truediv receipts days = Ok (receipts / days)%float.
Proof.
  intros H. unfold Py.truediv. now rewrite (ge_1_not_zero _ H).
Qed.

Lemma arm_is_spec days miles receipts :
  (1 <=? days)%float = true ->
  reimbursement_arm days miles receipts
  = Ok (Spec.classify days miles receipts,
        Spec.formula (Spec.classify days miles receipts) days miles receipts).
Proof.
  intros H. unfold reimbursement_arm.
  rewrite (truediv_valid _ _ H). cbv beta iota delta [bind].
  unfold Spec.classify, Spec.priority.
  cbv beta iota delta [find Spec.rule].
  destruct ((5 <=? days)%float && (days <=? 12)%float
            && (100 <=? receipts / days)%float); [reflexivity|].
  destruct ((days <=? 6)%float && (receipts / days <? 100)%float);
    [reflexivity|].
  destruct ((days <=? 9)%float && (400 <=? miles)%float); reflexivity.
Qed.

Lemma taken_arm_valid days miles receipts :
  (1 <=? days)%float = true ->
  taken_arm days miles receipts = Ok (Spec.classify days miles receipts).
Proof.
  intros H. unfold taken_arm. now rewrite (arm_is_spec _ _ _ H).
Qed.

(** ** The branch order (C1) *)

(** C1: for every valid input [calculate_reimbursement] takes the first
    cluster, in the order LongHighReceipts, ShortLowActivity,
    MidHighMileage, whose rule holds, and the Default arm when none does;
    the value it rounds is that cluster's formula.  With 5 days and
    receipts of 500 (100 a day exactly) the first arm is taken, whatever
    the miles. *)
Theorem first_match_wins days miles receipts :
  valid_input days miles receipts ->
  reimbursement_arm days miles receipts
  = Ok (Spec.classify days miles receipts,
        Spec.formula (Spec.classify days miles receipts) days miles receipts)
  /\ calculate_reimbursement days miles receipts
     = Ok (Spec.compute days miles receipts)
  /\ taken_arm 5 miles 500 = Ok LongHighReceipts.
Proof.
  intros (Hd & _ & _). split; [|split].
  - now apply arm_is_spec.
  - unfold calculate_reimbursement. now rewrite (arm_is_spec _ _ _ Hd).
  - rewrite taken_arm_valid by (vm_compute; reflexivity).
    unfold Spec.classify, Spec.priority.
    cbv beta iota delta [find].
    replace (Spec.rule LongHighReceipts 5 miles 500) with true
      by (vm_compute; reflexivity).
    reflexivity.
Qed.

Lemma first_match_wins_witness :
  reimbursement_arm 5 0 500
  = Ok (Spec.classify 5 0 500,
        Spec.formula (Spec.classify 5 0 500) 5 0 500)
  /\ calculate_reimbursement 5 0 500 = Ok (Spec.compute 5 0 500)
  /\ taken_arm 5 0 500 = Ok LongHighReceipts.
Proof.
  apply (first_match_wins 5 0 500).
  repeat split; vm_compute; reflexivity.
Defined.

(** ** A worked case (C2) *)

(** C2: for 8 days, 450 miles and receipts of 300 the first rule fails on
    the receipts per day (37.5), the second on the days, the third holds:
    the MidHighMileage arm is taken and the result is 955.49. *)
Theorem scenario_8_450_300 :
  (300 / 8 = 37.5)%float
  /\ Spec.rule LongHighReceipts 8 450 300 = false
  /\ Spec.rule ShortLowActivity 8 450 300 = false
  /\ Spec.rule MidHighMileage 8 450 300 = true
  /\ taken_arm 8 450 300 = Ok MidHighMileage
  /\ calculate_reimbursement 8 450 300 = Ok 955.49%float.
Proof. repeat split; vm_compute; reflexivity. Qed.

(** ** [classify_trip] against the calculator (C7, C8) *)

Lemma cluster_code_inj c c' : cluster_code c = cluster_code c' -> c = c'.
Proof. destruct c, c'; simpl; intros H; try reflexivity; discriminate. Qed.

(** On every record, [classify_trip] returns the number of the arm that
    the calculator takes on the record's input, and fails as it does. *)
Lemma classify_trip_arm e :
  classify_trip e
  = (c <- taken_arm (trip_duration_days (input e)) (miles_traveled (input e))
                    (total_receipts_amount (input e)) ;;
     Ok (cluster_code c)).
Proof.
  unfold classify_trip, taken_arm, reimbursement_arm.
  destruct (Py.truediv _ _) as [rpd|x]; [|reflexivity].
  cbv beta iota delta [bind].
  destruct (_ && _ && _); [reflexivity|].
  destruct (_ && _); [reflexivity|].
  destruct (_ && _); reflexivity.
Qed.

(** C7: on a record of at least one day, [classify_trip] returns 0, 1, 2
    exactly when the calculator takes the LongHighReceipts,
    ShortLowActivity, MidHighMileage arm on that input, and -1 exactly when
    it takes the Default arm. *)
Theorem classify_trip_agrees e c :
  (1 <=? trip_duration_days (input e))%float = true ->
  classify_trip e = Ok (cluster_code c)
  <-> taken_arm (trip_duration_days (input e)) (miles_traveled (input e))
                (total_receipts_amount (input e)) = Ok c.
Proof.
  intros H. rewrite classify_trip_arm, (taken_arm_valid _ _ _ H).
  cbv beta iota delta [bind]. split; intros E.
  - injection E as E. now rewrite (cluster_code_inj _ _ E).
  - injection E as E. now rewrite E.
Qed.

Lemma classify_trip_agrees_witness :
  classify_trip (mkEntry (mkTrip 8 450 300) 955.49) = Ok (cluster_code MidHighMileage)
  <-> taken_arm 8 450 300 = Ok MidHighMileage.
Proof.
  apply (classify_trip_agrees (mkEntry (mkTrip 8 450 300) 955.49) MidHighMileage).
  vm_compute; reflexivity.
Defined.

(** C8: a valid trip of 13 days or more matches no cluster rule: the
    calculator takes the Default arm, which rounds the ShortLowActivity
    formula, and [classify_trip] returns -1. *)
Theorem long_trips_default days miles receipts expected :
  valid_input days miles receipts ->
  (13 <=? days)%float = true ->
  taken_arm days miles receipts = Ok Default
  /\ calculate_reimbursement days miles receipts
     = Ok (Py.round2 (Spec.formula ShortLowActivity days miles receipts))
  /\ classify_trip (mkEntry (mkTrip days miles receipts) expected) = Ok (-1)%Z.
Proof.
  intros (Hd & _ & _) H.
  assert (A : reimbursement_arm days miles receipts
              = Ok (Default, Spec.formula ShortLowActivity days miles receipts)).
  { unfold reimbursement_arm. rewrite (truediv_valid _ _ Hd).
    cbv beta iota delta [bind].
    rewrite (ge_13_not_le_12 _ H), (ge_13_not_le_9 _ H), (ge_13_not_le_6 _ H).
    rewrite andb_false_r. reflexivity. }
  split; [|split].
  - unfold taken_arm. now rewrite A.
  - unfold calculate_reimbursement. now rewrite A.
  - rewrite classify_trip_arm. unfold taken_arm. simpl input.
    cbv beta iota delta [trip_duration_days miles_traveled total_receipts_amount].
    now rewrite A.
Qed.

Lemma long_trips_default_witness :
  taken_arm 13 0 5000 = Ok Default
  /\ calculate_reimbursement 13 0 5000
     = Ok (Py.round2 (Spec.formula ShortLowActivity 13 0 5000))
  /\ classify_trip (mkEntry (mkTrip 13 0 5000) 0) = Ok (-1)%Z.
Proof.
  apply (long_trips_default 13 0 5000 0).
  - repeat split; vm_compute; reflexivity.
  - vm_compute; reflexivity.
Defined.

(** ** No monotonicity in the miles (C10) *)

(** C10: more miles can pay less.  With 7 days and no receipts, 399 miles
    take the Default arm and pay 843.83, while 400 miles take the
    MidHighMileage arm and pay 717.72. *)
Theorem not_monotone_in_miles :
  (valid_input 7 399 0 /\ valid_input 7 400 0
   /\ (399 <? 400)%float = true
   /\ taken_arm 7 399 0 = Ok Default
   /\ taken_arm 7 400 0 = Ok MidHighMileage
   /\ calculate_reimbursement 7 399 0 = Ok 843.83%float
   /\ calculate_reimbursement 7 400 0 = Ok 717.72%float
   /\ (717.72 <? 843.83)%float = true)
  /\ ~ (forall days m1 m2 receipts v1 v2,
          valid_input days m1 receipts -> valid_input days m2 receipts ->
          (m1 <=? m2)%float = true ->
          calculate_reimbursement days m1 receipts = Ok v1 ->
          calculate_reimbursement days m2 receipts = Ok v2 ->
          (v1 <=? v2)%float = true).
Proof.
  split; [repeat split; vm_compute; reflexivity|].
  intros M.
  assert (F : (843.83 <=? 717.72)%float = true).
  { apply (M 7 399 400 0 843.83 717.72)%float;
      try (repeat split); vm_compute; reflexivity. }
  vm_compute in F. discriminate F.
Qed.

(** ** Signs through the IEEE operations *)

Lemma leb_0_nonneg v : (0 <=? v)%float = nonneg_sf (Prim2SF v).
Proof.
  rewrite leb_spec. sf_const 0%float.
  destruct (Prim2SF v) as [[|]|[|]| |[|] ? ?]; reflexivity.
Qed.

Lemma iter_pos_inv {A} (P : A -> Prop) (f : A -> A) :
  (forall x, P x -> P (f x)) ->
  forall n x, P x -> P (iter_pos f n x).
Proof.
  intros Hf. induction n as [n IH|n IH|]; intros x Hx; simpl; auto.
Qed.

Lemma shr_1_nonneg r : (0 <= shr_m r)%Z -> (0 <= shr_m (shr_1 r))%Z.
Proof.
  destruct r as [m r s]. simpl shr_m at 1. intros H.
  destruct m as [|[p|p|]|p]; simpl; lia.
Qed.

Lemma shr_fexp_nonneg m e l :
  (0 <= m)%Z -> (0 <= shr_m (fst (shr_fexp prec emax m e l)))%Z.
Proof.
  intros H. unfold shr_fexp, shr.
  assert (H0 : (0 <= shr_m (shr_record_of_loc m l))%Z)
    by (destruct l as [|[| |]]; exact H).
  destruct (fexp prec emax (Zdigits2 m + e) - e)%Z; simpl fst; try exact H0.
  apply iter_pos_inv; [exact shr_1_nonneg | exact H0].
Qed.

Lemma round_nearest_even_nonneg m l :
  (0 <= m)%Z -> (0 <= round_nearest_even m l)%Z.
Proof.
  intros H. unfold round_nearest_even.
  destruct l as [|[| |]]; try destruct (Z.even m); lia.
Qed.

(** Rounding keeps the sign it is given. *)
Lemma binary_round_aux_sign s m e l :
  (0 <= m)%Z -> sign_is s (binary_round_aux prec emax s m e l).
Proof.
  intros H. unfold binary_round_aux.
  pose proof (shr_fexp_nonneg m e l H) as H1.
  destruct (shr_fexp prec emax m e l) as [r1 e1]. simpl fst in H1.
  pose proof (shr_fexp_nonneg _ e1 loc_Exact
                (round_nearest_even_nonneg _ (loc_of_shr_record r1) H1)) as H2.
  destruct (shr_fexp prec emax _ e1 loc_Exact) as [r2 e2]. simpl fst in H2.
  destruct (shr_m r2) as [|p|p]; [reflexivity| |lia].
  destruct (e2 <=? emax - prec)%Z; reflexivity.
Qed.

Lemma binary_round_sign s m e : sign_is s (binary_round prec emax s m e).
Proof.
  unfold binary_round. destruct (shl_align _ _ _) as [mz ez].
  apply binary_round_aux_sign. lia.
Qed.

Lemma sign_is_nonneg x : sign_is false x -> nonneg_sf x = true.
Proof. destruct x as [s|s| |s m e]; simpl; intros H; subst; easy. Qed.

Lemma SFmul_nonneg mx ex y :
  nonneg_sf y = true ->
  nonneg_sf (SFmul prec emax (S754_finite false mx ex) y) = true.
Proof.
  destruct y as [[|]|[|]| |[|] my ey]; simpl; intros H; try easy.
  apply sign_is_nonneg, binary_round_aux_sign. lia.
Qed.

Lemma SFadd_nonneg x y :
  nonneg_sf x = true -> nonneg_sf y = true ->
  nonneg_sf (SFadd prec emax x y) = true.
Proof.
  destruct x as [[|]|[|]| |[|] mx ex], y as [[|]|[|]| |[|] my ey];
    simpl nonneg_sf; intros Hx Hy; try easy.
  unfold SFadd, cond_Zopp.
  apply sign_is_nonneg.
  destruct (shl_align mx ex _) as [a ea], (shl_align my ey _) as [b eb].
  simpl fst. apply binary_round_sign.
Qed.

Lemma SFdiv_nonneg mx ex my ey :
  nonneg_sf (SFdiv prec emax (S754_finite false mx ex)
                             (S754_finite false my ey)) = true.
Proof.
  unfold SFdiv, SFdiv_core_binary.
  set (s := (ex - ey - _)%Z).
  set (m' := match s with Z0 => Z.pos mx | Z.pos _ => Z.shiftl (Z.pos mx) s
             | Z.neg _ => 0%Z end).
  assert (Hm : (0 <= m')%Z).
  { unfold m'. destruct s; try lia. apply Z.shiftl_nonneg. lia. }
  pose proof (Z.div_pos m' (Z.pos my) Hm ltac:(lia)) as Hq.
  unfold Z.div in Hq.
  destruct (Z.div_eucl m' (Z.pos my)) as [q r]. simpl fst in Hq.
  apply sign_is_nonneg, binary_round_aux_sign. exact Hq.
Qed.

Lemma SF2Prim_nonneg x :
  nonneg_sf x = true -> nonneg_sf (Prim2SF (SF2Prim x)) = true.
Proof.
  destruct x as [[|]|[|]| |[|] m e]; simpl nonneg_sf; intros H; try easy;
    try (vm_compute; reflexivity).
  unfold SF2Prim. rewrite FloatLemmas.Z_ldexp_spec, of_uint63_spec.
  assert (G : forall z, (0 <= z)%Z ->
            nonneg_sf (SFldexp prec emax
                         (binary_normalize prec emax z 0 false) e) = true).
  { intros [|p|p] Hz; [reflexivity| |lia].
    unfold binary_normalize.
    pose proof (binary_round_sign false p 0) as Hs.
    destruct (binary_round prec emax false p 0) as [s|s| |s m1 e1];
      simpl in Hs; subst; try easy.
    unfold SFldexp. apply sign_is_nonneg, binary_round_sign. }
  apply G, Uint63.to_Z_bounded.
Qed.

Lemma mul_nonneg c x :
  pos_finite c = true -> (0 <=? x)%float = true -> (0 <=? c * x)%float = true.
Proof.
  rewrite !leb_0_nonneg, mul_spec. unfold pos_finite.
  destruct (Prim2SF c) as [s|s| |[|] m e]; try discriminate.
  intros _. apply SFmul_nonneg.
Qed.

Lemma add_nonneg x y :
  (0 <=? x)%float = true -> (0 <=? y)%float = true ->
  (0 <=? x + y)%float = true.
Proof. rewrite !leb_0_nonneg, add_spec. apply SFadd_nonneg. Qed.

Lemma formula_nonneg c days miles receipts :
  (0 <=? days)%float = true -> (0 <=? miles)%float = true ->
  (0 <=? receipts)%float = true ->
  (0 <=? Spec.formula c days miles receipts)%float = true.
Proof.
  intros Hd Hm Hr.
  destruct c; unfold Spec.formula;
    repeat apply add_nonneg; apply mul_nonneg; try assumption;
    vm_compute; reflexivity.
Qed.

Lemma round2_nonneg x :
  (0 <=? x)%float = true -> (0 <=? Py.round2 x)%float = true.
Proof.
  rewrite !leb_0_nonneg. unfold Py.round2.
  destruct (Prim2SF x) as [s|s| |s m e] eqn:E; intros H;
    try (rewrite E; exact H).
  destruct s; [discriminate|].
  destruct (Py.hundredths m e) as [|n|n].
  - vm_compute; reflexivity.
  - unfold Py.of_hundredths. apply SF2Prim_nonneg, SFdiv_nonneg.
  - vm_compute; reflexivity.
Qed.

Lemma ge_1_ge_0 d : (1 <=? d)%float = true -> (0 <=? d)%float = true.
Proof. by_spec d. Qed.

(** ** Nearest integers *)

(** [round_half_even] returns an integer nearest to the quotient, and the
    even one of the two when the quotient lies half way. *)
Lemma round_half_even_nearest num den :
  (0 < den)%Z ->
  (Z.abs (2 * (num - Py.round_half_even num den * den)) <= den)%Z
  /\ (Z.abs (2 * (num - Py.round_half_even num den * den)) = den ->
      Z.even (Py.round_half_even num den) = true).
Proof.
  intros Hden. unfold Py.round_half_even.
  pose proof (Z.div_mod num den ltac:(lia)) as D.
  pose proof (Z.mod_pos_bound num den Hden) as B.
  set (q := (num / den)%Z) in *. set (r := (num mod den)%Z) in *.
  destruct (Z.compare_spec (2 * r) den) as [E|L|G].
  - destruct (Z.even q) eqn:Ev.
    + split; [nia|auto].
    + split; [nia|]. intros _.
      rewrite Z.even_add, Ev. reflexivity.
  - split; [nia|]. intros A. exfalso. nia.
  - split; [nia|]. intros A. exfalso. nia.
Qed.

(** ** The conversion of an [int] to a float *)

Lemma digits2_log2 p : Z.pos (digits2_pos p) = (Z.log2 (Z.pos p) + 1)%Z.
Proof.
  assert (S : forall q, digits2_pos q = Pos.size q)
    by (induction q; simpl; congruence).
  rewrite S. destruct p; simpl; lia.
Qed.

Lemma shr_1_div2 r : (0 <= shr_m r)%Z -> shr_m (shr_1 r) = (shr_m r / 2)%Z.
Proof.
  rewrite <- Z.div2_div. destruct r as [m r s]. simpl shr_m at 1. intros H.
  destruct m as [|[p|p|]|p]; try reflexivity; lia.
Qed.

Lemma iter_shr_1 k r :
  (0 <= shr_m r)%Z ->
  shr_m (iter_pos shr_1 k r) = (shr_m r / 2 ^ Z.pos k)%Z.
Proof.
  revert r. induction k as [k IH|k IH|]; intros r H; simpl iter_pos.
  - assert (H1 : (0 <= shr_m (shr_1 r))%Z) by now apply shr_1_nonneg.
    assert (H2 : (0 <= shr_m (iter_pos shr_1 k (shr_1 r)))%Z)
      by (apply iter_pos_inv; [exact shr_1_nonneg | exact H1]).
    rewrite (IH _ H2), (IH _ H1), (shr_1_div2 _ H).
    rewrite !Z.div_div by lia. f_equal.
    replace (Z.pos k~1) with (1 + Z.pos k + Z.pos k)%Z by lia.
    rewrite !Z.pow_add_r by lia. change (2 ^ 1)%Z with 2%Z. ring.
  - assert (H2 : (0 <= shr_m (iter_pos shr_1 k r))%Z)
      by (apply iter_pos_inv; [exact shr_1_nonneg | exact H]).
    rewrite (IH _ H2), (IH _ H).
    rewrite !Z.div_div by lia. f_equal.
    replace (Z.pos k~0) with (Z.pos k + Z.pos k)%Z by lia.
    rewrite !Z.pow_add_r by lia. reflexivity.
  - now rewrite shr_1_div2.
Qed.

(** Away from the subnormal range, [shr_fexp] drops the bits below the
    53rd. *)
Lemma shr_fexp_normal m e l :
  (52 <= Z.log2 m)%Z -> (-1074 <= e)%Z ->
  shr_fexp prec emax m e l
  = (fst (shr_fexp prec emax m e l), (e + (Z.log2 m - 52))%Z)
  /\ shr_m (fst (shr_fexp prec emax m e l)) = (m / 2 ^ (Z.log2 m - 52))%Z.
Proof.
  intros Hm He.
  assert (Hp : (0 < m)%Z) by (destruct m; simpl in Hm; lia).
  unfold shr_fexp.
  assert (D : Zdigits2 m = (Z.log2 m + 1)%Z)
    by (destruct m; try lia; apply digits2_log2).
  assert (K : (fexp prec emax (Zdigits2 m + e) - e = Z.log2 m - 52)%Z)
    by (rewrite D; unfold fexp, SpecFloat.emin, prec, emax; lia).
  rewrite K.
  assert (R : shr_m (shr_record_of_loc m l) = m) by (destruct l as [|[| |]]; reflexivity).
  unfold shr.
  destruct (Z.log2 m - 52)%Z as [|k|k] eqn:Ek; [| |lia].
  - simpl fst. rewrite R, Z.add_0_r, Z.div_1_r. split; reflexivity.
  - simpl fst. split; [reflexivity|].
    rewrite iter_shr_1 by (rewrite R; lia). now rewrite R.
Qed.

Lemma round_nearest_even_cases m l :
  round_nearest_even m l = m \/ round_nearest_even m l = (m + 1)%Z.
Proof.
  unfold round_nearest_even.
  destruct l as [|[| |]]; try destruct (Z.even m); auto.
Qed.

Lemma log2_div_pow2 m k :
  (0 < m)%Z -> (0 <= k <= Z.log2 m)%Z -> Z.log2 (m / 2 ^ k) = (Z.log2 m - k)%Z.
Proof.
  intros Hm Hk. rewrite <- Z.shiftr_div_pow2 by lia.
  rewrite Z.log2_shiftr by lia. lia.
Qed.

(** Away from the subnormal range, rounding yields a normalised mantissa
    of 53 bits, or overflows. *)
Lemma binary_round_aux_normal s mz ez l :
  (52 <= Z.log2 (Z.pos mz))%Z -> (-1074 <= ez)%Z ->
  (binary_round_aux prec emax s (Z.pos mz) ez l = S754_infinity s
   /\ (emax - prec < ez + (Z.log2 (Z.pos mz) - 52) + 1)%Z)
  \/ exists m e,
       binary_round_aux prec emax s (Z.pos mz) ez l = S754_finite s m e
       /\ Z.log2 (Z.pos m) = 52%Z
       /\ (ez + (Z.log2 (Z.pos mz) - 52) <= e
           <= ez + (Z.log2 (Z.pos mz) - 52) + 1)%Z
       /\ (e <= emax - prec)%Z.
Proof.
  intros Hm He. unfold binary_round_aux.
  destruct (shr_fexp_normal (Z.pos mz) ez l Hm He) as [E1 M1].
  rewrite E1. set (r1 := fst (shr_fexp prec emax (Z.pos mz) ez l)) in *.
  set (k := (Z.log2 (Z.pos mz) - 52)%Z) in *.
  assert (L1 : Z.log2 (shr_m r1) = 52%Z)
    by (rewrite M1, log2_div_pow2; lia).
  assert (P1 : (2 ^ 52 <= shr_m r1 < 2 ^ 53)%Z).
  { assert (0 < shr_m r1)%Z by (destruct (shr_m r1); simpl in L1; lia).
    pose proof (Z.log2_spec (shr_m r1) ltac:(lia)) as S.
    rewrite L1 in S. exact S. }
  set (m2 := round_nearest_even (shr_m r1) (loc_of_shr_record r1)).
  assert (P2 : (2 ^ 52 <= m2 <= 2 ^ 53)%Z)
    by (destruct (round_nearest_even_cases (shr_m r1) (loc_of_shr_record r1))
          as [E|E]; fold m2 in E; rewrite E; lia).
  assert (L2 : (52 <= Z.log2 m2 <= 53)%Z).
  { split.
    - apply Z.log2_le_pow2; lia.
    - pose proof (Z.log2_le_mono m2 (2 ^ 53) ltac:(lia)) as M.
      rewrite Z.log2_pow2 in M; lia. }
  destruct (shr_fexp_normal m2 (ez + k) loc_Exact ltac:(lia) ltac:(lia))
    as [E2 M2].
  rewrite E2. set (r2 := fst (shr_fexp prec emax m2 (ez + k) loc_Exact)) in *.
  assert (L3 : Z.log2 (shr_m r2) = 52%Z).
  { rewrite M2. assert (Z.log2 m2 = 52 \/ Z.log2 m2 = 53)%Z as [E|E] by lia.
    - rewrite E. simpl. rewrite Z.div_1_r. exact E.
    - rewrite log2_div_pow2; lia. }
  destruct (shr_m r2) as [|m|m]; try (simpl in L3; lia).
  destruct (_ <=? _)%Z eqn:B; [right|left].
  - exists m, (ez + k + (Z.log2 m2 - 52))%Z.
    split; [reflexivity|]. split; [exact L3|].
    apply Z.leb_le in B. unfold k. lia.
  - split; [reflexivity|]. apply Z.leb_gt in B. unfold k in B. lia.
Qed.

Lemma iter_xO p d : Z.pos (Pos.iter xO p d) = (Z.pos p * 2 ^ Z.pos d)%Z.
Proof.
  induction d as [|d IH] using Pos.peano_ind.
  - simpl. lia.
  - rewrite Pos.iter_succ, Pos2Z.inj_succ, Z.pow_succ_r by lia.
    rewrite Pos2Z.inj_xO, IH. ring.
Qed.

Lemma shl_align_normal p :
  (52 <= Z.log2 (Z.pos (fst (shl_align p 0
             (fexp prec emax (Z.pos (digits2_pos p) + 0))))))%Z
  /\ (-52 <= snd (shl_align p 0
             (fexp prec emax (Z.pos (digits2_pos p) + 0))))%Z.
Proof.
  pose proof (Z.log2_nonneg (Z.pos p)) as L.
  assert (F : fexp prec emax (Z.pos (digits2_pos p) + 0)
              = (Z.log2 (Z.pos p) - 52)%Z)
    by (rewrite digits2_log2; unfold fexp, SpecFloat.emin, prec, emax; lia).
  rewrite F. unfold shl_align.
  destruct (Z.log2 (Z.pos p) - 52 - 0)%Z as [|d|d] eqn:E;
    cbv beta iota delta [fst snd]; try lia.
  rewrite iter_xO, Z.log2_mul_pow2 by lia. lia.
Qed.

(** The float of a positive [int] is at least 1, when there is one. *)
Lemma float_of_int_ge_1 z d :
  (1 <= z)%Z -> float_of_int z = Ok d -> (1 <=? d)%float = true.
Proof.
  intros Hz. destruct z as [|p|p]; try lia.
  unfold float_of_int, binary_normalize, binary_round.
  destruct (shl_align_normal p) as [A B].
  destruct (shl_align p 0 _) as [mz ez]. simpl fst in A. simpl snd in B.
  destruct (binary_round_aux_normal false mz ez loc_Exact A ltac:(lia))
    as [[E _]|(m & e & E & L & Be & Bm)]; rewrite E; [discriminate|].
  intros H. cbv beta iota in H.
  assert (D : d = SF2Prim (S754_finite false m e)) by congruence.
  rewrite D. clear H D.
  assert (V : SpecFloat.valid_binary prec emax (S754_finite false m e) = true).
  { unfold SpecFloat.valid_binary, bounded, canonical_mantissa.
    rewrite digits2_log2, L. apply andb_true_intro. split.
    - apply Z.eqb_eq. unfold fexp, SpecFloat.emin, prec, emax. lia.
    - apply Z.leb_le. lia. }
  rewrite leb_spec, (Prim2SF_SF2Prim _ V). sf_const 1%float.
  cbv [SFleb SFcompare]. rewrite compare_cont_Z.
  assert (M : (2 ^ 52 <= Z.pos m)%Z) by (apply Z.log2_le_pow2; lia).
  change (2 ^ 52)%Z with 4503599627370496%Z in M.
  destruct (Z.compare_spec (-52) e) as [E1|E1|E1]; try reflexivity; [|lia].
  destruct (Z.compare_spec 4503599627370496 (Z.pos m)); try reflexivity; lia.
Qed.

Lemma float_of_int_error z e : float_of_int z = Raise e -> e = OverflowError.
Proof.
  unfold float_of_int.
  destruct (binary_normalize prec emax z 0 false); now intros [= <-].
Qed.

Lemma calculate_reimbursement_error days miles receipts e :
  calculate_reimbursement days miles receipts = Raise e ->
  e = ZeroDivisionError /\ (days =? 0)%float = true.
Proof.
  unfold calculate_reimbursement, reimbursement_arm, Py.truediv.
  destruct (days =? 0)%float; [now intros [= <-]|].
  cbv beta iota delta [bind].
  destruct (_ && _ && _); [discriminate|].
  destruct (_ && _); [discriminate|].
  destruct (_ && _); discriminate.
Qed.

(** ** Texts and runs of [main] *)

Lemma digit_is_digit k : (0 <= k <= 9)%Z -> is_digit (Fmt.digit k) = true.
Proof.
  intros H.
  assert (k = 0 \/ k = 1 \/ k = 2 \/ k = 3 \/ k = 4 \/ k = 5 \/ k = 6
          \/ k = 7 \/ k = 8 \/ k = 9)%Z as C by lia.
  repeat destruct C as [->|C]; try subst k; reflexivity.
Qed.

Lemma string_of_uint_digits u : all_digits (NilEmpty.string_of_uint u) = true.
Proof. induction u; simpl; auto. Qed.

Lemma decimal_digits n :
  all_digits (Fmt.decimal n) = true /\ Fmt.decimal n <> EmptyString.
Proof.
  unfold Fmt.decimal, NilZero.string_of_uint.
  destruct (N.to_uint (Z.to_N n)) as [|u|u|u|u|u|u|u|u|u|u];
    (split; [try reflexivity; apply (string_of_uint_digits (_ u))
            | simpl; discriminate]).
Qed.

Lemma digits_then_fraction_app t seen a b :
  all_digits t = true -> seen = true \/ t <> EmptyString ->
  is_digit a = true -> is_digit b = true ->
  digits_then_fraction seen
    (t ++ String "."%char (String a (String b EmptyString))) = true.
Proof.
  intros Ht Hs Ha Hb. revert seen Hs.
  induction t as [|c t IH]; intros seen Hs.
  - destruct Hs as [->|Hs]; [|congruence].
    simpl. now rewrite Ha, Hb.
  - simpl in Ht. apply andb_prop in Ht as [Hc Ht].
    simpl. rewrite Hc. apply IH; auto.
Qed.

Lemma fixed2_two_decimals s n : two_decimals (Fmt.fixed2 s n) = true.
Proof.
  destruct (decimal_digits (n / 100)) as [D N].
  assert (F : digits_then_fraction false
                (Fmt.decimal (n / 100)
                 ++ String "."%char
                      (String (Fmt.digit (n mod 100 / 10))
                         (String (Fmt.digit (n mod 10)) EmptyString))) = true).
  { apply digits_then_fraction_app; auto; apply digit_is_digit.
    - pose proof (Z.mod_pos_bound n 100 ltac:(lia)).
      split; [apply Z.div_pos; lia|].
      apply Z.lt_succ_r, Z.div_lt_upper_bound; lia.
    - pose proof (Z.mod_pos_bound n 10 ltac:(lia)). lia. }
  unfold Fmt.fixed2. destruct s.
  - exact F.
  - change (String.append EmptyString ?x) with x.
    cbv beta iota delta [String.append] in F |- *.
    destruct (Fmt.decimal (n / 100)) as [|c t]; [congruence|].
    simpl in D. apply andb_prop in D as [Dc _].
    unfold two_decimals.
    destruct (Ascii.eqb_spec c "-"%char) as [->|_]; [discriminate Dc|].
    exact F.
Qed.

Lemma format_2f_two_decimals x :
  is_finite x = true -> two_decimals (Fmt.format_2f x) = true.
Proof.
  intros H. unfold Fmt.format_2f.
  destruct (Prim2SF x) as [s|s| |s m e] eqn:E;
    try apply fixed2_two_decimals; exfalso;
    unfold is_finite in H; unfold Prim2SF in E;
    destruct (is_nan x); try discriminate H;
    destruct (is_zero x); try discriminate E;
    destruct (is_infinity x); try discriminate H;
    destruct (Z.frexp x), (shr_fexp _ _ _ _ _), (shr_m _); discriminate E.
Qed.

Section MainFacts.

Variable py_int : string -> option Z.
Variable py_float : string -> option float.

(** A run whose arguments parse and pass the range check: one call, and
    then the result on the standard output, unless the days are too large
    an [int] for a float. *)
Lemma main_in_range p a1 a2 a3 days miles receipts :
  py_int a1 = Some days -> py_float a2 = Some miles ->
  py_float a3 = Some receipts ->
  (days <? 1)%Z || (miles <? 0)%float || (receipts <? 0)%float = false ->
  main py_int py_float [p; a1; a2; a3]
  = match float_of_int days with
    | Ok d =>
        mkRun [Call days miles receipts;
               Stdout (Fmt.format_2f (Spec.compute d miles receipts)
                       ++ Fmt.newline)]
              (Exit 0)
    | Raise _ => mkRun [Call days miles receipts] (Uncaught OverflowError)
    end.
Proof.
  intros H1 H2 H3 R. unfold main. rewrite H1, H2, H3, R.
  apply orb_false_elim in R as [R _]. apply orb_false_elim in R as [R _].
  apply Z.ltb_ge in R.
  destruct (float_of_int days) as [d|e] eqn:F; cbv beta iota delta [bind].
  - pose proof (float_of_int_ge_1 _ _ R F) as Hd.
    unfold calculate_reimbursement. rewrite (arm_is_spec _ _ _ Hd).
    reflexivity.
  - now rewrite (float_of_int_error _ _ F).
Qed.

Lemma main_out_of_range p a1 a2 a3 days miles receipts :
  py_int a1 = Some days -> py_float a2 = Some miles ->
  py_float a3 = Some receipts ->
  (days <? 1)%Z || (miles <? 0)%float || (receipts <? 0)%float = true ->
  main py_int py_float [p; a1; a2; a3]
  = mkRun [Stderr range_message] (Exit 1).
Proof. intros H1 H2 H3 R. unfold main. now rewrite H1, H2, H3, R. Qed.

Lemma main_malformed p a1 a2 a3 :
  py_int a1 = None \/ py_float a2 = None \/ py_float a3 = None ->
  main py_int py_float [p; a1; a2; a3]
  = mkRun [Stderr format_message] (Exit 1).
Proof.
  intros H. unfold main, invalid_format.
  destruct (py_int a1); [|reflexivity].
  destruct (py_float a2); [|reflexivity].
  destruct (py_float a3); [|reflexivity].
  destruct H as [H|[H|H]]; discriminate H.
Qed.

Lemma main_usage argv :
  List.length argv <> 4%nat ->
  main py_int py_float argv = mkRun [Stderr usage_message] (Exit 1).
Proof.
  intros H. unfold main.
  destruct argv as [|p [|a1 [|a2 [|a3 [|a4 rest]]]]]; try reflexivity.
  now contradiction H.
Qed.

End MainFacts.

(** ** The grouping of [derive_linear_coefficients] *)

Module DeriveCoefficientsFacts.

Import DeriveCoefficients.

Lemma classify_trip_cases e :
  (zero_days e = true /\ classify_trip e = Raise ZeroDivisionError)
  \/ (zero_days e = false /\ exists c, classify_trip e = Ok (cluster_code c)).
Proof.
  rewrite classify_trip_arm.
  unfold zero_days, taken_arm, reimbursement_arm, Py.truediv.
  destruct (trip_duration_days (input e) =? 0)%float; [now left|right].
  split; [reflexivity|]. cbv beta iota delta [bind].
  destruct (_ && _ && _); [now exists LongHighReceipts|].
  destruct (_ && _); [now exists ShortLowActivity|].
  destruct (_ && _); [now exists MidHighMileage|now exists Default].
Qed.

Lemma members_cons k e data :
  members k (e :: data)
  = match classify_trip e with
    | Ok c => if (c =? k)%Z then e :: members k data else members k data
    | Raise _ => members k data
    end.
Proof.
  unfold members. simpl filter.
  destruct (classify_trip e) as [c|x]; reflexivity.
Qed.

(** The loop appends every record to the list of its number, and to no
    other. *)
Lemma group_spec data : forall a b c,
  existsb zero_days data = false ->
  group data [(0, a); (1, b); (2, c)]%Z
  = Done [(0, a ++ members 0 data); (1, b ++ members 1 data);
          (2, c ++ members 2 data)]%Z.
Proof.
  induction data as [|e data IH]; intros a b c H.
  - simpl. now rewrite !app_nil_r.
  - simpl in H. apply orb_false_elim in H as [He H].
    rewrite !members_cons. simpl group.
    destruct (classify_trip_cases e) as [[Z _]|[_ [cl E]]]; [congruence|].
    rewrite E.
    destruct cl; simpl; rewrite (IH _ _ _ H), <- ?app_assoc; reflexivity.
Qed.

Lemma group_zero_days data : forall a b c,
  existsb zero_days data = true ->
  group data [(0, a); (1, b); (2, c)]%Z = Failed (Exn ZeroDivisionError).
Proof.
  induction data as [|e data IH]; intros a b c H; [discriminate H|].
  simpl in H. simpl group.
  destruct (classify_trip_cases e) as [[_ E]|[Z [cl E]]]; rewrite E;
    [reflexivity|].
  rewrite Z in H. simpl in H.
  destruct cl; simpl; now rewrite (IH _ _ _ H).
Qed.

Lemma members_In k e data :
  In e (members k data) <-> In e data /\ classify_trip e = Ok k.
Proof.
  unfold members. rewrite filter_In.
  destruct (classify_trip e) as [c|x].
  - split; intros [H1 H2]; (split; [exact H1|]).
    + apply Z.eqb_eq in H2. now subst.
    + injection H2 as ->. apply Z.eqb_refl.
  - split; intros [H1 H2]; discriminate H2.
Qed.

Lemma members_lengths data :
  existsb zero_days data = false ->
  (List.length (members 0 data) + List.length (members 1 data)
   + List.length (members 2 data) + List.length (members (-1) data)
   = List.length data)%nat.
Proof.
  induction data as [|e data IH]; intros H; [reflexivity|].
  simpl in H. apply orb_false_elim in H as [He H].
  rewrite !members_cons.
  destruct (classify_trip_cases e) as [[Z _]|[_ [cl E]]]; [congruence|].
  rewrite E. specialize (IH H).
  destruct cl; simpl; lia.
Qed.

Lemma design_fold cluster_data : forall A y,
  fold_left
    (fun Ay entry =>
       (fst Ay ++ [row entry], snd Ay ++ [expected_output entry]))
    cluster_data (A, y)
  = (A ++ map row cluster_data, y ++ map expected_output cluster_data).
Proof.
  induction cluster_data as [|e l IH]; intros A y; simpl.
  - now rewrite !app_nil_r.
  - rewrite IH. simpl. now rewrite <- !app_assoc.
Qed.

Lemma design_map cluster_data :
  design cluster_data
  = (map row cluster_data, map expected_output cluster_data).
Proof. unfold design. now rewrite design_fold. Qed.

Lemma set_item_In {V : Type} key (value : V) d k v :
  ~ In key (map fst d) ->
  In (k, v) (set_item key value d) <-> In (k, v) d \/ (k, v) = (key, value).
Proof.
  induction d as [|[k0 v0] d IH]; simpl; intros H.
  - intuition congruence.
  - destruct (Z.eqb_spec k0 key) as [->|N]; [tauto|].
    simpl. rewrite IH by tauto. tauto.
Qed.

Lemma set_item_keys {V : Type} key (value : V) d :
  ~ In key (map fst d) -> map fst (set_item key value d) = map fst d ++ [key].
Proof.
  induction d as [|[k0 v0] d IH]; simpl; intros H; [reflexivity|].
  destruct (Z.eqb_spec k0 key) as [->|N]; [tauto|].
  simpl. rewrite IH by tauto. reflexivity.
Qed.

Section LstsqFacts.

Variable lstsq :
  list (list float) -> list float -> string + (list float * list float * Z).

Lemma fit_clusters_spec clusters : forall st st',
  NoDup (map fst clusters) ->
  (forall k, In k (map fst clusters) -> ~ In k (map fst (coefficients st))) ->
  fit_clusters lstsq clusters st = Done st' ->
  (forall k coef r y,
     In (k, (coef, r, y)) (coefficients st')
     <-> In (k, (coef, r, y)) (coefficients st)
         \/ exists cd, In (k, cd) clusters /\ fitted lstsq cd coef r y)
  /\ (forall k cd coef r y,
        In (k, cd) clusters -> fitted lstsq cd coef r y ->
        In (samples_line cd) (printed st'))
  /\ incl (printed st) (printed st').
Proof.
  induction clusters as [|[c cd] rest IH]; intros st st' ND Fresh H.
  - injection H as <-. split; [|split].
    + intros. split; [auto|]. intros [?|(? & [] & _)]; auto.
    + intros ? ? ? ? ? [].
    + apply incl_refl.
  - simpl in ND. apply NoDup_cons_iff in ND as [Nc ND].
    assert (Fc : ~ In c (map fst (coefficients st)))
      by (apply Fresh; now left).
    assert (Fr : forall k, In k (map fst rest) ->
                           ~ In k (map fst (coefficients st)))
      by (intros k Hk; apply Fresh; now right).
    assert (Other : forall k cd', In (k, cd') rest -> k <> c)
      by (intros k cd' Hin ->; apply Nc;
          now apply (in_map fst) in Hin).
    cbn [fit_clusters] in H.
    destruct cd as [|e cd0].
    { destruct (IH _ _ ND Fr H) as (I1 & I2 & I3).
      split; [|split; [|exact I3]].
      - intros k coef r y. rewrite I1. split; (intros [?|(cd' & Hin & F)]; [now left|right]).
        + exists cd'. split; [now right|exact F].
        + destruct Hin as [[= <- <-]|Hin]; [now destruct F|].
          exists cd'. now split.
      - intros k cd' coef r y [[= <- <-]|Hin] F; [now destruct F|].
        now apply (I2 k cd' coef r y). }
    rewrite design_map in H.
    destruct (lstsq (map row (e :: cd0)) (map expected_output (e :: cd0)))
      as [message|[[coef0 residuals] rank]] eqn:L.
    { destruct (IH (mkState (coefficients st) _) _ ND Fr H) as (I1 & I2 & I3).
      cbn [coefficients printed] in I1, I3.
      split; [|split].
      - intros k coef r y. rewrite I1. split; (intros [?|(cd' & Hin & F)]; [now left|right]).
        + exists cd'. split; [now right|exact F].
        + destruct Hin as [[= <- <-]|Hin].
          * destruct F as (_ & -> & ? & ? & F). congruence.
          * exists cd'. now split.
      - intros k cd' coef r y [[= <- <-]|Hin] F.
        + destruct F as (_ & -> & ? & ? & F). congruence.
        + now apply (I2 k cd' coef r y).
      - intros s Hs. apply I3. apply in_or_app. now left. }
    destruct residuals as [|r0 residuals]; [discriminate H|].
    assert (Fr' : forall k, In k (map fst rest) ->
              ~ In k (map fst (set_item c (coef0, r0, map expected_output (e :: cd0))
                                 (coefficients st)))).
    { intros k Hk. rewrite set_item_keys by exact Fc.
      intros Hin. apply in_app_or in Hin as [Hin|[<-|[]]].
      - now apply (Fr k).
      - now apply Nc. }
    destruct (IH (mkState (set_item c _ (coefficients st)) _) _ ND Fr' H)
      as (I1 & I2 & I3).
    cbn [coefficients printed] in I1, I3.
    split; [|split].
    + intros k coef r y. rewrite I1, set_item_In by exact Fc.
      split.
      * intros [[?|E]|(cd' & Hin & F)].
        -- now left.
        -- injection E as -> -> -> ->. right. exists (e :: cd0).
           split; [now left|]. split; [discriminate|]. split; [reflexivity|].
           now exists residuals, rank.
        -- right. exists cd'. split; [now right|exact F].
      * intros [?|(cd' & [[= <- <-]|Hin] & F)].
        -- now left; left.
        -- left; right. destruct F as (_ & -> & ? & ? & F).
           rewrite L in F. now injection F as <- <- _ _.
        -- right. exists cd'. now split.
    + intros k cd' coef r y [[= <- <-]|Hin] F.
      * apply I3. apply in_or_app. right. right. now left.
      * now apply (I2 k cd' coef r y).
    + intros s Hs. apply I3. apply in_or_app. now left.
Qed.

Lemma fit_clusters_failure clusters : forall st e,
  fit_clusters lstsq clusters st = Failed e -> e = IndexError.
Proof.
  induction clusters as [|[c cd] rest IH]; intros st e H; [discriminate H|].
  simpl in H. destruct cd as [|e0 cd0]; [now apply IH in H|].
  destruct (design (e0 :: cd0)) as [A y].
  destruct (lstsq A y) as [message|[[coef residuals] rank]];
    [now apply IH in H|].
  destruct residuals; [now injection H as <-|now apply IH in H].
Qed.

End LstsqFacts.

End DeriveCoefficientsFacts.

(** ** What [derive_linear_coefficients] groups, fits and reports *)

(** X3: when [derive_linear_coefficients] returns, its dictionary has an
    entry for a cluster exactly when the cluster is 0, 1 or 2, has
    records, and the regression on the rows and outputs of these records
    returned coefficients and a residual; the entry holds these and the
    outputs; and the number of samples reported for the cluster is the
    number of its records. *)
Theorem derive_result
    (lstsq : list (list float) -> list float
             -> string + (list float * list float * Z))
    (data : list entry) (st : DeriveCoefficients.state) :
  DeriveCoefficients.derive_linear_coefficients lstsq data
  = DeriveCoefficients.Done st ->
  forall k coef r y,
    (In (k, (coef, r, y)) (DeriveCoefficients.coefficients st)
     <-> (k = 0 \/ k = 1 \/ k = 2)%Z
         /\ DeriveCoefficients.fitted lstsq
              (DeriveCoefficients.members k data) coef r y)
    /\ (In (k, (coef, r, y)) (DeriveCoefficients.coefficients st) ->
        In (DeriveCoefficients.samples_line
              (DeriveCoefficients.members k data))
           (DeriveCoefficients.printed st)).
Proof.
  unfold DeriveCoefficients.derive_linear_coefficients. intros H.
  destruct (existsb DeriveCoefficients.zero_days data) eqn:Z.
  { rewrite DeriveCoefficientsFacts.group_zero_days in H by exact Z.
    discriminate H. }
  rewrite DeriveCoefficientsFacts.group_spec in H by exact Z.
  cbn [app] in H.
  apply DeriveCoefficientsFacts.fit_clusters_spec in H
    as (I1 & I2 & _).
  2:{ cbn [map fst]. repeat constructor; cbn [In]; intuition discriminate. }
  2:{ intros k _ []. }
  intros k coef r y.
  assert (E : In (k, (coef, r, y)) (DeriveCoefficients.coefficients st)
              <-> (k = 0 \/ k = 1 \/ k = 2)%Z
                  /\ DeriveCoefficients.fitted lstsq
                       (DeriveCoefficients.members k data) coef r y).
  { rewrite I1. cbn [DeriveCoefficients.coefficients In]. split.
    - intros [[]|[cd [[E|[E|[E|[]]]] F]]]; injection E as <- <-; auto.
    - intros ([-> | [-> | ->]] & F); right; eexists; (split; [|exact F]);
        cbn [In]; auto. }
  split; [exact E|].
  intros Hin. apply E in Hin as ([-> | [-> | ->]] & F);
    eapply I2; try exact F; cbn [In]; auto.
Qed.

Lemma derive_result_witness :
  exists st,
    DeriveCoefficients.derive_linear_coefficients
      DeriveCoefficients.example_lstsq DeriveCoefficients.example_data
    = DeriveCoefficients.Done st
    /\ forall k coef r y,
         (In (k, (coef, r, y)) (DeriveCoefficients.coefficients st)
          <-> (k = 0 \/ k = 1 \/ k = 2)%Z
              /\ DeriveCoefficients.fitted DeriveCoefficients.example_lstsq
                   (DeriveCoefficients.members k
                      DeriveCoefficients.example_data) coef r y)
         /\ (In (k, (coef, r, y)) (DeriveCoefficients.coefficients st) ->
             In (DeriveCoefficients.samples_line
                   (DeriveCoefficients.members k
                      DeriveCoefficients.example_data))
                (DeriveCoefficients.printed st)).
Proof.
  eexists. split; [vm_compute; reflexivity|].
  apply (derive_result DeriveCoefficients.example_lstsq
           DeriveCoefficients.example_data).
  vm_compute; reflexivity.
Defined.

(** X5: the loop that prepares a regression yields one row
    [days, miles, receipts] for each record and the expected outputs, both
    in the order of the records; [np.linalg.solve] is called on that
    system. *)
Theorem system_of_records (R : Type)
    (solve : list (list float) -> list float -> R) (data : list entry) :
  DeriveCoefficients.design data
  = (map DeriveCoefficients.row data, map expected_output data)
  /\ ExactFit.derive_linear_coefficients R solve data
     = solve (map DeriveCoefficients.row data) (map expected_output data)
  /\ List.length (fst (DeriveCoefficients.design data)) = List.length data
  /\ List.length (snd (DeriveCoefficients.design data)) = List.length data
  /\ forall r, In r (fst (DeriveCoefficients.design data)) ->
               List.length r = 3%nat.
Proof.
  pose proof (DeriveCoefficientsFacts.design_map data) as D.
  split; [exact D|]. split.
  - unfold ExactFit.derive_linear_coefficients.
    now rewrite DeriveCoefficientsFacts.design_fold.
  - rewrite D. cbn [fst snd]. rewrite !length_map.
    repeat split. intros r Hr. apply in_map_iff in Hr as (e & <- & _).
    reflexivity.
Qed.

(** ** More on the command line *)

Lemma shl_align_exponent p :
  (snd (shl_align p 0 (fexp prec emax (Z.pos (digits2_pos p) + 0)))
   + (Z.log2 (Z.pos (fst (shl_align p 0
                 (fexp prec emax (Z.pos (digits2_pos p) + 0))))) - 52)
   = Z.log2 (Z.pos p) - 52)%Z.
Proof.
  pose proof (Z.log2_nonneg (Z.pos p)) as L.
  assert (F : fexp prec emax (Z.pos (digits2_pos p) + 0)
              = (Z.log2 (Z.pos p) - 52)%Z)
    by (rewrite digits2_log2; unfold fexp, SpecFloat.emin, prec, emax; lia).
  rewrite F. unfold shl_align.
  destruct (Z.log2 (Z.pos p) - 52 - 0)%Z as [|d|d] eqn:E;
    cbv beta iota delta [fst snd]; try lia.
  rewrite iter_xO, Z.log2_mul_pow2 by lia. lia.
Qed.

(** Which positive [int]s have a float: those below [2^1023] do, those
    from [2^1024] on do not. *)
Lemma float_of_int_range z :
  (1 <= z)%Z ->
  (Z.log2 z < 1023 -> exists d, float_of_int z = Ok d)%Z
  /\ (1024 <= Z.log2 z -> float_of_int z = Raise OverflowError)%Z.
Proof.
  intros Hz. destruct z as [|p|p]; try lia.
  unfold float_of_int, binary_normalize, binary_round.
  destruct (shl_align_normal p) as [A B].
  pose proof (shl_align_exponent p) as X.
  destruct (shl_align p 0 _) as [mz ez].
  cbv beta iota delta [fst snd] in A, B, X.
  destruct (binary_round_aux_normal false mz ez loc_Exact A ltac:(lia))
    as [[E I]|(m & e & E & L & Be & Bm)]; rewrite E.
  - split; [|reflexivity].
    unfold emax, prec in I. intros Hs. exfalso. lia.
  - split; [intros _; eexists; reflexivity|].
    unfold emax, prec in Bm. intros Hs. exfalso. lia.
Qed.

Lemma is_nan_Prim2SF x : is_nan x = true <-> Prim2SF x = S754_nan.
Proof.
  unfold Prim2SF. destruct (is_nan x); [tauto|].
  split; [discriminate|].
  destruct (is_zero x); [discriminate|].
  destruct (is_infinity x); [discriminate|].
  destruct (Z.frexp x), (shr_fexp _ _ _ _ _), (shr_m _); discriminate.
Qed.

Lemma ltb_nan x y : is_nan x = true -> (x <? y)%float = false.
Proof.
  intros H. apply is_nan_Prim2SF in H. rewrite ltb_spec, H. reflexivity.
Qed.

Lemma SFmul_nan x : SFmul prec emax x S754_nan = S754_nan.
Proof. destruct x; reflexivity. Qed.

Lemma SFadd_nan_r x : SFadd prec emax x S754_nan = S754_nan.
Proof. destruct x; reflexivity. Qed.

(** A NaN among the miles or the receipts makes every formula NaN. *)
Lemma formula_nan c days miles receipts :
  is_nan miles = true \/ is_nan receipts = true ->
  is_nan (Spec.formula c days miles receipts) = true.
Proof.
  intros H. apply is_nan_Prim2SF.
  assert (G : forall c1 c2 c3,
            Prim2SF (c1 * days + c2 * miles + c3 * receipts)%float = S754_nan).
  { intros c1 c2 c3. rewrite !add_spec, !mul_spec.
    destruct H as [H|H]; apply is_nan_Prim2SF in H; rewrite H.
    - now rewrite SFmul_nan, SFadd_nan_r.
    - now rewrite SFmul_nan, SFadd_nan_r. }
  destruct c; apply G.
Qed.

Lemma format_2f_nan x :
  is_nan x = true -> Fmt.format_2f (Py.round2 x) = "nan"%string.
Proof.
  intros H. apply is_nan_Prim2SF in H.
  unfold Py.round2. rewrite H. unfold Fmt.format_2f. now rewrite H.
Qed.

(** The five ways a run can go. *)
Lemma main_shapes py_int py_float argv :
  main py_int py_float argv = mkRun [Stderr usage_message] (Exit 1)
  \/ main py_int py_float argv = mkRun [Stderr format_message] (Exit 1)
  \/ main py_int py_float argv = mkRun [Stderr range_message] (Exit 1)
  \/ (exists days miles receipts,
        main py_int py_float argv
        = mkRun [Call days miles receipts] (Uncaught OverflowError))
  \/ (exists days miles receipts text,
        main py_int py_float argv
        = mkRun [Call days miles receipts; Stdout text] (Exit 0)).
Proof.
  destruct (Nat.eq_dec (List.length argv) 4) as [L|L];
    [|left; now apply main_usage].
  destruct argv as [|p [|a1 [|a2 [|a3 [|a4 rest]]]]]; try discriminate L.
  destruct (py_int a1) as [days|] eqn:H1;
    [|right; left; apply main_malformed; auto].
  destruct (py_float a2) as [miles|] eqn:H2;
    [|right; left; apply main_malformed; auto].
  destruct (py_float a3) as [receipts|] eqn:H3;
    [|right; left; apply main_malformed; auto].
  destruct ((days <? 1)%Z || (miles <? 0)%float || (receipts <? 0)%float)
    eqn:R.
  - right; right; left. now apply main_out_of_range with days miles receipts.
  - right; right; right.
    rewrite (main_in_range _ _ p _ _ _ _ _ _ H1 H2 H3 R).
    destruct (float_of_int days); [right|left]; eauto.
Qed.

(** X7: a NaN among the miles or the receipts passes the range check:
    when the days are a positive [int] that has a float, the run calls
    [calculate_reimbursement], prints [nan] and exits with 0. *)
Theorem nan_is_accepted (py_int : string -> option Z)
    (py_float : string -> option float) p a1 a2 a3 days miles receipts d :
  py_int a1 = Some days -> py_float a2 = Some miles ->
  py_float a3 = Some receipts ->
  (1 <= days)%Z -> float_of_int days = Ok d ->
  (is_nan miles = true /\ (receipts <? 0)%float = false)
  \/ (is_nan receipts = true /\ (miles <? 0)%float = false) ->
  calculate_reimbursement d miles receipts
  = Ok (Py.round2 (Spec.formula (Spec.classify d miles receipts)
                     d miles receipts))
  /\ is_nan (Spec.formula (Spec.classify d miles receipts) d miles receipts)
     = true
  /\ main py_int py_float [p; a1; a2; a3]
     = mkRun [Call days miles receipts; Stdout ("nan" ++ Fmt.newline)%string]
             (Exit 0).
Proof.
  intros H1 H2 H3 Hd F N.
  pose proof (float_of_int_ge_1 _ _ Hd F) as G.
  assert (R : (days <? 1)%Z || (miles <? 0)%float || (receipts <? 0)%float
              = false).
  { apply Z.ltb_ge in Hd. rewrite Hd.
    destruct N as [[N ->]|[N ->]]; now rewrite (ltb_nan _ _ N). }
  assert (Nf : is_nan (Spec.formula (Spec.classify d miles receipts)
                         d miles receipts) = true)
    by (apply formula_nan; tauto).
  split; [|split; [exact Nf|]].
  - unfold calculate_reimbursement. now rewrite (arm_is_spec _ _ _ G).
  - rewrite (main_in_range _ _ p _ _ _ _ _ _ H1 H2 H3 R), F.
    unfold Spec.compute. now rewrite (format_2f_nan _ Nf).
Qed.

Lemma nan_is_accepted_witness :
  calculate_reimbursement 3 nan 10
  = Ok (Py.round2 (Spec.formula (Spec.classify 3 nan 10) 3 nan 10))
  /\ is_nan (Spec.formula (Spec.classify 3 nan 10) 3 nan 10) = true
  /\ main (fun _ => Some 3%Z)
          (fun s => if String.eqb s "nan" then Some nan else Some 10%float)
          ["calculate_reimbursement.py"; "3"; "nan"; "10"]%string
     = mkRun [Call 3 nan 10; Stdout ("nan" ++ Fmt.newline)%string] (Exit 0).
Proof.
  apply (nan_is_accepted (fun _ => Some 3%Z)
           (fun s => if String.eqb s "nan" then Some nan else Some 10%float)
           "calculate_reimbursement.py" "3" "nan" "10" 3%Z nan 10%float
           3%float)%string.
  - reflexivity.
  - reflexivity.
  - reflexivity.
  - lia.
  - vm_compute; reflexivity.
  - left. split; vm_compute; reflexivity.
Defined.

(** X8: which days get through.  When the arguments parse and pass the
    range check, a run with days below [2^1023] prints a result and exits
    with 0; a run with days of [2^1024] or more ends in an uncaught
    [OverflowError], raised by the division in [calculate_reimbursement],
    with nothing printed. *)
Theorem days_that_overflow (py_int : string -> option Z)
    (py_float : string -> option float) p a1 a2 a3 days miles receipts :
  py_int a1 = Some days -> py_float a2 = Some miles ->
  py_float a3 = Some receipts ->
  (days <? 1)%Z || (miles <? 0)%float || (receipts <? 0)%float = false ->
  ((days < 2 ^ 1023)%Z ->
   exists d,
     float_of_int days = Ok d
     /\ main py_int py_float [p; a1; a2; a3]
        = mkRun [Call days miles receipts;
                 Stdout (Fmt.format_2f (Spec.compute d miles receipts)
                         ++ Fmt.newline)%string]
                (Exit 0))
  /\ ((2 ^ 1024 <= days)%Z ->
      float_of_int days = Raise OverflowError
      /\ main py_int py_float [p; a1; a2; a3]
         = mkRun [Call days miles receipts] (Uncaught OverflowError)).
Proof.
  intros H1 H2 H3 R.
  rewrite (main_in_range _ _ p _ _ _ _ _ _ H1 H2 H3 R).
  apply orb_false_elim in R as [R _]. apply orb_false_elim in R as [R _].
  apply Z.ltb_ge in R.
  destruct (float_of_int_range days R) as [S B].
  split.
  - intros L. apply Z.log2_lt_pow2 in L; [|lia].
    destruct (S L) as [d E]. exists d. now rewrite E.
  - intros L. apply Z.log2_le_pow2 in L; [|lia].
    now rewrite (B L).
Qed.

Lemma days_that_overflow_witness :
  ((8 < 2 ^ 1023)%Z ->
   exists d,
     float_of_int 8 = Ok d
     /\ main example_int example_float
          ["calculate_reimbursement.py"; "8"; "450"; "300"]%string
        = mkRun [Call 8 450 300;
                 Stdout (Fmt.format_2f (Spec.compute d 450 300)
                         ++ Fmt.newline)%string]
                (Exit 0))
  /\ ((2 ^ 1024 <= 8)%Z ->
      float_of_int 8 = Raise OverflowError
      /\ main example_int example_float
           ["calculate_reimbursement.py"; "8"; "450"; "300"]%string
         = mkRun [Call 8 450 300] (Uncaught OverflowError)).
Proof.
  apply (days_that_overflow example_int example_float
           "calculate_reimbursement.py" "8" "450" "300" 8%Z 450%float
           300%float)%string; reflexivity.
Defined.

(** ** The order of the floats *)

Ltac cmp_cases :=
  rewrite ?compare_cont_Z;
  repeat (match goal with
          | |- context [Z.compare ?a ?b] => destruct (Z.compare_spec a b)
          end; cbv beta iota delta [CompOpp]).

Lemma SFleb_ltb_trans x y z :
  SFleb x y = true -> SFltb y z = true -> SFltb x z = true.
Proof.
  destruct x as [[|]|[|]| |[|] mx ex], y as [[|]|[|]| |[|] my ey],
    z as [[|]|[|]| |[|] mz ez];
    cbv [SFleb SFltb SFcompare]; try (intros; reflexivity);
    try (intros; discriminate);
    cmp_cases; intros; try reflexivity; try discriminate; lia.
Qed.

Lemma SFltb_leb_trans x y z :
  SFltb x y = true -> SFleb y z = true -> SFltb x z = true.
Proof.
  destruct x as [[|]|[|]| |[|] mx ex], y as [[|]|[|]| |[|] my ey],
    z as [[|]|[|]| |[|] mz ez];
    cbv [SFleb SFltb SFcompare]; try (intros; reflexivity);
    try (intros; discriminate);
    cmp_cases; intros; try reflexivity; try discriminate; lia.
Qed.

Lemma leb_ltb_trans x y z :
  (x <=? y)%float = true -> (y <? z)%float = true -> (x <? z)%float = true.
Proof. rewrite !leb_spec, !ltb_spec. apply SFleb_ltb_trans. Qed.

Lemma ltb_leb_trans x y z :
  (x <? y)%float = true -> (y <=? z)%float = true -> (x <? z)%float = true.
Proof. rewrite !leb_spec, !ltb_spec. apply SFltb_leb_trans. Qed.

Lemma gt_0_not_zero x : (0 <? x)%float = true -> (x =? 0)%float = false.
Proof. by_spec x. Qed.

Lemma is_nan_eqb x y : is_nan x = true -> (x =? y)%float = false.
Proof.
  intros H. apply is_nan_Prim2SF in H. rewrite eqb_spec, H. reflexivity.
Qed.

Lemma lt_0_lt_100 d : (d <? 0)%float = true -> (d <? 100)%float = true.
Proof. by_spec d. Qed.

Lemma lt_0_not_zero d : (d <? 0)%float = true -> (d =? 0)%float = false.
Proof. by_spec d. Qed.

(** Two floats that compare equal to a number other than zero are the
    same float. *)
Lemma eqb_finite_eq d c :
  match Prim2SF c with S754_finite _ _ _ => True | _ => False end ->
  (d =? c)%float = true -> d = c.
Proof.
  intros Hc. rewrite eqb_spec. intros H.
  rewrite <- (SF2Prim_Prim2SF d), <- (SF2Prim_Prim2SF c). f_equal.
  destruct (Prim2SF c) as [s|s| |s m e]; try contradiction.
  destruct (Prim2SF d) as [[|]|[|]| |s' m' e']; destruct s;
    try discriminate H;
    destruct s'; try discriminate H;
    revert H; cbv [SFeqb SFcompare]; rewrite compare_cont_Z;
    destruct (Z.compare_spec e' e); try discriminate;
    destruct (Z.compare_spec (Z.pos m') (Z.pos m)); try discriminate;
    intros _; subst; f_equal; congruence.
Qed.

(** ** The tier functions *)

(** X9: the receipt multiplier steps down as the receipts grow: for
    receipts above zero it never increases.  It jumps at zero, where it is
    1 while every positive amount below 100 gets 15; negative receipts get
    15 too, and a NaN gets 0.8. *)
Theorem receipt_multiplier_steps :
  (forall r1 r2,
     (0 <? r1)%float = true -> (r1 <=? r2)%float = true ->
     (Tiers.calculate_receipt_multiplier r2
      <=? Tiers.calculate_receipt_multiplier r1)%float = true)
  /\ Tiers.calculate_receipt_multiplier 0 = 1%float
  /\ (forall r, (0 <? r)%float = true -> (r <? 100)%float = true ->
                Tiers.calculate_receipt_multiplier r = 15%float)
  /\ (forall r, (r <? 0)%float = true ->
                Tiers.calculate_receipt_multiplier r = 15%float)
  /\ (forall r, is_nan r = true ->
                Tiers.calculate_receipt_multiplier r = 0.8%float).
Proof.
  split; [|split; [|split; [|split]]].
  - intros r1 r2 P L. unfold Tiers.calculate_receipt_multiplier.
    rewrite (gt_0_not_zero _ P),
      (gt_0_not_zero _ (ltb_leb_trans _ _ _ P L)).
    assert (T : forall c, (r2 <? c)%float = true -> (r1 <? c)%float = true)
      by (intros c; now apply leb_ltb_trans).
    destruct (r2 <? 100)%float eqn:A;
      [rewrite (T _ A); vm_compute; reflexivity|].
    destruct (r2 <? 500)%float eqn:B;
      [rewrite (T _ B); destruct (r1 <? 100)%float; vm_compute; reflexivity|].
    destruct (r2 <? 1000)%float eqn:C;
      [rewrite (T _ C); destruct (r1 <? 100)%float, (r1 <? 500)%float;
       vm_compute; reflexivity|].
    destruct (r1 <? 100)%float, (r1 <? 500)%float, (r1 <? 1000)%float;
      vm_compute; reflexivity.
  - vm_compute; reflexivity.
  - intros r P L. unfold Tiers.calculate_receipt_multiplier.
    now rewrite (gt_0_not_zero _ P), L.
  - intros r N. unfold Tiers.calculate_receipt_multiplier.
    now rewrite (lt_0_not_zero _ N), (lt_0_lt_100 _ N).
  - intros r N. unfold Tiers.calculate_receipt_multiplier.
    now rewrite (is_nan_eqb _ _ N), !(ltb_nan _ _ N).
Qed.

(** X10: the branches of [calculate_base_per_diem] for 1, 2, 3 and 4 days
    are special cases of the rate of 100 a day: the function is 550 at 5
    days (50 more than that rate gives), 100 a day up to 10 days, and 110 a
    day beyond, a NaN included. *)
Theorem per_diem_special_cases :
  (forall days,
     Tiers.calculate_base_per_diem days
     = if (days =? 5)%float then 550%float
       else if (days <=? 10)%float then (100 * days)%float
       else (110 * days)%float)
  /\ (100 * 5 = 500)%float
  /\ (forall days, is_nan days = true ->
        is_nan (Tiers.calculate_base_per_diem days) = true).
Proof.
  split; [|split].
  - intros days. unfold Tiers.calculate_base_per_diem.
    destruct (days =? 1)%float eqn:E1;
      [apply eqb_finite_eq in E1; [subst; vm_compute; reflexivity|exact I]|].
    destruct (days =? 2)%float eqn:E2;
      [apply eqb_finite_eq in E2; [subst; vm_compute; reflexivity|exact I]|].
    destruct (days =? 3)%float eqn:E3;
      [apply eqb_finite_eq in E3; [subst; vm_compute; reflexivity|exact I]|].
    destruct (days =? 4)%float eqn:E4;
      [apply eqb_finite_eq in E4; [subst; vm_compute; reflexivity|exact I]|].
    reflexivity.
  - vm_compute; reflexivity.
  - intros days N. unfold Tiers.calculate_base_per_diem.
    rewrite !(is_nan_eqb _ _ N).
    assert (L : (days <=? 10)%float = false)
      by (apply is_nan_Prim2SF in N; rewrite leb_spec, N; reflexivity).
    rewrite L. apply is_nan_Prim2SF. rewrite mul_spec.
    apply is_nan_Prim2SF in N. rewrite N. apply SFmul_nan.
Qed.

Lemma shl_align_value m e e' :
  (e' <= e)%Z ->
  Z.pos (fst (shl_align m e e')) = (Z.pos m * 2 ^ (e - e'))%Z.
Proof.
  intros H. unfold shl_align.
  destruct (e' - e)%Z as [|d|d] eqn:E; cbv beta iota delta [fst]; try lia.
  - replace (e - e')%Z with 0%Z by lia. simpl. lia.
  - rewrite iter_xO. f_equal. f_equal. lia.
Qed.

Lemma canonical_bounds m e :
  canonical_mantissa prec emax m e = true ->
  (-1074 <= e)%Z /\ (Z.log2 (Z.pos m) <= 52)%Z
  /\ (-1074 < e -> Z.log2 (Z.pos m) = 52)%Z.
Proof.
  unfold canonical_mantissa. intros H. apply Z.eqb_eq in H.
  rewrite digits2_log2 in H.
  unfold fexp, SpecFloat.emin, prec, emax in H. lia.
Qed.

(** A number minus a smaller positive number is not negative. *)
Lemma sub_nonneg_of_lt x y :
  (0 <? y)%float = true -> (y <? x)%float = true ->
  (0 <=? x - y)%float = true.
Proof.
  rewrite leb_0_nonneg, sub_spec, !ltb_spec. sf_const 0%float.
  pose proof (Prim2SF_valid x) as Vx. pose proof (Prim2SF_valid y) as Vy.
  destruct (Prim2SF x) as [[|]|[|]| |[|] mx ex],
           (Prim2SF y) as [[|]|[|]| |[|] my ey];
    cbv [SFltb SFcompare]; try (intros; discriminate);
    try (intros; reflexivity).
  intros _ L.
  unfold SpecFloat.valid_binary, bounded in Vx, Vy.
  apply andb_prop in Vx as [Cx _]. apply andb_prop in Vy as [Cy _].
  apply canonical_bounds in Cx as (Ex & Lx & Nx).
  apply canonical_bounds in Cy as (Ey & Ly & Ny).
  unfold SF64sub, SFsub, cond_Zopp. cbv zeta.
  rewrite !shl_align_value by lia.
  assert (D : (0 < Z.pos mx * 2 ^ (ex - Z.min ex ey)
                   - Z.pos my * 2 ^ (ey - Z.min ex ey))%Z).
  { revert L. rewrite compare_cont_Z.
    destruct (Z.compare_spec ey ex) as [E|E|E]; try discriminate.
    - subst. rewrite Z.min_id, Z.sub_diag. simpl (2 ^ 0)%Z.
      destruct (Z.compare_spec (Z.pos my) (Z.pos mx)); try discriminate.
      lia.
    - intros _. rewrite Z.min_r by lia. rewrite Z.sub_diag, Z.mul_1_r.
      assert (Hx : (2 ^ 52 <= Z.pos mx)%Z)
        by (apply Z.log2_le_pow2; lia).
      assert (Hy : (Z.pos my < 2 ^ 53)%Z)
        by (apply Z.log2_lt_pow2; lia).
      assert (P : (2 ^ 1 <= 2 ^ (ex - ey))%Z)
        by (apply Z.pow_le_mono_r; lia).
      change (2 ^ 1)%Z with 2%Z in P.
      change (2 ^ 53)%Z with (2 * 2 ^ 52)%Z in Hy.
      nia. }
  destruct (_ - _)%Z as [|p|p]; try lia.
  apply sign_is_nonneg. unfold binary_normalize. apply binary_round_sign.
Qed.

Lemma SFmul_nonneg_r x my ey :
  nonneg_sf x = true ->
  nonneg_sf (SFmul prec emax x (S754_finite false my ey)) = true.
Proof.
  destruct x as [[|]|[|]| |[|] mx ex]; simpl; intros H; try easy.
  apply sign_is_nonneg, binary_round_aux_sign. lia.
Qed.

Lemma mul_nonneg_r x c :
  pos_finite c = true -> (0 <=? x)%float = true -> (0 <=? x * c)%float = true.
Proof.
  rewrite !leb_0_nonneg, mul_spec. unfold pos_finite.
  destruct (Prim2SF c) as [s|s| |[|] m e]; try discriminate.
  intros _. apply SFmul_nonneg_r.
Qed.

Lemma not_le_gt c d :
  (0 <? c)%float = true -> (0 <=? d)%float = true ->
  (d <=? c)%float = false -> (c <? d)%float = true.
Proof.
  rewrite !leb_spec, !ltb_spec. sf_const 0%float.
  destruct (Prim2SF d) as [[|]|[|]| |[|] md ed],
           (Prim2SF c) as [[|]|[|]| |[|] mc ec];
    cbv [SFleb SFltb SFcompare]; try (intros; discriminate);
    try (intros; reflexivity).
  cmp_cases; intros; try reflexivity; try discriminate; lia.
Qed.

(** X11: the mileage tiers join without a jump: at 100, 500 and 1000
    miles the formula of the tier that ends there and the formula of the
    tier that starts there give the same amount (4000, 4800, 5550).  For
    miles that are not negative the amount is not negative, and a NaN gives
    a NaN. *)
Theorem mileage_tiers :
  (Tiers.calculate_mileage_reimbursement 100 = 4000
   /\ 4000.0 + (100 - 100) * 2.0 = 4000)%float
  /\ (Tiers.calculate_mileage_reimbursement 500 = 4800
      /\ 4800.0 + (500 - 500) * 1.5 = 4800)%float
  /\ (Tiers.calculate_mileage_reimbursement 1000 = 5550
      /\ 5550.0 + (1000 - 1000) * 1.0 = 5550)%float
  /\ (forall miles,
        (0 <=? miles)%float = true ->
        (0 <=? Tiers.calculate_mileage_reimbursement miles)%float = true)
  /\ (forall miles, is_nan miles = true ->
        is_nan (Tiers.calculate_mileage_reimbursement miles) = true).
Proof.
  split; [|split; [|split; [|split]]];
    try (split; vm_compute; reflexivity).
  - intros miles P. unfold Tiers.calculate_mileage_reimbursement.
    assert (S : forall c, (0 <? c)%float = true ->
              (miles <=? c)%float = false ->
              (0 <=? miles - c)%float = true)
      by (intros c Pc Hc; apply sub_nonneg_of_lt;
          [exact Pc|now apply not_le_gt]).
    destruct (miles <=? 100)%float eqn:A.
    { apply mul_nonneg_r; [vm_compute; reflexivity|exact P]. }
    destruct (miles <=? 500)%float eqn:B.
    { apply add_nonneg; [vm_compute; reflexivity|].
      apply mul_nonneg_r; [vm_compute; reflexivity|].
      apply S; [vm_compute; reflexivity|exact A]. }
    destruct (miles <=? 1000)%float eqn:C.
    { apply add_nonneg; [vm_compute; reflexivity|].
      apply mul_nonneg_r; [vm_compute; reflexivity|].
      apply S; [vm_compute; reflexivity|exact B]. }
    apply add_nonneg; [vm_compute; reflexivity|].
    apply mul_nonneg_r; [vm_compute; reflexivity|].
    apply S; [vm_compute; reflexivity|exact C].
  - intros miles N. unfold Tiers.calculate_mileage_reimbursement.
    apply is_nan_Prim2SF in N.
    assert (L : forall c, (miles <=? c)%float = false)
      by (intros c; rewrite leb_spec, N; reflexivity).
    rewrite !L. apply is_nan_Prim2SF.
    rewrite add_spec, mul_spec, sub_spec, N.
    destruct (Prim2SF 1000); destruct (Prim2SF 1); reflexivity.
Qed.

Lemma eqb_refl_or_nan x : (x =? x)%float = true \/ is_nan x = true.
Proof.
  destruct (is_nan x) eqn:N; [now right|left].
  rewrite eqb_spec.
  destruct (Prim2SF x) as [[|]|[|]| |[|] m e] eqn:P;
    cbv [SFeqb SFcompare];
    rewrite ?compare_cont_Z, ?Z.compare_refl; try reflexivity.
  apply is_nan_Prim2SF in P. congruence.
Qed.

(** ** Printing what [round] returned *)

Lemma round_half_even_unique num den n :
  (0 < den)%Z -> (2 * Z.abs (num - n * den) < den)%Z ->
  Py.round_half_even num den = n.
Proof.
  intros Hden H. unfold Py.round_half_even.
  pose proof (Z.div_mod num den ltac:(lia)) as D.
  pose proof (Z.mod_pos_bound num den Hden) as B.
  set (q := (num / den)%Z) in *. set (r := (num mod den)%Z) in *.
  assert (X : (num - n * den = den * (q - n) + r)%Z) by lia.
  rewrite X in H. clear X D.
  assert (C : ((q = n /\ 2 * r < den) \/ (q = n - 1 /\ den < 2 * r))%Z).
  { destruct (Z.le_gt_cases 1 (q - n)) as [G|G].
    - pose proof (Z.mul_le_mono_nonneg_l 1 (q - n) den ltac:(lia) G). lia.
    - destruct (Z.le_gt_cases (q - n) (-2)) as [L|L].
      + pose proof (Z.mul_le_mono_nonneg_l (q - n) (-2) den ltac:(lia) L).
        lia.
      + assert (K : (q - n = 0 \/ q - n = -1)%Z) by lia.
        destruct K as [K|K]; rewrite K in H; lia. }
  destruct C as [[-> C]|[-> C]].
  - destruct (Z.compare_spec (2 * r) den); lia.
  - destruct (Z.compare_spec (2 * r) den); lia.
Qed.

Lemma hundredths_nonneg m e : (0 <= Py.hundredths m e)%Z.
Proof.
  unfold Py.hundredths. destruct (0 <=? e)%Z eqn:E.
  - apply Z.leb_le in E. apply Z.mul_nonneg_nonneg; [lia|].
    apply Z.pow_nonneg. lia.
  - unfold Py.round_half_even.
    assert (P : (0 < 2 ^ (- e))%Z) by (apply Z.pow_pos_nonneg; lia).
    pose proof (Z.div_pos (100 * Z.pos m) (2 ^ (- e)) ltac:(lia) P).
    destruct (_ ?= _)%Z; try destruct (Z.even _); lia.
Qed.

(** One stage of [shr_fexp] on a mantissa of 53 or 54 bits. *)
Lemma shr_fexp_53 m e l :
  Z.log2 m = 52%Z -> (-1074 <= e)%Z ->
  shr_fexp prec emax m e l = (shr_record_of_loc m l, e).
Proof.
  intros Hm He.
  assert (Hp : (0 < m)%Z) by (destruct m; simpl in Hm; lia).
  unfold shr_fexp.
  assert (D : Zdigits2 m = (Z.log2 m + 1)%Z)
    by (destruct m; try lia; apply digits2_log2).
  assert (K : (fexp prec emax (Zdigits2 m + e) - e = 0)%Z)
    by (rewrite D; unfold fexp, SpecFloat.emin, prec, emax; lia).
  rewrite K. reflexivity.
Qed.

Lemma shr_fexp_54 m e l :
  Z.log2 m = 53%Z -> (-1074 <= e)%Z ->
  shr_fexp prec emax m e l = (shr_1 (shr_record_of_loc m l), (e + 1)%Z).
Proof.
  intros Hm He.
  assert (Hp : (0 < m)%Z) by (destruct m; simpl in Hm; lia).
  unfold shr_fexp.
  assert (D : Zdigits2 m = (Z.log2 m + 1)%Z)
    by (destruct m; try lia; apply digits2_log2).
  assert (K : (fexp prec emax (Zdigits2 m + e) - e = 1)%Z)
    by (rewrite D; unfold fexp, SpecFloat.emin, prec, emax; lia).
  rewrite K. reflexivity.
Qed.

(** Rounding a quotient by 100 whose remainder is [r]: without a shift,
    and after a shift by one bit. *)
Lemma round_quotient_0 q r :
  (0 <= r < 100)%Z ->
  let m2 := round_nearest_even q
              (loc_of_shr_record
                 (shr_record_of_loc q (new_location 100 r))) in
  (q <= m2 <= q + 1)%Z /\ (Z.abs (100 * m2 - (100 * q + r)) <= 50)%Z.
Proof.
  intros Hr. unfold new_location. change (Z.even 100) with true.
  cbv beta iota. unfold new_location_even.
  destruct (Z.eqb_spec r 0) as [->|N];
    [|destruct (Z.compare_spec (2 * r) 100) as [E|E|E]];
    cbv beta iota zeta
      delta [shr_record_of_loc loc_of_shr_record round_nearest_even];
    try destruct (Z.even q); lia.
Qed.

Lemma round_quotient_1 q r :
  (1 < q)%Z -> (0 <= r < 100)%Z ->
  let r1 := shr_1 (shr_record_of_loc q (new_location 100 r)) in
  let m2 := round_nearest_even (shr_m r1) (loc_of_shr_record r1) in
  (q / 2 <= m2 <= q / 2 + 1)%Z /\ (2 * m2 <= q + 1)%Z
  /\ (Z.abs (200 * m2 - (100 * q + r)) <= 100)%Z.
Proof.
  intros Hq Hr. unfold new_location. change (Z.even 100) with true.
  cbv beta iota. unfold new_location_even.
  pose proof (Z.div_mod q 2 ltac:(lia)) as D.
  pose proof (Z.mod_pos_bound q 2 ltac:(lia)) as B.
  assert (S1 : forall p, (Z.pos p~1 / 2 = Z.pos p)%Z)
    by (intros p; rewrite <- Z.div2_div; reflexivity).
  assert (S0 : forall p, (Z.pos p~0 / 2 = Z.pos p)%Z)
    by (intros p; rewrite <- Z.div2_div; reflexivity).
  destruct (Z.eqb_spec r 0) as [->|N];
    [|destruct (Z.compare_spec (2 * r) 100) as [E|E|E]];
    destruct q as [|[p|p|]|p]; try lia;
    cbv beta iota zeta
      delta [shr_1 shr_record_of_loc loc_of_shr_record round_nearest_even
             shr_m orb];
    rewrite ?S1, ?S0;
    try destruct (Z.even (Z.pos p)); lia.
Qed.

Lemma shr_m_of_loc m l : shr_m (shr_record_of_loc m l) = m.
Proof. destruct l as [|[| |]]; reflexivity. Qed.

Lemma log2_52 m : (2 ^ 52 <= m < 2 ^ 53)%Z -> Z.log2 m = 52%Z.
Proof. intros H. apply Z.log2_unique; [lia|exact H]. Qed.

Lemma log2_53 m : (2 ^ 53 <= m < 2 ^ 54)%Z -> Z.log2 m = 53%Z.
Proof. intros H. apply Z.log2_unique; [lia|exact H]. Qed.

(** Rounding the quotient [q] of a division by 100 with remainder [r]:
    the result is a normalised float within half a unit of the quotient. *)
Lemma binary_round_aux_quotient s q r e :
  (2 ^ 52 <= q)%Z -> (100 * q < 2 ^ 60)%Z -> (0 <= r < 100)%Z ->
  (-1074 <= e <= 900)%Z ->
  exists m3 j,
    binary_round_aux prec emax s q e (new_location 100 r)
    = S754_finite s m3 (e + j)
    /\ Z.log2 (Z.pos m3) = 52%Z /\ (0 <= j <= 1)%Z
    /\ (Z.abs (100 * Z.pos m3 * 2 ^ j - (100 * q + r)) <= 50 * 2 ^ j)%Z.
Proof.
  intros Hq Hq' Hr He.
  change (2 ^ 52)%Z with 4503599627370496%Z in *.
  change (2 ^ 60)%Z with 1152921504606846976%Z in *.
  assert (P53 : (2 ^ 53 = 9007199254740992)%Z) by reflexivity.
  assert (P54 : (2 ^ 54 = 18014398509481984)%Z) by reflexivity.
  assert (P52 : (2 ^ 52 = 4503599627370496)%Z) by reflexivity.
  unfold binary_round_aux.
  destruct (Z.lt_ge_cases q 9007199254740992) as [S|B].
  - (* 53 bits: no shift *)
    rewrite (shr_fexp_53 q e _ (log2_52 q ltac:(lia)) ltac:(lia)).
    rewrite shr_m_of_loc.
    destruct (round_quotient_0 q r Hr) as [R1 R2].
    set (m2 := round_nearest_even q _) in *.
    destruct (Z.lt_ge_cases m2 9007199254740992) as [S2|B2].
    + rewrite (shr_fexp_53 m2 e _ (log2_52 m2 ltac:(lia)) ltac:(lia)).
      rewrite shr_m_of_loc.
      destruct m2 as [|m3|m3] eqn:M; try lia.
      assert (L : (e <=? emax - prec)%Z = true)
        by (apply Z.leb_le; unfold emax, prec; lia).
      rewrite L. exists m3, 0%Z. rewrite Z.add_0_r.
      split; [reflexivity|]. split; [apply log2_52; lia|].
      split; [lia|]. simpl (2 ^ 0)%Z. lia.
    + assert (M : m2 = 9007199254740992%Z) by lia.
      rewrite (shr_fexp_54 m2 e _ (log2_53 m2 ltac:(lia)) ltac:(lia)).
      rewrite M. cbv beta iota zeta delta [shr_record_of_loc shr_1 shr_m orb].
      assert (L : (e + 1 <=? emax - prec)%Z = true)
        by (apply Z.leb_le; unfold emax, prec; lia).
      rewrite L. exists 4503599627370496%positive, 1%Z.
      split; [reflexivity|]. split; [reflexivity|].
      split; [lia|]. simpl (2 ^ 1)%Z. lia.
  - (* 54 bits: one bit is shifted out *)
    rewrite (shr_fexp_54 q e _ (log2_53 q ltac:(lia)) ltac:(lia)).
    destruct (round_quotient_1 q r ltac:(lia) Hr) as (R1 & R2 & R3).
    set (r1 := shr_1 _) in *.
    set (m2 := round_nearest_even _ _) in *.
    assert (Q : (4503599627370496 <= q / 2)%Z)
      by (apply Z.div_le_lower_bound; lia).
    rewrite (shr_fexp_53 m2 (e + 1) _ (log2_52 m2 ltac:(lia)) ltac:(lia)).
    rewrite shr_m_of_loc.
    destruct m2 as [|m3|m3] eqn:M; try lia.
    assert (L : (e + 1 <=? emax - prec)%Z = true)
      by (apply Z.leb_le; unfold emax, prec; lia).
    rewrite L. exists m3, 1%Z.
    split; [reflexivity|]. split; [apply log2_52; lia|].
    split; [lia|]. simpl (2 ^ 1)%Z. lia.
Qed.

(** The float that [round] returns for [n] hundredths is the normalised
    float within half a unit in the last place of [n / 100]. *)
Lemma of_hundredths_nearest s n :
  (Z.pos n < 2 ^ 59)%Z ->
  exists m e, Prim2SF (Py.of_hundredths s n) = S754_finite s m e
              /\ Z.log2 (Z.pos m) = 52%Z /\ (-59 <= e <= 0)%Z
              /\ (Z.abs (100 * Z.pos m - Z.pos n * 2 ^ (- e)) <= 50)%Z.
Proof.
  intros Hn.
  pose proof (Z.log2_nonneg (Z.pos n)) as L0.
  assert (L1 : (Z.log2 (Z.pos n) < 59)%Z) by (apply Z.log2_lt_pow2; lia).
  pose proof (Z.log2_spec (Z.pos n) ltac:(lia)) as [Lo Hi].
  set (L := Z.log2 (Z.pos n)) in *.
  set (m' := (Z.pos n * 2 ^ (59 - L))%Z).
  assert (P : (0 < 2 ^ (59 - L))%Z) by (apply Z.pow_pos_nonneg; lia).
  assert (B1 : (2 ^ 59 <= m')%Z).
  { replace (2 ^ 59)%Z with (2 ^ L * 2 ^ (59 - L))%Z
      by (rewrite <- Z.pow_add_r by lia; f_equal; lia).
    unfold m'. apply Z.mul_le_mono_nonneg_r; lia. }
  assert (B2 : (m' < 2 ^ 60)%Z).
  { replace (2 ^ 60)%Z with (2 ^ Z.succ L * 2 ^ (59 - L))%Z
      by (rewrite <- Z.pow_add_r by lia; f_equal; lia).
    unfold m'. apply Z.mul_lt_mono_pos_r; lia. }
  change (2 ^ 59)%Z with 576460752303423488%Z in B1.
  change (2 ^ 60)%Z with 1152921504606846976%Z in B2.
  pose proof (Z.div_mod m' 100 ltac:(lia)) as D.
  pose proof (Z.mod_pos_bound m' 100 ltac:(lia)) as R.
  assert (C : SFdiv_core_binary prec emax (Z.pos n) 0 100 0
              = ((m' / 100)%Z, (L - 59)%Z, new_location 100 (m' mod 100))).
  { unfold SFdiv_core_binary.
    change (Zdigits2 (Z.pos n)) with (Z.pos (digits2_pos n)).
    rewrite digits2_log2. fold L.
    change (Zdigits2 100) with 7%Z.
    assert (E : Z.min (fexp prec emax (L + 1 + 0 - (7 + 0))) (0 - 0)
                = (L - 59)%Z)
      by (unfold fexp, SpecFloat.emin, prec, emax; lia).
    rewrite E. cbv zeta.
    destruct (0 - 0 - (L - 59))%Z as [|k|k] eqn:K; try lia.
    rewrite Z.shiftl_mul_pow2 by lia.
    replace (Z.pos k) with (59 - L)%Z by lia. fold m'.
    unfold Z.div, Z.modulo.
    destruct (Z.div_eucl m' 100) as [q r]. reflexivity. }
  unfold Py.of_hundredths, SFdiv. rewrite C. cbv beta iota.
  replace (xorb s false) with s by (destruct s; reflexivity).
  destruct (binary_round_aux_quotient s (m' / 100) (m' mod 100) (L - 59))
    as (m3 & j & E & Lm & Hj & Err).
  { apply Z.div_le_lower_bound; lia. }
  { pose proof (Z.mul_div_le m' 100 ltac:(lia)).
    change (2 ^ 60)%Z with 1152921504606846976%Z. lia. }
  { exact R. }
  { lia. }
  rewrite E. exists m3, (L - 59 + j)%Z. split; [|split; [exact Lm|split]].
  - apply Prim2SF_SF2Prim.
    unfold SpecFloat.valid_binary, bounded, canonical_mantissa.
    rewrite digits2_log2, Lm. apply andb_true_intro. split.
    + apply Z.eqb_eq. unfold fexp, SpecFloat.emin, prec, emax. lia.
    + apply Z.leb_le. unfold emax, prec. lia.
  - lia.
  - set (t := (- (L - 59 + j))%Z).
    assert (T0 : (0 < 2 ^ t)%Z) by (apply Z.pow_pos_nonneg; unfold t; lia).
    assert (X : (2 ^ (59 - L) = 2 ^ t * 2 ^ j)%Z)
      by (rewrite <- Z.pow_add_r by (unfold t; lia); f_equal; unfold t; lia).
    rewrite <- D in Err. unfold m' in Err. rewrite X in Err.
    assert (J : j = 0%Z \/ j = 1%Z) by lia.
    destruct J as [-> | ->].
    + simpl (2 ^ 0)%Z in Err. lia.
    + simpl (2 ^ 1)%Z in Err. lia.
Qed.

(** Below [2^52] hundredths the digits of that float are [n] again. *)
Lemma of_hundredths_digits s n :
  (Z.pos n < 2 ^ 52)%Z ->
  exists m e, Prim2SF (Py.of_hundredths s n) = S754_finite s m e
              /\ Py.hundredths m e = Z.pos n.
Proof.
  intros Hn.
  destruct (of_hundredths_nearest s n) as (m & e & E & Lm & He & Err).
  { change (2 ^ 52)%Z with 4503599627370496%Z in Hn.
    change (2 ^ 59)%Z with 576460752303423488%Z. lia. }
  exists m, e. split; [exact E|].
  pose proof (Z.log2_spec (Z.pos m) ltac:(lia)) as [Lo _]. rewrite Lm in Lo.
  change (2 ^ 52)%Z with 4503599627370496%Z in Lo, Hn.
  assert (T : (7 <= - e)%Z).
  { destruct (Z.le_gt_cases 7 (- e)) as [G|G]; [exact G|exfalso].
    assert (P : (2 ^ (- e) <= 2 ^ 6)%Z) by (apply Z.pow_le_mono_r; lia).
    assert (P0 : (0 < 2 ^ (- e))%Z) by (apply Z.pow_pos_nonneg; lia).
    change (2 ^ 6)%Z with 64%Z in P.
    assert (Q : (Z.pos n * 2 ^ (- e) <= 4503599627370496 * 64)%Z)
      by (apply Z.mul_le_mono_nonneg; lia).
    lia. }
  assert (T7 : (2 ^ 7 <= 2 ^ (- e))%Z) by (apply Z.pow_le_mono_r; lia).
  change (2 ^ 7)%Z with 128%Z in T7.
  unfold Py.hundredths.
  assert (N : (0 <=? e)%Z = false) by (apply Z.leb_gt; lia).
  rewrite N. apply round_half_even_unique; lia.
Qed.

(** Bits that are zero are shifted out without trace. *)
Lemma shr_1_exact m :
  (0 < m)%Z ->
  shr_1 (Build_shr_record (m * 2) false false) = Build_shr_record m false false.
Proof.
  intros H. destruct m as [|p|p]; try lia.
  rewrite Z.mul_comm. reflexivity.
Qed.

Lemma iter_shr_1_exact k : forall m,
  (0 < m)%Z ->
  iter_pos shr_1 k (Build_shr_record (m * 2 ^ Z.pos k) false false)
  = Build_shr_record m false false.
Proof.
  induction k as [k IH|k IH|]; intros m H; cbn [iter_pos].
  - replace (m * 2 ^ Z.pos k~1)%Z with (m * 2 ^ Z.pos k * 2 ^ Z.pos k * 2)%Z.
    + assert (P : (0 < 2 ^ Z.pos k)%Z) by (apply Z.pow_pos_nonneg; lia).
      rewrite shr_1_exact by nia. rewrite IH by nia. now apply IH.
    + replace (Z.pos k~1) with (Z.pos k + Z.pos k + 1)%Z by lia.
      rewrite !Z.pow_add_r by lia. change (2 ^ 1)%Z with 2%Z. ring.
  - replace (m * 2 ^ Z.pos k~0)%Z with (m * 2 ^ Z.pos k * 2 ^ Z.pos k)%Z.
    + assert (P : (0 < 2 ^ Z.pos k)%Z) by (apply Z.pow_pos_nonneg; lia).
      rewrite IH by nia. now apply IH.
    + replace (Z.pos k~0) with (Z.pos k + Z.pos k)%Z by lia.
      rewrite !Z.pow_add_r by lia. ring.
  - change (2 ^ 1)%Z with 2%Z. now apply shr_1_exact.
Qed.

(** Rounding a mantissa of 53 bits followed by zeros is exact. *)
Lemma binary_round_aux_exact s m a e :
  Z.log2 (Z.pos m) = 52%Z -> (0 <= a)%Z -> (-1074 <= e)%Z ->
  (e + a <= emax - prec)%Z ->
  binary_round_aux prec emax s (Z.pos m * 2 ^ a) e loc_Exact
  = S754_finite s m (e + a).
Proof.
  intros Lm Ha He Hb.
  assert (P : (0 < 2 ^ a)%Z) by (apply Z.pow_pos_nonneg; lia).
  assert (Lq : Z.log2 (Z.pos m * 2 ^ a) = (52 + a)%Z)
    by (rewrite Z.log2_mul_pow2 by lia; lia).
  assert (S1 : shr_fexp prec emax (Z.pos m * 2 ^ a) e loc_Exact
               = (Build_shr_record (Z.pos m) false false, (e + a)%Z)).
  { unfold shr_fexp.
    assert (D : Zdigits2 (Z.pos m * 2 ^ a) = (52 + a + 1)%Z).
    { destruct (Z.pos m * 2 ^ a)%Z as [|q|q] eqn:Q; try lia.
      simpl Zdigits2. now rewrite digits2_log2, Lq. }
    assert (K : (fexp prec emax (Zdigits2 (Z.pos m * 2 ^ a) + e) - e = a)%Z)
      by (rewrite D; unfold fexp, SpecFloat.emin, prec, emax; lia).
    rewrite K. unfold shr, shr_record_of_loc.
    destruct a as [|k|k]; try lia.
    - simpl (2 ^ 0)%Z. now rewrite Z.mul_1_r, Z.add_0_r.
    - now rewrite iter_shr_1_exact by lia. }
  unfold binary_round_aux. rewrite S1.
  cbv beta iota delta [shr_m loc_of_shr_record round_nearest_even].
  rewrite (shr_fexp_53 (Z.pos m) (e + a) loc_Exact Lm ltac:(lia)).
  cbv beta iota delta [shr_record_of_loc shr_m].
  apply Z.leb_le in Hb. now rewrite Hb.
Qed.

(** [round(x, 2)] returns [x] itself when [x] is a whole number of 53
    bits or more. *)
Lemma round2_whole x s m e :
  Prim2SF x = S754_finite s m e -> (0 <= e)%Z -> Py.round2 x = x.
Proof.
  intros E He.
  pose proof (Prim2SF_valid x) as V. rewrite E in V.
  unfold SpecFloat.valid_binary, bounded in V.
  apply andb_prop in V as [C B]. apply Z.leb_le in B.
  apply canonical_bounds in C as (_ & _ & Lm). specialize (Lm ltac:(lia)).
  pose proof (Z.log2_spec (Z.pos m) ltac:(lia)) as [Lo Hi]. rewrite Lm in Lo, Hi.
  change (2 ^ 52)%Z with 4503599627370496%Z in Lo.
  change (2 ^ Z.succ 52)%Z with 9007199254740992%Z in Hi.
  assert (P : (0 < 2 ^ e)%Z) by (apply Z.pow_pos_nonneg; lia).
  unfold Py.round2. rewrite E. unfold Py.hundredths.
  assert (N : (0 <=? e)%Z = true) by now apply Z.leb_le.
  rewrite N.
  destruct (100 * Z.pos m * 2 ^ e)%Z as [|n|n] eqn:Hn; try nia.
  rewrite <- (SF2Prim_Prim2SF x), E. unfold Py.of_hundredths. f_equal.
  (* the quotient of the division by 100 is [m * 2^e] *)
  set (h := Z.log2 (100 * Z.pos m)).
  assert (Hh : (58 <= h <= 59)%Z).
  { unfold h. split.
    - apply Z.log2_le_pow2; [lia|].
      change (2 ^ 58)%Z with 288230376151711744%Z. lia.
    - assert (Z.log2 (100 * Z.pos m) < 60)%Z; [|lia].
      apply Z.log2_lt_pow2; [lia|].
      change (2 ^ 60)%Z with 1152921504606846976%Z. lia. }
  assert (Ln : Z.log2 (Z.pos n) = (h + e)%Z)
    by (rewrite <- Hn, Z.log2_mul_pow2 by lia; unfold h; lia).
  set (e' := Z.min (h + e - 59) 0).
  assert (C : SFdiv_core_binary prec emax (Z.pos n) 0 100 0
              = ((Z.pos m * 2 ^ (e - e'))%Z, e', loc_Exact)).
  { unfold SFdiv_core_binary.
    change (Zdigits2 (Z.pos n)) with (Z.pos (digits2_pos n)).
    rewrite digits2_log2, Ln.
    change (Zdigits2 100) with 7%Z.
    assert (X : Z.min (fexp prec emax (h + e + 1 + 0 - (7 + 0))) (0 - 0) = e')
      by (unfold e', fexp, SpecFloat.emin, prec, emax; lia).
    rewrite X. cbv zeta.
    assert (Q : forall k, (0 <= k)%Z ->
              Z.div_eucl (Z.pos n * 2 ^ k) 100
              = ((Z.pos m * 2 ^ (e + k))%Z, 0%Z)).
    { intros k Hk.
      assert (Y : (Z.pos n * 2 ^ k = Z.pos m * 2 ^ (e + k) * 100)%Z)
        by (rewrite <- Hn, Z.pow_add_r by lia; ring).
      pose proof (Z.div_eucl_eq (Z.pos n * 2 ^ k) 100 ltac:(lia)) as D.
      pose proof (Z.mod_pos_bound (Z.pos n * 2 ^ k) 100 ltac:(lia)) as R.
      unfold Z.modulo in R.
      destruct (Z.div_eucl (Z.pos n * 2 ^ k) 100) as [q r].
      assert (r = 0 /\ q = Z.pos m * 2 ^ (e + k))%Z as [-> ->] by lia.
      reflexivity. }
    destruct (0 - 0 - e')%Z as [|k|k] eqn:K; try (unfold e' in K; lia).
    - specialize (Q 0%Z ltac:(lia)). simpl (2 ^ 0)%Z in Q.
      rewrite Z.mul_1_r in Q. rewrite Q.
      replace (e - e')%Z with (e + 0)%Z by lia. reflexivity.
    - rewrite Z.shiftl_mul_pow2 by lia. rewrite (Q (Z.pos k)) by lia.
      replace (e - e')%Z with (e + Z.pos k)%Z by lia. reflexivity. }
  unfold SFdiv. rewrite C. cbv beta iota.
  replace (xorb s false) with s by (destruct s; reflexivity).
  rewrite (binary_round_aux_exact s m (e - e') e' Lm
             ltac:(unfold e'; lia) ltac:(unfold e'; lia)
             ltac:(unfold emax, prec in *; lia)).
  f_equal. lia.
Qed.

Lemma round_half_even_le num den :
  (0 <= num)%Z -> (0 < den)%Z ->
  (0 <= Py.round_half_even num den <= num / den + 1)%Z.
Proof.
  intros Hn Hd. unfold Py.round_half_even.
  pose proof (Z.div_pos num den Hn Hd).
  destruct (_ ?= _)%Z; try destruct (Z.even _); lia.
Qed.

(** The digits of a float that has a fractional part stay below [2^59]. *)
Lemma hundredths_fraction x s m e :
  Prim2SF x = S754_finite s m e -> (e < 0)%Z ->
  (0 <= Py.hundredths m e < 2 ^ 59)%Z.
Proof.
  intros E He.
  pose proof (Prim2SF_valid x) as V. rewrite E in V.
  unfold SpecFloat.valid_binary, bounded in V.
  apply andb_prop in V as [C _].
  apply canonical_bounds in C as (_ & Lm & _).
  assert (Hm : (Z.pos m < 2 ^ 53)%Z) by (apply Z.log2_lt_pow2; lia).
  change (2 ^ 53)%Z with 9007199254740992%Z in Hm.
  unfold Py.hundredths.
  assert (N : (0 <=? e)%Z = false) by (apply Z.leb_gt; lia).
  rewrite N.
  assert (P : (2 ^ 1 <= 2 ^ (- e))%Z) by (apply Z.pow_le_mono_r; lia).
  change (2 ^ 1)%Z with 2%Z in P.
  pose proof (round_half_even_le (100 * Z.pos m) (2 ^ (- e))
                ltac:(lia) ltac:(lia)) as [R0 R1].
  assert (Q : (100 * Z.pos m / 2 ^ (- e) <= 100 * Z.pos m / 2)%Z)
    by (apply Z.div_le_compat_l; lia).
  assert (Q2 : (100 * Z.pos m / 2 < 450359962737049600)%Z)
    by (apply Z.div_lt_upper_bound; lia).
  change (2 ^ 59)%Z with 576460752303423488%Z. lia.
Qed.

(** ** Reading back what was printed *)

Lemma is_digit_not_dot c : is_digit c = true -> Ascii.eqb c "."%char = false.
Proof.
  intros H. destruct (Ascii.eqb_spec c "."%char) as [->|N]; [|reflexivity].
  discriminate H.
Qed.

Lemma split_at_dot_app t r :
  all_digits t = true ->
  Read.split_at_dot (t ++ String "."%char r) = (t, r).
Proof.
  induction t as [|c t IH]; simpl; intros H; [reflexivity|].
  apply andb_prop in H as [Hc Ht].
  now rewrite (is_digit_not_dot _ Hc), (IH Ht).
Qed.

Lemma digit_value_digit k :
  (0 <= k <= 9)%Z -> Read.digit_value (Fmt.digit k) = k.
Proof.
  intros H.
  assert (k = 0 \/ k = 1 \/ k = 2 \/ k = 3 \/ k = 4 \/ k = 5 \/ k = 6
          \/ k = 7 \/ k = 8 \/ k = 9)%Z as C by lia.
  repeat destruct C as [->|C]; try subst k; reflexivity.
Qed.

Lemma read_decimal q :
  (0 <= q)%Z ->
  option_map (fun u => Z.of_N (N.of_uint u))
    (NilZero.uint_of_string (Fmt.decimal q)) = Some q.
Proof.
  intros H. unfold Fmt.decimal.
  rewrite NilZero.usu.
  - simpl. now rewrite DecimalN.Unsigned.of_to, Z2N.id.
  - destruct (Z.to_N q) as [|p]; [discriminate|].
    simpl. intros E.
    pose proof (DecimalPos.Unsigned.of_to p) as R. rewrite E in R.
    discriminate R.
Qed.

Lemma read_unsigned n :
  (0 <= n)%Z ->
  Read.unsigned
    (Fmt.decimal (n / 100)
     ++ String "."%char
          (String (Fmt.digit (n mod 100 / 10))
             (String (Fmt.digit (n mod 10)) EmptyString)))
  = Some n.
Proof.
  intros H.
  pose proof (Z.mod_pos_bound n 100 ltac:(lia)) as B1.
  pose proof (Z.mod_pos_bound n 10 ltac:(lia)) as B2.
  assert (D1 : (0 <= n mod 100 / 10 <= 9)%Z).
  { split; [apply Z.div_pos; lia|].
    apply Z.lt_succ_r, Z.div_lt_upper_bound; lia. }
  assert (D2 : (0 <= n mod 10 <= 9)%Z) by lia.
  unfold Read.unsigned.
  rewrite split_at_dot_app by apply decimal_digits.
  pose proof (read_decimal (n / 100) ltac:(apply Z.div_pos; lia)) as R.
  destruct (NilZero.uint_of_string (Fmt.decimal (n / 100))) as [u|];
    [|discriminate R].
  simpl in R. injection R as R.
  rewrite !digit_is_digit by assumption. cbv beta iota delta [andb].
  rewrite R, !digit_value_digit by assumption. f_equal.
  pose proof (Z.div_mod n 100 ltac:(lia)).
  pose proof (Z.div_mod (n mod 100) 10 ltac:(lia)).
  assert (M : ((n mod 100) mod 10 = n mod 10)%Z).
  { apply Z.mod_mod_divide. exists 10%Z. reflexivity. }
  lia.
Qed.

(** The text that [.2f] makes of [n] hundredths reads back as [n]. *)
Lemma read_fixed2 s n :
  (0 <= n)%Z -> Read.fixed2 (Fmt.fixed2 s n) = Some (s, n).
Proof.
  intros H. pose proof (read_unsigned n H) as U.
  destruct (decimal_digits (n / 100)) as [D N].
  unfold Fmt.fixed2. destruct s.
  - cbn [String.append]. unfold Read.fixed2.
    change (Ascii.eqb "-" "-") with true. cbv beta iota.
    now rewrite U.
  - change (String.append EmptyString ?x) with x.
    cbv beta iota delta [String.append] in U |- *.
    destruct (Fmt.decimal (n / 100)) as [|c t]; [congruence|].
    simpl in D. apply andb_prop in D as [Dc _].
    unfold Read.fixed2.
    destruct (Ascii.eqb_spec c "-"%char) as [->|_]; [discriminate Dc|].
    now rewrite U.
Qed.

(** What [.2f] writes: the words for what is no number, and otherwise the
    text of the hundredths of the float. *)
Lemma format_2f_reads x :
  match Prim2SF x with
  | S754_nan => Fmt.format_2f x = "nan"%string
  | S754_infinity s =>
      Fmt.format_2f x = (if s then "-inf" else "inf")%string
  | _ => two_decimals (Fmt.format_2f x) = true
         /\ Read.fixed2 (Fmt.format_2f x) = digits_of x
  end.
Proof.
  unfold Fmt.format_2f, digits_of.
  destruct (Prim2SF x) as [s|s| |s m e]; try reflexivity.
  - split; [apply fixed2_two_decimals|apply read_fixed2; lia].
  - split; [apply fixed2_two_decimals|].
    apply read_fixed2, hundredths_nonneg.
Qed.

(** ** The float of an [int], in full *)

Lemma normal_valid s m e :
  Z.log2 (Z.pos m) = 52%Z -> (-1074 <= e <= emax - prec)%Z ->
  SpecFloat.valid_binary prec emax (S754_finite s m e) = true.
Proof.
  intros L B. unfold SpecFloat.valid_binary, bounded, canonical_mantissa.
  rewrite digits2_log2, L. apply andb_true_intro. split.
  - apply Z.eqb_eq. unfold fexp, SpecFloat.emin, prec, emax. lia.
  - apply Z.leb_le. lia.
Qed.

(** Rounding a positive integer: a normalised mantissa, an exponent that
    follows the size of the integer, and nothing lost below [2^53]. *)
Lemma binary_round_int s p :
  binary_round prec emax s p 0 = S754_infinity s
  \/ exists m e,
       binary_round prec emax s p 0 = S754_finite s m e
       /\ Z.log2 (Z.pos m) = 52%Z
       /\ (Z.log2 (Z.pos p) - 52 <= e <= Z.log2 (Z.pos p) - 51)%Z
       /\ (e <= emax - prec)%Z
       /\ (Z.pos p < 2 ^ 53 ->
           e = Z.log2 (Z.pos p) - 52
           /\ Z.pos m = Z.pos p * 2 ^ (52 - Z.log2 (Z.pos p)))%Z.
Proof.
  pose proof (Z.log2_nonneg (Z.pos p)) as L0.
  destruct (Z.lt_ge_cases (Z.pos p) (2 ^ 53)) as [S|B].
  - (* exact *)
    right. assert (L : (Z.log2 (Z.pos p) < 53)%Z)
      by (apply Z.log2_lt_pow2; lia).
    unfold binary_round.
    assert (F : fexp prec emax (Z.pos (digits2_pos p) + 0)
                = (Z.log2 (Z.pos p) - 52)%Z)
      by (rewrite digits2_log2; unfold fexp, SpecFloat.emin, prec, emax; lia).
    rewrite F. unfold shl_align.
    destruct (Z.log2 (Z.pos p) - 52 - 0)%Z as [|d|d] eqn:E; try lia.
    + pose proof (binary_round_aux_exact s p 0 0 ltac:(lia) ltac:(lia)
                    ltac:(lia) ltac:(unfold emax, prec; lia)) as R.
      simpl (2 ^ 0)%Z in R. rewrite Z.mul_1_r in R. rewrite R.
      exists p, (0 + 0)%Z. split; [reflexivity|]. split; [lia|].
      split; [lia|]. split; [unfold emax, prec; lia|].
      intros _. split; [lia|].
      replace (52 - Z.log2 (Z.pos p))%Z with 0%Z by lia. simpl. lia.
    + assert (Lm : Z.log2 (Z.pos (Pos.iter xO p d)) = 52%Z)
        by (rewrite iter_xO, Z.log2_mul_pow2 by lia; lia).
      pose proof (binary_round_aux_exact s (Pos.iter xO p d) 0
                    (Z.log2 (Z.pos p) - 52) Lm ltac:(lia) ltac:(lia)
                    ltac:(unfold emax, prec; lia)) as R.
      simpl (2 ^ 0)%Z in R. rewrite Z.mul_1_r in R. rewrite R.
      exists (Pos.iter xO p d), (Z.log2 (Z.pos p) - 52 + 0)%Z.
      split; [reflexivity|]. split; [exact Lm|].
      split; [lia|]. split; [unfold emax, prec; lia|].
      intros _. split; [lia|]. rewrite iter_xO. f_equal. f_equal. lia.
  - (* rounded *)
    unfold binary_round.
    destruct (shl_align_normal p) as [A Bz].
    pose proof (shl_align_exponent p) as X.
    destruct (shl_align p 0 _) as [mz ez].
    cbv beta iota delta [fst snd] in A, Bz, X.
    destruct (binary_round_aux_normal s mz ez loc_Exact A ltac:(lia))
      as [[E I]|(m & e & E & L & Be & Bm)]; rewrite E; [now left|right].
    exists m, e. split; [reflexivity|]. split; [exact L|].
    split; [lia|]. split; [exact Bm|]. intros S. lia.
Qed.

(** What [float_of_int] returns. *)
Lemma float_of_int_form z d :
  float_of_int z = Ok d ->
  (z = 0%Z /\ Prim2SF d = S754_zero false)
  \/ exists m e,
       z <> 0%Z /\ Prim2SF d = S754_finite (z <? 0)%Z m e
       /\ Z.log2 (Z.pos m) = 52%Z
       /\ (Z.log2 (Z.abs z) - 52 <= e <= Z.log2 (Z.abs z) - 51)%Z
       /\ (Z.abs z < 2 ^ 53 ->
           e = Z.log2 (Z.abs z) - 52
           /\ Z.pos m = Z.abs z * 2 ^ (52 - Z.log2 (Z.abs z)))%Z.
Proof.
  unfold float_of_int, binary_normalize.
  destruct z as [|p|p].
  - intros H. left. split; [reflexivity|].
    cbv beta iota in H. assert (d = SF2Prim (S754_zero false)) by congruence.
    subst d. reflexivity.
  - intros H. right.
    destruct (binary_round_int false p)
      as [E|(m & e & E & L & Be & Bm & Ex)]; rewrite E in H;
      [discriminate H|].
    cbv beta iota in H.
    assert (D : d = SF2Prim (S754_finite false m e)) by congruence.
    pose proof (Z.log2_nonneg (Z.pos p)).
    exists m, e. split; [discriminate|]. split.
    + rewrite D. apply Prim2SF_SF2Prim, normal_valid; [exact L|lia].
    + simpl Z.abs. auto.
  - intros H. right.
    destruct (binary_round_int true p)
      as [E|(m & e & E & L & Be & Bm & Ex)]; rewrite E in H;
      [discriminate H|].
    cbv beta iota in H.
    assert (D : d = SF2Prim (S754_finite true m e)) by congruence.
    pose proof (Z.log2_nonneg (Z.pos p)).
    exists m, e. split; [discriminate|]. split.
    + rewrite D. apply Prim2SF_SF2Prim, normal_valid; [exact L|lia].
    + simpl Z.abs. auto.
Qed.

Lemma float_of_int_small c :
  (1 <= c < 2 ^ 53)%Z -> float_of_int c = Ok (Num.literal c).
Proof.
  intros H. unfold float_of_int, Num.literal, binary_normalize.
  destruct c as [|p|p]; try lia.
  destruct (binary_round_int false p) as [E|(m & e & E & _)].
  - exfalso. revert E. unfold binary_round.
    destruct (shl_align_normal p) as [A Bz].
    pose proof (shl_align_exponent p) as X.
    destruct (shl_align p 0 _) as [mz ez].
    cbv beta iota delta [fst snd] in A, Bz, X.
    assert (L : (Z.log2 (Z.pos p) < 53)%Z) by (apply Z.log2_lt_pow2; lia).
    destruct (binary_round_aux_normal false mz ez loc_Exact A ltac:(lia))
      as [[E I]|(m & e & E & _)]; rewrite E; [|discriminate].
    unfold emax, prec in I. lia.
  - now rewrite E.
Qed.

(** Comparing the float of an [int] with the float of a small positive
    literal is comparing the [int]s. *)
Lemma float_of_int_le z d c :
  float_of_int z = Ok d -> (1 <= c < 2 ^ 53)%Z ->
  (Num.literal c <=? d)%float = (c <=? z)%Z
  /\ (d <=? Num.literal c)%float = (z <=? c)%Z.
Proof.
  intros H Hc.
  destruct (float_of_int_form c _ (float_of_int_small c Hc))
    as [[C0 _]|(mc & ec & _ & Pc & Lc & _ & Xc)]; [lia|].
  replace (c <? 0)%Z with false in Pc by (symmetry; apply Z.ltb_ge; lia).
  rewrite Z.abs_eq in Xc by lia. destruct (Xc ltac:(lia)) as [Ec Mc].
  rewrite !leb_spec, Pc.
  destruct (float_of_int_form z d H)
    as [[Z0 P]|(m & e & Nz & P & L & Be & X)]; rewrite P.
  - subst z. cbv [SFleb SFcompare]. split; symmetry.
    + apply Z.leb_gt. lia.
    + apply Z.leb_le. lia.
  - destruct (z <? 0)%Z eqn:S.
    + apply Z.ltb_lt in S. cbv [SFleb SFcompare]. split; symmetry.
      * apply Z.leb_gt. lia.
      * apply Z.leb_le. lia.
    + apply Z.ltb_ge in S. rewrite Z.abs_eq in Be, X by lia.
      assert (Pz : (0 < z)%Z) by lia.
      pose proof (Z.log2_nonneg z) as Lz0. pose proof (Z.log2_nonneg c) as Lc0.
      cbv [SFleb SFcompare]. rewrite !compare_cont_Z.
      destruct (Z.lt_ge_cases z (2 ^ 53)) as [Sm|Bg].
      * destruct (X Sm) as [Ee Mz]. rewrite Ee, Ec, Mz, Mc.
        assert (Lzz : (Z.log2 z < 53)%Z) by (apply Z.log2_lt_pow2; lia).
        destruct (Z.compare_spec (Z.log2 c) (Z.log2 z)) as [E1|E1|E1].
        -- assert (K : (0 < 2 ^ (52 - Z.log2 z))%Z)
             by (apply Z.pow_pos_nonneg; lia).
           rewrite E1.
           replace (Z.log2 z - 52 ?= Z.log2 z - 52)%Z with Eq
             by (symmetry; apply Z.compare_refl).
           rewrite <- !Zmult_compare_compat_r by lia.
           rewrite !Z.leb_compare.
           rewrite (Z.compare_antisym c z).
           destruct (c ?= z)%Z; split; reflexivity.
        -- pose proof E1 as E2. apply Z.log2_lt_cancel in E1.
           replace (Z.log2 c - 52 ?= Z.log2 z - 52)%Z with Lt
             by (symmetry; apply Z.compare_lt_iff; lia).
           replace (Z.log2 z - 52 ?= Z.log2 c - 52)%Z with Gt
             by (symmetry; apply Z.compare_gt_iff; lia).
           split; symmetry; [apply Z.leb_le|apply Z.leb_gt]; lia.
        -- pose proof E1 as E2. apply Z.log2_lt_cancel in E1.
           replace (Z.log2 c - 52 ?= Z.log2 z - 52)%Z with Gt
             by (symmetry; apply Z.compare_gt_iff; lia).
           replace (Z.log2 z - 52 ?= Z.log2 c - 52)%Z with Lt
             by (symmetry; apply Z.compare_lt_iff; lia).
           split; symmetry; [apply Z.leb_gt|apply Z.leb_le]; lia.
      * assert (Lz : (53 <= Z.log2 z)%Z) by (apply Z.log2_le_pow2; lia).
        assert (Lcc : (Z.log2 c < 53)%Z) by (apply Z.log2_lt_pow2; lia).
        rewrite Ec.
        replace (Z.log2 c - 52 ?= e)%Z with Lt
          by (symmetry; apply Z.compare_lt_iff; lia).
        replace (e ?= Z.log2 c - 52)%Z with Gt
          by (symmetry; apply Z.compare_gt_iff; lia).
        split; symmetry; [apply Z.leb_le|apply Z.leb_gt]; lia.
Qed.

(** ** [calculate_reimbursement] on numbers and on floats *)

Ltac literals :=
  repeat match goal with
  | |- context [Num.literal ?c] =>
      let v := eval vm_compute in (Num.literal c) in
      replace (Num.literal c) with v by (vm_compute; reflexivity)
  end.


(** With an [int] for the days, as [main] calls it, the function converts
    the [int] and goes on as on floats. *)
Lemma num_on_int_days z m r :
  Num.calculate_reimbursement (Int z) (Float m) (Float r)
  = (d <- float_of_int z ;; calculate_reimbursement d m r).
Proof.
  unfold Num.calculate_reimbursement, Num.truediv, Num.to_float.
  cbv beta iota delta [bind].
  destruct (float_of_int z) as [d|e] eqn:F; [|reflexivity].
  assert (C : forall c, (1 <= c < 2 ^ 53)%Z ->
            Num.int_le c (Int z) = (Num.literal c <=? d)%float
            /\ Num.le_int (Int z) c = (d <=? Num.literal c)%float).
  { intros c Hc. destruct (float_of_int_le z d c F Hc) as [A B].
    unfold Num.int_le, Num.le_int. now rewrite A, B. }
  rewrite (proj1 (C 5%Z ltac:(change (2 ^ 53)%Z with 9007199254740992%Z; lia))),
    (proj2 (C 12%Z ltac:(change (2 ^ 53)%Z with 9007199254740992%Z; lia))),
    (proj2 (C 6%Z ltac:(change (2 ^ 53)%Z with 9007199254740992%Z; lia))),
    (proj2 (C 9%Z ltac:(change (2 ^ 53)%Z with 9007199254740992%Z; lia))).
  clear C.
  unfold calculate_reimbursement, reimbursement_arm, Num.weighted, Num.mul,
    Num.to_float, Num.int_le.
  rewrite F. literals. cbv beta iota delta [bind].
  destruct (Py.truediv r d) as [rpd|e]; [|reflexivity].
  destruct (_ && _ && _); [reflexivity|].
  destruct (_ && _); [reflexivity|].
  destruct (_ && _); reflexivity.
Qed.

(** ** How the function fails, and what it returns *)

Lemma float_of_int_zero z d :
  float_of_int z = Ok d -> (d =? 0)%float = (z =? 0)%Z.
Proof.
  intros H. rewrite eqb_spec. sf_const 0%float.
  destruct (float_of_int_form z d H)
    as [[-> P]|(m & e & Nz & P & _)]; rewrite P.
  - reflexivity.
  - apply Z.eqb_neq in Nz. rewrite Nz. now destruct (z <? 0)%Z.
Qed.


Lemma to_float_error x e : Num.to_float x = Raise e -> e = OverflowError.
Proof. destruct x; simpl; [apply float_of_int_error|discriminate]. Qed.

Lemma to_float_zero x d :
  Num.to_float x = Ok d -> (d =? 0)%float = Num.is_zero x.
Proof.
  destruct x as [z|f]; simpl; [apply float_of_int_zero|].
  now intros [= ->].
Qed.

(** The division fails on a zero divisor, or on an [int] that has no
    float (or a quotient of [int]s that has none). *)
Lemma truediv_error a b e :
  Num.truediv a b = Raise e ->
  (e = ZeroDivisionError /\ Num.is_zero b = true) \/ e = OverflowError.
Proof.
  unfold Num.truediv.
  assert (G : (x <- Num.to_float a ;; y <- Num.to_float b ;; Py.truediv x y)
              = Raise e ->
              e = ZeroDivisionError /\ Num.is_zero b = true
              \/ e = OverflowError).
  { destruct (Num.to_float a) as [x|ea] eqn:A; cbv beta iota delta [bind].
    2:{ intros [= <-]. right. now apply to_float_error in A. }
    destruct (Num.to_float b) as [y|eb] eqn:B.
    2:{ intros [= <-]. right. now apply to_float_error in B. }
    unfold Py.truediv. rewrite (to_float_zero _ _ B).
    destruct (Num.is_zero b); [|discriminate].
    intros [= <-]. now left. }
  destruct a as [x|x], b as [y|y]; try exact G.
  unfold Num.is_zero.
  destruct (y =? 0)%Z; [intros [= <-]; now left|].
  destruct (SFdiv _ _ _ _); try discriminate.
  intros [= <-]. now right.
Qed.

Lemma weighted_error c1 c2 c3 days miles receipts e :
  Num.weighted c1 c2 c3 days miles receipts = Raise e -> e = OverflowError.
Proof.
  unfold Num.weighted, Num.mul.
  destruct (Num.to_float days) eqn:A; cbv beta iota delta [bind];
    [|intros [= <-]; now apply to_float_error in A].
  destruct (Num.to_float miles) eqn:B; cbv beta iota delta [bind];
    [|intros [= <-]; now apply to_float_error in B].
  destruct (Num.to_float receipts) eqn:C; cbv beta iota delta [bind];
    [discriminate|intros [= <-]; now apply to_float_error in C].
Qed.

(** The arm that is taken, whichever it is, is one of the three weighted
    sums. *)
Lemma num_arm days miles receipts :
  (exists e, Num.truediv receipts days = Raise e
             /\ Num.calculate_reimbursement days miles receipts = Raise e)
  \/ exists rpd c1 c2 c3,
       Num.truediv receipts days = Ok rpd
       /\ pos_finite c1 = true /\ pos_finite c2 = true
       /\ pos_finite c3 = true
       /\ Num.calculate_reimbursement days miles receipts
          = Num.weighted c1 c2 c3 days miles receipts.
Proof.
  unfold Num.calculate_reimbursement.
  destruct (Num.truediv receipts days) as [rpd|e]; [right|left; eauto].
  cbv beta iota delta [bind]. exists rpd.
  destruct (_ && _ && _);
    [do 3 eexists; repeat split; vm_compute; reflexivity|].
  destruct (_ && _);
    [do 3 eexists; repeat split; vm_compute; reflexivity|].
  destruct (_ && _);
    do 3 eexists; repeat split; vm_compute; reflexivity.
Qed.

Lemma num_error days miles receipts e :
  Num.calculate_reimbursement days miles receipts = Raise e ->
  (e = ZeroDivisionError /\ Num.is_zero days = true) \/ e = OverflowError.
Proof.
  intros H.
  destruct (num_arm days miles receipts)
    as [(e' & D & R)|(rpd & c1 & c2 & c3 & _ & _ & _ & _ & R)];
    rewrite R in H.
  - injection H as <-. now apply truediv_error in D.
  - right. now apply weighted_error in H.
Qed.

Lemma int_le_1_not_zero x : Num.int_le 1 x = true -> Num.is_zero x = false.
Proof.
  destruct x as [z|f]; simpl; intros H.
  - apply Z.leb_le in H. apply Z.eqb_neq. lia.
  - revert H. literals. apply ge_1_not_zero.
Qed.



Lemma leb_0_not_nan v : (0 <=? v)%float = true -> is_nan v = false.
Proof.
  rewrite leb_0_nonneg. unfold Prim2SF.
  destruct (is_nan v); [discriminate|reflexivity].
Qed.

(** ** The float that [round] returns *)

(** The rounding that the division of the floats performs is the rounding
    of the quotient to the nearest integer, ties to even. *)
Lemma round_quotient_0_eq q r :
  (0 <= r < 100)%Z ->
  round_nearest_even q
    (loc_of_shr_record (shr_record_of_loc q (new_location 100 r)))
  = Py.round_half_even (100 * q + r) 100.
Proof.
  intros Hr. unfold Py.round_half_even.
  replace ((100 * q + r) / 100)%Z with q
    by (apply Z.div_unique with r; lia).
  replace ((100 * q + r) mod 100)%Z with r
    by (apply Z.mod_unique with q; lia).
  unfold new_location. change (Z.even 100) with true.
  cbv beta iota. unfold new_location_even.
  destruct (Z.eqb_spec r 0) as [->|N].
  - reflexivity.
  - destruct (2 * r ?= 100)%Z;
      cbv beta iota zeta
        delta [shr_record_of_loc loc_of_shr_record round_nearest_even];
      try destruct (Z.even q); reflexivity.
Qed.

Lemma round_quotient_1_eq q r :
  (1 < q)%Z -> (0 <= r < 100)%Z ->
  let r1 := shr_1 (shr_record_of_loc q (new_location 100 r)) in
  round_nearest_even (shr_m r1) (loc_of_shr_record r1)
  = Py.round_half_even (100 * q + r) 200.
Proof.
  intros Hq Hr. unfold Py.round_half_even.
  pose proof (Z.div_mod q 2 ltac:(lia)) as D.
  pose proof (Z.mod_pos_bound q 2 ltac:(lia)) as B.
  replace ((100 * q + r) / 200)%Z with (q / 2)%Z
    by (apply Z.div_unique with (100 * (q mod 2) + r)%Z; lia).
  replace ((100 * q + r) mod 200)%Z with (100 * (q mod 2) + r)%Z
    by (apply Z.mod_unique with (q / 2)%Z; lia).
  assert (S1 : forall p, (Z.pos p~1 / 2 = Z.pos p)%Z)
    by (intros p; rewrite <- Z.div2_div; reflexivity).
  assert (S0 : forall p, (Z.pos p~0 / 2 = Z.pos p)%Z)
    by (intros p; rewrite <- Z.div2_div; reflexivity).
  assert (M1 : forall p, (Z.pos p~1 mod 2 = 1)%Z)
    by (intros p; rewrite Zmod_odd; reflexivity).
  assert (M0 : forall p, (Z.pos p~0 mod 2 = 0)%Z)
    by (intros p; rewrite Zmod_odd; reflexivity).
  unfold new_location. change (Z.even 100) with true.
  cbv beta iota. unfold new_location_even.
  destruct (Z.eqb_spec r 0) as [->|N];
    [|destruct (Z.compare_spec (2 * r) 100) as [E|E|E]];
    destruct q as [|[p|p|]|p]; try lia;
    cbv beta iota zeta
      delta [shr_1 shr_record_of_loc loc_of_shr_record round_nearest_even
             shr_m orb];
    rewrite ?S1, ?S0, ?M1, ?M0;
    match goal with
    | |- context [(?a ?= 200)%Z] =>
        destruct (Z.compare_spec a 200); try lia
    end;
    try reflexivity.
Qed.

Lemma round_half_even_double num den :
  (0 < den)%Z ->
  Py.round_half_even (2 * num) (2 * den) = Py.round_half_even num den.
Proof.
  intros H. unfold Py.round_half_even.
  rewrite Z.div_mul_cancel_l by lia.
  rewrite Z.mul_mod_distr_l by lia.
  replace (2 * (2 * (num mod den)) ?= 2 * den)%Z
    with (2 * (num mod den) ?= den)%Z; [reflexivity|].
  apply Zmult_compare_compat_l. lia.
Qed.

(** Rounding the quotient [q] of a division by 100 with remainder [r]:
    the mantissa is the quotient rounded to 53 bits, ties to even. *)
Lemma binary_round_aux_quotient_eq s q r e :
  (2 ^ 52 <= q)%Z -> (100 * q < 2 ^ 60)%Z -> (0 <= r < 100)%Z ->
  (-1074 <= e <= 900)%Z ->
  binary_round_aux prec emax s q e (new_location 100 r)
  = if (q <? 2 ^ 53)%Z
    then if (Py.round_half_even (100 * q + r) 100 <? 2 ^ 53)%Z
         then S754_finite s
                (Z.to_pos (Py.round_half_even (100 * q + r) 100)) e
         else S754_finite s 4503599627370496 (e + 1)
    else S754_finite s
           (Z.to_pos (Py.round_half_even (100 * q + r) 200)) (e + 1).
Proof.
  intros Hq Hq' Hr He.
  change (2 ^ 52)%Z with 4503599627370496%Z in *.
  change (2 ^ 53)%Z with 9007199254740992%Z in *.
  change (2 ^ 60)%Z with 1152921504606846976%Z in *.
  assert (P53 : (2 ^ 53 = 9007199254740992)%Z) by reflexivity.
  assert (P54 : (2 ^ 54 = 18014398509481984)%Z) by reflexivity.
  assert (P52 : (2 ^ 52 = 4503599627370496)%Z) by reflexivity.
  unfold binary_round_aux.
  destruct (Z.ltb_spec q 9007199254740992) as [S|B].
  - rewrite (shr_fexp_53 q e _ (log2_52 q ltac:(lia)) ltac:(lia)).
    rewrite shr_m_of_loc.
    rewrite <- (round_quotient_0_eq q r Hr).
    destruct (round_quotient_0 q r Hr) as [R1 R2].
    set (m2 := round_nearest_even q _) in *.
    destruct (Z.ltb_spec m2 9007199254740992) as [S2|B2].
    + rewrite (shr_fexp_53 m2 e _ (log2_52 m2 ltac:(lia)) ltac:(lia)).
      rewrite shr_m_of_loc.
      destruct m2 as [|m3|m3] eqn:M; try lia.
      assert (L : (e <=? emax - prec)%Z = true)
        by (apply Z.leb_le; unfold emax, prec; lia).
      rewrite L. reflexivity.
    + assert (M : m2 = 9007199254740992%Z) by lia.
      rewrite (shr_fexp_54 m2 e _ (log2_53 m2 ltac:(lia)) ltac:(lia)).
      rewrite M. cbv beta iota zeta delta [shr_record_of_loc shr_1 shr_m orb].
      assert (L : (e + 1 <=? emax - prec)%Z = true)
        by (apply Z.leb_le; unfold emax, prec; lia).
      rewrite L. reflexivity.
  - rewrite (shr_fexp_54 q e _ (log2_53 q ltac:(lia)) ltac:(lia)).
    rewrite <- (round_quotient_1_eq q r ltac:(lia) Hr).
    destruct (round_quotient_1 q r ltac:(lia) Hr) as (R1 & R2 & R3).
    cbv zeta.
    set (r1 := shr_1 _) in *.
    set (m2 := round_nearest_even _ _) in *.
    assert (Q : (4503599627370496 <= q / 2)%Z)
      by (apply Z.div_le_lower_bound; lia).
    rewrite (shr_fexp_53 m2 (e + 1) _ (log2_52 m2 ltac:(lia)) ltac:(lia)).
    rewrite shr_m_of_loc.
    destruct m2 as [|m3|m3] eqn:M; try lia.
    assert (L : (e + 1 <=? emax - prec)%Z = true)
      by (apply Z.leb_le; unfold emax, prec; lia).
    rewrite L. reflexivity.
Qed.

(** The float that [round] returns for [n] hundredths is [n / 100]
    correctly rounded: scaled by the power of two that brings it into
    [2^52, 2^53), rounded to the nearest integer (ties to even), and scaled
    back. *)
Lemma of_hundredths_exact s n :
  (Z.pos n < 2 ^ 59)%Z ->
  exists k,
    (0 <= k <= 59)%Z
    /\ (100 * 2 ^ 52 <= Z.pos n * 2 ^ k < 100 * 2 ^ 53)%Z
    /\ Prim2SF (Py.of_hundredths s n)
       = if (Py.round_half_even (Z.pos n * 2 ^ k) 100 <? 2 ^ 53)%Z
         then S754_finite s
                (Z.to_pos (Py.round_half_even (Z.pos n * 2 ^ k) 100)) (- k)
         else S754_finite s 4503599627370496 (1 - k).
Proof.
  intros Hn.
  pose proof (Z.log2_nonneg (Z.pos n)) as L0.
  assert (L1 : (Z.log2 (Z.pos n) < 59)%Z) by (apply Z.log2_lt_pow2; lia).
  pose proof (Z.log2_spec (Z.pos n) ltac:(lia)) as [Lo Hi].
  set (L := Z.log2 (Z.pos n)) in *.
  set (m' := (Z.pos n * 2 ^ (59 - L))%Z).
  assert (P : (0 < 2 ^ (59 - L))%Z) by (apply Z.pow_pos_nonneg; lia).
  assert (B1 : (2 ^ 59 <= m')%Z).
  { replace (2 ^ 59)%Z with (2 ^ L * 2 ^ (59 - L))%Z
      by (rewrite <- Z.pow_add_r by lia; f_equal; lia).
    unfold m'. apply Z.mul_le_mono_nonneg_r; lia. }
  assert (B2 : (m' < 2 ^ 60)%Z).
  { replace (2 ^ 60)%Z with (2 ^ Z.succ L * 2 ^ (59 - L))%Z
      by (rewrite <- Z.pow_add_r by lia; f_equal; lia).
    unfold m'. apply Z.mul_lt_mono_pos_r; lia. }
  change (2 ^ 59)%Z with 576460752303423488%Z in B1.
  change (2 ^ 60)%Z with 1152921504606846976%Z in B2.
  pose proof (Z.div_mod m' 100 ltac:(lia)) as D.
  pose proof (Z.mod_pos_bound m' 100 ltac:(lia)) as R.
  assert (C : SFdiv_core_binary prec emax (Z.pos n) 0 100 0
              = ((m' / 100)%Z, (L - 59)%Z, new_location 100 (m' mod 100))).
  { unfold SFdiv_core_binary.
    change (Zdigits2 (Z.pos n)) with (Z.pos (digits2_pos n)).
    rewrite digits2_log2. fold L.
    change (Zdigits2 100) with 7%Z.
    assert (E : Z.min (fexp prec emax (L + 1 + 0 - (7 + 0))) (0 - 0)
                = (L - 59)%Z)
      by (unfold fexp, SpecFloat.emin, prec, emax; lia).
    rewrite E. cbv zeta.
    destruct (0 - 0 - (L - 59))%Z as [|k|k] eqn:K; try lia.
    rewrite Z.shiftl_mul_pow2 by lia.
    replace (Z.pos k) with (59 - L)%Z by lia. fold m'.
    unfold Z.div, Z.modulo.
    destruct (Z.div_eucl m' 100) as [q r]. reflexivity. }
  assert (Q1 : (2 ^ 52 <= m' / 100)%Z).
  { change (2 ^ 52)%Z with 4503599627370496%Z.
    apply Z.div_le_lower_bound; lia. }
  assert (Q2 : (100 * (m' / 100) < 2 ^ 60)%Z).
  { pose proof (Z.mul_div_le m' 100 ltac:(lia)).
    change (2 ^ 60)%Z with 1152921504606846976%Z. lia. }
  pose proof (binary_round_aux_quotient_eq s (m' / 100) (m' mod 100)
                (L - 59) Q1 Q2 R ltac:(lia)) as E.
  rewrite <- D in E.
  destruct (binary_round_aux_quotient s (m' / 100) (m' mod 100) (L - 59)
              Q1 Q2 R ltac:(lia)) as (m3 & j & E' & Lm & Hj & _).
  assert (V : Prim2SF (Py.of_hundredths s n)
              = binary_round_aux prec emax s (m' / 100) (L - 59)
                  (new_location 100 (m' mod 100))).
  { unfold Py.of_hundredths, SFdiv. rewrite C. cbv beta iota.
    replace (xorb s false) with s by (destruct s; reflexivity).
    rewrite E'. apply Prim2SF_SF2Prim.
    unfold SpecFloat.valid_binary, bounded, canonical_mantissa.
    rewrite digits2_log2, Lm. apply andb_true_intro. split.
    - apply Z.eqb_eq. unfold fexp, SpecFloat.emin, prec, emax. lia.
    - apply Z.leb_le. unfold emax, prec. lia. }
  rewrite V, E. clear V E E' Lm Hj m3 j C.
  change (2 ^ 52)%Z with 4503599627370496%Z in *.
  change (2 ^ 53)%Z with 9007199254740992%Z in *.
  change (2 ^ 60)%Z with 1152921504606846976%Z in *.
  destruct (Z.ltb_spec (m' / 100) 9007199254740992) as [S|B].
  - exists (59 - L)%Z. fold m'.
    replace (- (59 - L))%Z with (L - 59)%Z by lia.
    replace (1 - (59 - L))%Z with (L - 59 + 1)%Z by lia.
    split; [lia|]. split; [lia|reflexivity].
  - exists (58 - L)%Z.
    assert (L58 : (L <= 58)%Z) by lia.
    assert (X : (m' = 2 * (Z.pos n * 2 ^ (58 - L)))%Z).
    { unfold m'. replace (59 - L)%Z with (Z.succ (58 - L)) by lia.
      rewrite Z.pow_succ_r by lia. lia. }
    set (h := (Z.pos n * 2 ^ (58 - L))%Z) in *.
    replace (- (58 - L))%Z with (L - 59 + 1)%Z by lia.
    split; [lia|]. split; [lia|].
    rewrite X. change 200%Z with (2 * 100)%Z.
    rewrite round_half_even_double by lia.
    assert (T : (Py.round_half_even h 100 <? 9007199254740992)%Z = true).
    { apply Z.ltb_lt.
      pose proof (round_half_even_nearest h 100 ltac:(lia)) as [N _].
      lia. }
    rewrite T. reflexivity.
Qed.

(** ** The sign bit of the result *)

Lemma ge_1_form d :
  (1 <=? d)%float = true ->
  Prim2SF d = S754_infinity false
  \/ exists m e, Prim2SF d = S754_finite false m e.
Proof.
  rewrite leb_spec. sf_const 1%float.
  destruct (Prim2SF d) as [[|]|[|]| |[|] m e]; try discriminate; eauto.
Qed.

Lemma SFmul_sign mx ex y :
  y = S754_infinity false \/ (exists my ey, y = S754_finite false my ey) ->
  sign_is false (SFmul prec emax (S754_finite false mx ex) y).
Proof.
  intros [-> |(my & ey & ->)]; simpl; [reflexivity|].
  apply binary_round_aux_sign. lia.
Qed.

Lemma SFadd_sign x y :
  sign_is false x -> nonneg_sf y = true ->
  sign_is false (SFadd prec emax x y).
Proof.
  destruct x as [[|]|[|]| |[|] mx ex], y as [[|]|[|]| |[|] my ey];
    simpl sign_is; simpl nonneg_sf; intros Hx Hy; try easy.
  unfold SFadd, cond_Zopp.
  destruct (shl_align mx ex _) as [a ea], (shl_align my ey _) as [b eb].
  simpl fst. apply binary_round_sign.
Qed.

(** On input that passes the range check the formulas give a value whose
    sign bit is not set. *)
Lemma formula_sign c days miles receipts :
  (1 <=? days)%float = true -> (0 <=? miles)%float = true ->
  (0 <=? receipts)%float = true ->
  sign_is false (Prim2SF (Spec.formula c days miles receipts)).
Proof.
  intros Hd Hm Hr.
  assert (G : forall c1 c2 c3,
            pos_finite c1 = true -> pos_finite c2 = true ->
            pos_finite c3 = true ->
            sign_is false
              (Prim2SF (c1 * days + c2 * miles + c3 * receipts)%float)).
  { intros c1 c2 c3 P1 P2 P3.
    rewrite add_spec. apply SFadd_sign.
    - rewrite add_spec. apply SFadd_sign.
      + rewrite mul_spec. unfold pos_finite in P1.
        destruct (Prim2SF c1) as [s|s| |[|] m e]; try discriminate.
        apply SFmul_sign, ge_1_form, Hd.
      + rewrite <- leb_0_nonneg. now apply mul_nonneg.
    - rewrite <- leb_0_nonneg. now apply mul_nonneg. }
  destruct c; apply G; vm_compute; reflexivity.
Qed.

Lemma round2_sign x :
  sign_is false (Prim2SF x) -> sign_is false (Prim2SF (Py.round2 x)).
Proof.
  intros H.
  destruct (Prim2SF x) as [s|s| |s m e] eqn:E;
    try (unfold Py.round2; rewrite E, E; exact H).
  simpl in H. subst s.
  destruct (Z.le_gt_cases 0 e) as [He|He].
  - rewrite (round2_whole x false m e E He), E. reflexivity.
  - pose proof (hundredths_fraction x false m e E He) as B.
    unfold Py.round2. rewrite E.
    destruct (Py.hundredths m e) as [|n|n]; try lia.
    + reflexivity.
    + destruct (of_hundredths_nearest false n ltac:(lia))
        as (m' & e' & P & _).
      rewrite P. reflexivity.
Qed.

(** ** The rounding of the result (C3) *)

(** C3: whenever [calculate_reimbursement] returns, on valid input or not,
    the value is [round(_, 2)] of the formula of the arm taken, with
    nothing applied after it.  [round(_, 2)] returns what is no finite
    number, a zero or a whole number as it is.  For a finite [m * 2^e]
    with a fractional part it takes as digits [n] the integer nearest to
    [100 * m * 2^e], the even one at a tie, and returns the float of the
    same sign that is [n / 100] correctly rounded: [n / 100] scaled by the
    power of two that brings it into [2^52, 2^53), rounded to the nearest
    integer, the even one at a tie, and scaled back (a signed zero when
    [n] is zero).  A negative formula value comes back negative;
    [round(2.675, 2)] is 2.67, and the ties 0.125 and 0.375 give 0.12 and
    0.38. *)
Theorem result_is_rounded_formula :
  (forall days miles receipts c x,
     reimbursement_arm days miles receipts = Ok (c, x) ->
     x = Spec.formula c days miles receipts
     /\ calculate_reimbursement days miles receipts = Ok (Py.round2 x))
  /\ (forall m e,
        let n := Py.hundredths m e in
        if (0 <=? e)%Z then n = (100 * Z.pos m * 2 ^ e)%Z
        else (Z.abs (2 * (100 * Z.pos m - n * 2 ^ (- e))) <= 2 ^ (- e))%Z
             /\ (Z.abs (2 * (100 * Z.pos m - n * 2 ^ (- e))) = 2 ^ (- e)
                 -> Z.even n = true))
  /\ (forall x s m e, Prim2SF x = S754_finite s m e ->
        if (0 <=? e)%Z then Py.round2 x = x
        else
          match Py.hundredths m e with
          | Z.pos n =>
              exists k,
                (0 <= k <= 59)%Z
                /\ (100 * 2 ^ 52 <= Z.pos n * 2 ^ k < 100 * 2 ^ 53)%Z
                /\ Prim2SF (Py.round2 x)
                   = if (Py.round_half_even (Z.pos n * 2 ^ k) 100
                         <? 2 ^ 53)%Z
                     then S754_finite s
                            (Z.to_pos
                               (Py.round_half_even (Z.pos n * 2 ^ k) 100))
                            (- k)
                     else S754_finite s 4503599627370496 (1 - k)
          | _ => Prim2SF (Py.round2 x) = S754_zero s
          end)
  /\ (forall x, match Prim2SF x with
                | S754_finite _ _ _ => True
                | _ => Py.round2 x = x
                end)
  /\ calculate_reimbursement 1 (-10000) 0 = Ok (-4527.87)%float
  /\ Py.round2 2.675 = 2.67%float
  /\ Py.round2 0.125 = 0.12%float
  /\ Py.round2 0.375 = 0.38%float.
Proof.
  split; [|split; [|split; [|split]]].
  - intros days miles receipts c x H. split.
    + unfold reimbursement_arm in H.
      destruct (Py.truediv receipts days) as [rpd|]; [|discriminate H].
      cbv beta iota delta [bind] in H.
      destruct (_ && _ && _); [now injection H as <- <-|].
      destruct (_ && _); [now injection H as <- <-|].
      destruct (_ && _); now injection H as <- <-.
    + unfold calculate_reimbursement. now rewrite H.
  - intros m e n. unfold n, Py.hundredths.
    destruct (0 <=? e)%Z eqn:E; [reflexivity|].
    apply round_half_even_nearest.
    apply Z.pow_pos_nonneg; lia.
  - intros x s m e H.
    destruct (Z.leb_spec 0 e) as [He|He].
    + now apply round2_whole with s m e.
    + pose proof (hundredths_fraction x s m e H He) as B.
      unfold Py.round2. rewrite H.
      destruct (Py.hundredths m e) as [|n|n]; try lia.
      * destruct s; reflexivity.
      * apply of_hundredths_exact. lia.
  - intros x. unfold Py.round2. destruct (Prim2SF x); auto.
  - repeat split; vm_compute; reflexivity.
Qed.

(** ** The sign of the result (C5) *)




(** ** The division (C9) *)

(** C9: [calculate_reimbursement] divides the receipts by the days before
    it tests anything.  With days equal to zero it raises
    [ZeroDivisionError] whatever the miles are (the receipts being a
    float, or the days the [int] 0); it raises nothing but that error,
    and then the days are zero, or [OverflowError], for an [int] that has
    no float.  With days of 1 or more it never raises
    [ZeroDivisionError], and the division of float receipts by days that
    have a float [d] is the IEEE quotient.  [main] passes the [int] it
    parsed; a run calls the function with days of 1 or more only, the call
    does not raise [ZeroDivisionError], and no run ends in one. *)
Theorem no_division_by_zero :
  (forall days miles r,
     Num.is_zero days = true ->
     Num.calculate_reimbursement days miles (Float r)
     = Raise ZeroDivisionError)
  /\ (forall miles receipts,
        Num.calculate_reimbursement (Int 0) miles receipts
        = Raise ZeroDivisionError)
  /\ (forall days miles receipts e,
        Num.calculate_reimbursement days miles receipts = Raise e ->
        (e = ZeroDivisionError /\ Num.is_zero days = true)
        \/ e = OverflowError)
  /\ (forall days miles receipts,
        Num.int_le 1 days = true ->
        Num.truediv receipts days <> Raise ZeroDivisionError
        /\ Num.calculate_reimbursement days miles receipts
           <> Raise ZeroDivisionError
        /\ forall r d, receipts = Float r -> Num.to_float days = Ok d ->
             Num.truediv receipts days = Ok (r / d)%float)
  /\ (forall py_int py_float argv,
        final (main py_int py_float argv) <> Uncaught ZeroDivisionError
        /\ forall days miles receipts,
             In (Call days miles receipts)
                (trace (main py_int py_float argv)) ->
             1 <= days
             /\ Num.calculate_reimbursement (Int days) (Float miles)
                  (Float receipts)
                = (d <- float_of_int days ;;
                   calculate_reimbursement d miles receipts)
             /\ Num.calculate_reimbursement (Int days) (Float miles)
                  (Float receipts)
                <> Raise ZeroDivisionError).
Proof.
  assert (NZ : forall days miles receipts,
            Num.int_le 1 days = true ->
            Num.calculate_reimbursement days miles receipts
            <> Raise ZeroDivisionError).
  { intros days miles receipts H E.
    destruct (num_error _ _ _ _ E) as [[_ Z]|Z]; [|discriminate Z].
    rewrite (int_le_1_not_zero _ H) in Z. discriminate Z. }
  split; [|split; [|split; [|split]]].
  - intros days miles r H.
    unfold Num.calculate_reimbursement.
    assert (D : Num.truediv (Float r) days = Raise ZeroDivisionError).
    { destruct days as [z|d]; simpl in H.
      - apply Z.eqb_eq in H. subst z. reflexivity.
      - unfold Num.truediv, Num.to_float, Py.truediv.
        cbv beta iota delta [bind]. now rewrite H. }
    now rewrite D.
  - intros miles [z|r]; reflexivity.
  - apply num_error.
  - intros days miles receipts H. split; [|split].
    + intros E. destruct (truediv_error _ _ _ E) as [[_ Z]|Z];
        [|discriminate Z].
      rewrite (int_le_1_not_zero _ H) in Z. discriminate Z.
    + now apply NZ.
    + intros r d -> T.
      pose proof (to_float_zero _ _ T) as Z.
      rewrite (int_le_1_not_zero _ H) in Z.
      assert (G : (x <- Num.to_float (Float r) ;; y <- Num.to_float days ;;
                   Py.truediv x y) = Ok (r / d)%float).
      { rewrite T. cbv beta iota delta [bind Num.to_float].
        unfold Py.truediv. now rewrite Z. }
      destruct days; exact G.
  - intros py_int py_float argv.
    destruct (main_shapes py_int py_float argv)
      as [E|[E|[E|[(days & miles & receipts & E)
                  |(days & miles & receipts & text & E)]]]];
      pose proof E as E0; rewrite E; simpl;
      (split; [discriminate|]); intros days' miles' receipts' I;
      repeat (destruct I as [I|I]; try discriminate I; try contradiction).
    all: injection I as <- <- <-.
    all: assert (Hz : 1 <= days).
    all: try (split; [exact Hz|split; [apply num_on_int_days|]];
              apply NZ; now apply Z.leb_le).
    all: destruct (Z.le_gt_cases 1 days) as [G|G]; [exact G|exfalso].
    all: destruct (Nat.eq_dec (List.length argv) 4) as [L|L];
      [|rewrite (main_usage _ _ _ L) in E0; discriminate E0].
    all: destruct argv as [|p [|a1 [|a2 [|a3 [|a4 rest]]]]];
      try discriminate L.
    all: unfold main in E0.
    all: destruct (py_int a1) as [z|]; [|discriminate E0].
    all: destruct (py_float a2) as [m|]; [|discriminate E0].
    all: destruct (py_float a3) as [r|]; [|discriminate E0].
    all: destruct (z <? 1) eqn:R; [discriminate E0|].
    all: apply Z.ltb_ge in R.
    all: destruct (_ || _ || _); [discriminate E0|].
    all: destruct (d <- float_of_int z ;; calculate_reimbursement d m r)
      as [v|[]]; injection E0 as -> _; lia.
Qed.

(** ** The command line (C4) *)

Lemma not_lt_0_ge_0 x :
  (x <? 0)%float = false -> is_nan x = false -> (0 <=? x)%float = true.
Proof.
  intros H N. rewrite leb_0_nonneg. rewrite ltb_spec in H.
  sf_const 0%float.
  assert (Q : Prim2SF x <> S754_nan).
  { intros Q. apply is_nan_Prim2SF in Q. congruence. }
  destruct (Prim2SF x) as [s|s| |s m e]; try reflexivity;
    try (now contradiction Q); destruct s; try reflexivity;
    discriminate H.
Qed.

Lemma round2_nan x : is_nan x = true -> Prim2SF (Py.round2 x) = S754_nan.
Proof.
  intros H. apply is_nan_Prim2SF in H. unfold Py.round2. now rewrite H.
Qed.

(** The words [1 inf 0] are accepted, and what is printed is [inf], which
    has no decimal places. *)
Lemma cli_prints_inf :
  main example_int example_float
       ["calculate_reimbursement.py"; "1"; "inf"; "0"]%string
  = mkRun [Call 1 infinity 0; Stdout ("inf" ++ Fmt.newline)%string] (Exit 0)
  /\ two_decimals "inf" = false.
Proof. split; vm_compute; reflexivity. Qed.

(** C4: with an argument count other than 3 the run writes the usage
    message to the standard error and exits with 1; when an argument does
    not parse it writes the format message there and exits with 1; when the
    days are below 1 or the miles or the receipts below 0 it writes the
    range message there and exits with 1, and [calculate_reimbursement] has
    not been called.  Otherwise it calls [calculate_reimbursement] once,
    with the [int] parsed for the days.  When the days have no float the
    run ends there in an uncaught [OverflowError].  When they have one the
    function returns, and the run prints the result and a newline and exits
    with 0.  The result is a NaN exactly when the miles or the receipts
    are one, and the text is then [nan]; an infinite result is the
    positive infinity, printed as [inf]; a zero result is the positive
    zero, printed as [0.00]; any other result is a positive number, and
    its text has exactly two decimal places, no sign, and reads back as
    the integer nearest to 100 times the result (the even one at a
    tie). *)
Theorem cli_behaviour (py_int : string -> option Z)
    (py_float : string -> option float) :
  (forall argv, List.length argv <> 4%nat ->
     main py_int py_float argv = mkRun [Stderr usage_message] (Exit 1))
  /\ (forall p a1 a2 a3,
        py_int a1 = None \/ py_float a2 = None \/ py_float a3 = None ->
        main py_int py_float [p; a1; a2; a3]
        = mkRun [Stderr format_message] (Exit 1))
  /\ (forall p a1 a2 a3 days miles receipts,
        py_int a1 = Some days -> py_float a2 = Some miles ->
        py_float a3 = Some receipts ->
        if (days <? 1)%Z || (miles <? 0)%float || (receipts <? 0)%float
        then main py_int py_float [p; a1; a2; a3]
             = mkRun [Stderr range_message] (Exit 1)
        else
          (exists d result,
              float_of_int days = Ok d
              /\ Num.calculate_reimbursement (Int days) (Float miles)
                   (Float receipts) = Ok result
              /\ main py_int py_float [p; a1; a2; a3]
                 = mkRun [Call days miles receipts;
                          Stdout (Fmt.format_2f result ++ Fmt.newline)]
                         (Exit 0)
              /\ is_nan result = is_nan miles || is_nan receipts
              /\ match Prim2SF result with
                 | S754_nan => Fmt.format_2f result = "nan"%string
                 | S754_infinity s =>
                     s = false /\ Fmt.format_2f result = "inf"%string
                 | S754_zero s =>
                     s = false /\ Fmt.format_2f result = "0.00"%string
                 | S754_finite s m e =>
                     s = false
                     /\ two_decimals (Fmt.format_2f result) = true
                     /\ exists n,
                          Read.fixed2 (Fmt.format_2f result)
                          = Some (false, n)
                          /\ if (0 <=? e)%Z
                             then n = (100 * Z.pos m * 2 ^ e)%Z
                             else (Z.abs (2 * (100 * Z.pos m
                                               - n * 2 ^ (- e)))
                                   <= 2 ^ (- e))%Z
                                  /\ (Z.abs (2 * (100 * Z.pos m
                                                  - n * 2 ^ (- e)))
                                      = 2 ^ (- e) -> Z.even n = true)
                 end)
          \/ (float_of_int days = Raise OverflowError
              /\ Num.calculate_reimbursement (Int days) (Float miles)
                   (Float receipts) = Raise OverflowError
              /\ main py_int py_float [p; a1; a2; a3]
                 = mkRun [Call days miles receipts]
                         (Uncaught OverflowError))).
Proof.
  split; [|split].
  - apply main_usage.
  - apply main_malformed.
  - intros p a1 a2 a3 days miles receipts H1 H2 H3.
    destruct (_ || _ || _) eqn:R.
    + now apply main_out_of_range with days miles receipts.
    + rewrite (main_in_range _ _ p _ _ _ _ _ _ H1 H2 H3 R).
      rewrite num_on_int_days.
      apply orb_false_elim in R as [R Rr]. apply orb_false_elim in R as [R Rm].
      apply Z.ltb_ge in R.
      destruct (float_of_int days) as [d|e] eqn:F.
      2:{ right. now rewrite (float_of_int_error _ _ F). }
      left. exists d, (Spec.compute d miles receipts).
      pose proof (float_of_int_ge_1 _ _ R F) as Hd.
      split; [reflexivity|]. split.
      { cbv beta iota delta [bind]. unfold calculate_reimbursement.
        now rewrite (arm_is_spec _ _ _ Hd). }
      split; [reflexivity|].
      pose proof (format_2f_reads (Spec.compute d miles receipts)) as T.
      unfold digits_of in T.
      destruct (is_nan miles || is_nan receipts) eqn:N.
      * assert (Q : Prim2SF (Spec.compute d miles receipts) = S754_nan).
        { apply round2_nan, formula_nan.
          apply orb_true_iff in N. exact N. }
        split; [now apply is_nan_Prim2SF|].
        rewrite Q in *. exact T.
      * apply orb_false_elim in N as [Nm Nr].
        assert (P : (0 <=? Spec.compute d miles receipts)%float = true).
        { apply round2_nonneg, formula_nonneg;
            auto using ge_1_ge_0, not_lt_0_ge_0. }
        split; [now apply leb_0_not_nan|].
        rewrite leb_0_nonneg in P.
        assert (S : sign_is false (Prim2SF (Spec.compute d miles receipts)))
          by (apply round2_sign, formula_sign;
              auto using not_lt_0_ge_0).
        pose proof (eq_refl (Fmt.format_2f (Spec.compute d miles receipts)))
          as X.
        unfold Fmt.format_2f at 2 in X.
        destruct (Prim2SF (Spec.compute d miles receipts))
          as [s|s| |s m e]; simpl in P.
        -- simpl in S. subst s. split; [reflexivity|exact X].
        -- destruct s; [discriminate P|]. now split.
        -- discriminate P.
        -- destruct s; [discriminate P|]. destruct T as [T1 T2].
           split; [reflexivity|]. split; [exact T1|].
           exists (Py.hundredths m e). split; [exact T2|].
           unfold Py.hundredths.
           destruct (0 <=? e)%Z eqn:E; [reflexivity|].
           apply round_half_even_nearest.
           apply Z.pow_pos_nonneg; lia.
Qed.

(** ** Exit codes and streams *)

(** A run that ends in an exception: the days have no float. *)
Lemma main_uncaught py_int py_float argv e :
  final (main py_int py_float argv) = Uncaught e ->
  e = OverflowError
  /\ exists days miles receipts,
       main py_int py_float argv
       = mkRun [Call days miles receipts] (Uncaught OverflowError)
       /\ float_of_int days = Raise OverflowError.
Proof.
  destruct (Nat.eq_dec (List.length argv) 4) as [L|L];
    [|rewrite (main_usage _ _ _ L); discriminate].
  destruct argv as [|p [|a1 [|a2 [|a3 [|a4 rest]]]]]; try discriminate L.
  destruct (py_int a1) as [days|] eqn:H1;
    [|rewrite main_malformed by auto; discriminate].
  destruct (py_float a2) as [miles|] eqn:H2;
    [|rewrite main_malformed by auto; discriminate].
  destruct (py_float a3) as [receipts|] eqn:H3;
    [|rewrite main_malformed by auto; discriminate].
  destruct ((days <? 1)%Z || (miles <? 0)%float || (receipts <? 0)%float)
    eqn:R.
  - rewrite (main_out_of_range _ _ p _ _ _ _ _ _ H1 H2 H3 R). discriminate.
  - rewrite (main_in_range _ _ p _ _ _ _ _ _ H1 H2 H3 R).
    destruct (float_of_int days) as [d|e'] eqn:F; [discriminate|].
    pose proof (float_of_int_error _ _ F) as X. subst e'.
    simpl. intros [= <-]. split; [reflexivity|].
    exists days, miles, receipts. split; [reflexivity|exact F].
Qed.

(** A message that the script writes is one of its three. *)
Lemma main_message py_int py_float argv message :
  In (Stderr message) (trace (main py_int py_float argv)) ->
  main py_int py_float argv = mkRun [Stderr message] (Exit 1)
  /\ (message = usage_message \/ message = format_message
      \/ message = range_message).
Proof.
  destruct (main_shapes py_int py_float argv)
    as [E|[E|[E|[(d & m & r & E)|(d & m & r & t & E)]]]]; rewrite E;
    cbn [trace In]; intros H;
    repeat (destruct H as [H|H]; try discriminate H; try contradiction);
    injection H as <-; auto.
Qed.

(** X6: a run ends with exit code 0 or 1.  It is 0 exactly when the run
    called [calculate_reimbursement] and then printed one line on the
    standard output, and exactly when nothing reached the standard error,
    neither a message of the script nor a traceback.  A run in which the
    script itself writes to the standard error writes one of its three
    messages, exits with 1, and has called nothing and printed nothing.
    A run that ends in an uncaught exception has called
    [calculate_reimbursement], with days that have no float, and printed
    nothing; the exception is [OverflowError], and the interpreter then
    writes its traceback to the standard error and ends with code 1. *)
Theorem exit_code_and_streams (py_int : string -> option Z)
    (py_float : string -> option float) (argv : list string) :
  (exit_code (final (main py_int py_float argv)) = 0%Z
   \/ exit_code (final (main py_int py_float argv)) = 1%Z)
  /\ (exit_code (final (main py_int py_float argv)) = 0%Z
      <-> exists days miles receipts text,
            main py_int py_float argv
            = mkRun [Call days miles receipts; Stdout text] (Exit 0))
  /\ (exit_code (final (main py_int py_float argv)) = 0%Z
      <-> stderr_used (main py_int py_float argv) = false)
  /\ (forall message,
        In (Stderr message) (trace (main py_int py_float argv)) ->
        main py_int py_float argv = mkRun [Stderr message] (Exit 1)
        /\ (message = usage_message \/ message = format_message
            \/ message = range_message))
  /\ (forall e,
        final (main py_int py_float argv) = Uncaught e ->
        e = OverflowError
        /\ exit_code (final (main py_int py_float argv)) = 1%Z
        /\ stderr_used (main py_int py_float argv) = true
        /\ exists days miles receipts,
             trace (main py_int py_float argv) = [Call days miles receipts]
             /\ float_of_int days = Raise OverflowError).
Proof.
  split; [|split; [|split; [|split]]].
  - destruct (main_shapes py_int py_float argv)
      as [E|[E|[E|[(d & m & r & E)|(d & m & r & t & E)]]]]; rewrite E;
      simpl; auto.
  - destruct (main_shapes py_int py_float argv)
      as [E|[E|[E|[(d & m & r & E)|(d & m & r & t & E)]]]]; rewrite E;
      simpl; (split; [try discriminate|]);
      try (intros (? & ? & ? & ? & ?); discriminate); eauto.
  - destruct (main_shapes py_int py_float argv)
      as [E|[E|[E|[(d & m & r & E)|(d & m & r & t & E)]]]]; rewrite E;
      simpl; split; try discriminate; reflexivity.
  - apply main_message.
  - intros e H. destruct (main_uncaught _ _ _ _ H) as (-> & d & m & r & E & F).
    split; [reflexivity|]. rewrite E. simpl.
    repeat split. exists d, m, r. now split.
Qed.

(** ** Rounding and printing *)

(** Formatting what [round] returned gives the digits of the value that
    was rounded. *)
Lemma format_2f_round2 x s m e :
  Prim2SF x = S754_finite s m e -> (Py.hundredths m e < 2 ^ 52)%Z ->
  Fmt.format_2f (Py.round2 x) = Fmt.fixed2 s (Py.hundredths m e).
Proof.
  intros E H. unfold Py.round2. rewrite E.
  pose proof (hundredths_nonneg m e) as N.
  destruct (Py.hundredths m e) as [|n|n] eqn:Hh; [| |lia].
  - destruct s; reflexivity.
  - destruct (of_hundredths_digits s n H) as (m3 & e3 & P & D).
    unfold Fmt.format_2f. now rewrite P, D.
Qed.

(** X14: in a run whose arguments parse and pass the range check, let
    [x] be the value of the formula of the arm taken by
    [calculate_reimbursement], a finite number of less than [2^52]
    hundredths.  The function returns [round(x, 2)], and the line that
    [main] prints for it is the line that printing [x] itself with two
    decimals would give: its digits read back as the sign of [x] and the
    integer nearest to [100 * |x|], so that the rounding in the function
    changes no digit of the output. *)
Theorem rounding_before_printing (py_int : string -> option Z)
    (py_float : string -> option float)
    p a1 a2 a3 days miles receipts d c x s m e :
  py_int a1 = Some days -> py_float a2 = Some miles ->
  py_float a3 = Some receipts ->
  (days <? 1)%Z || (miles <? 0)%float || (receipts <? 0)%float = false ->
  float_of_int days = Ok d ->
  reimbursement_arm d miles receipts = Ok (c, x) ->
  Prim2SF x = S754_finite s m e ->
  (Py.hundredths m e < 2 ^ 52)%Z ->
  calculate_reimbursement d miles receipts = Ok (Py.round2 x)
  /\ main py_int py_float [p; a1; a2; a3]
     = mkRun [Call days miles receipts;
              Stdout (Fmt.format_2f (Py.round2 x) ++ Fmt.newline)] (Exit 0)
  /\ Fmt.format_2f (Py.round2 x) = Fmt.format_2f x
  /\ Fmt.format_2f x = Fmt.fixed2 s (Py.hundredths m e)
  /\ Read.fixed2 (Fmt.format_2f (Py.round2 x))
     = Some (s, Py.hundredths m e).
Proof.
  intros H1 H2 H3 R F A E B.
  assert (C : calculate_reimbursement d miles receipts = Ok (Py.round2 x))
    by (unfold calculate_reimbursement; now rewrite A).
  assert (T : Fmt.format_2f x = Fmt.fixed2 s (Py.hundredths m e))
    by (unfold Fmt.format_2f; now rewrite E).
  split; [exact C|]. split; [|split; [|split]].
  - unfold main. rewrite H1, H2, H3, R, F.
    cbv beta iota delta [bind]. now rewrite C.
  - now rewrite T, (format_2f_round2 x s m e E B).
  - exact T.
  - rewrite (format_2f_round2 x s m e E B).
    apply read_fixed2, hundredths_nonneg.
Qed.

Lemma rounding_before_printing_witness :
  calculate_reimbursement 8 450 300
  = Ok (Py.round2 955.49080800000002%float)
  /\ main example_int example_float
       ["calculate_reimbursement.py"; "8"; "450"; "300"]%string
     = mkRun [Call 8 450 300;
              Stdout (Fmt.format_2f (Py.round2 955.49080800000002%float)
                      ++ Fmt.newline)] (Exit 0)
  /\ Fmt.format_2f (Py.round2 955.49080800000002%float)
     = Fmt.format_2f 955.49080800000002%float
  /\ Fmt.format_2f 955.49080800000002%float
     = Fmt.fixed2 false (Py.hundredths 8404586029032684 (-43))
  /\ Read.fixed2 (Fmt.format_2f (Py.round2 955.49080800000002%float))
     = Some (false, Py.hundredths 8404586029032684 (-43)).
Proof.
  apply (rounding_before_printing example_int example_float
           "calculate_reimbursement.py" "8" "450" "300"
           8 450%float 300%float 8%float MidHighMileage
           955.49080800000002%float false 8404586029032684 (-43));
    vm_compute; reflexivity.
Defined.

(** ** The grouping loop of [derive_linear_coefficients] on a case file *)

Module CaseFileFacts.

Import CaseFile.

Lemma case_classify_trip_cases entry :
  (exists e, Num.truediv (total_receipts_amount (input entry))
               (trip_duration_days (input entry)) = Raise e
             /\ classify_trip entry = Raise e)
  \/ (divides entry = true
      /\ exists c, (c = 0 \/ c = 1 \/ c = 2 \/ c = -1)%Z
                   /\ classify_trip entry = Ok c).
Proof.
  unfold classify_trip, divides.
  destruct (Num.truediv _ _) as [rpd|e]; [right|left; eauto].
  split; [reflexivity|]. cbv beta iota zeta delta [bind].
  destruct (_ && _ && _); [exists 0%Z; auto|].
  destruct (_ && _); [exists 1%Z; auto|].
  destruct (_ && _); [exists 2%Z; auto|exists (-1)%Z; auto 6].
Qed.

Lemma divides_classify entry :
  divides entry = true -> exists c, (c = 0 \/ c = 1 \/ c = 2 \/ c = -1)%Z
                                    /\ classify_trip entry = Ok c.
Proof.
  intros H. destruct (case_classify_trip_cases entry) as [(e & D & _)|[_ X]];
    [|exact X].
  unfold divides in H. rewrite D in H. discriminate H.
Qed.

Lemma case_members_cons k e data :
  members k (e :: data)
  = match classify_trip e with
    | Ok c => if (c =? k)%Z then e :: members k data else members k data
    | Raise _ => members k data
    end.
Proof.
  unfold members. simpl filter.
  destruct (classify_trip e) as [c|x]; reflexivity.
Qed.

(** The loop appends every record to the list of its number, and to no
    other. *)
Lemma case_group_spec data : forall a b c,
  forallb divides data = true ->
  group data [(0, a); (1, b); (2, c)]%Z
  = DeriveCoefficients.Done
      [(0, a ++ members 0 data); (1, b ++ members 1 data);
       (2, c ++ members 2 data)]%Z.
Proof.
  induction data as [|e data IH]; intros a b c H.
  - simpl. now rewrite !app_nil_r.
  - simpl in H. apply andb_prop in H as [He H].
    rewrite !case_members_cons. simpl group.
    destruct (divides_classify e He) as (cl & C & E). rewrite E.
    destruct C as [-> | [-> | [-> | ->]]]; simpl;
      rewrite (IH _ _ _ H), <- ?app_assoc; reflexivity.
Qed.

(** The loop stops at the first record whose division fails. *)
Lemma case_group_failure data : forall a b c err,
  group data [(0, a); (1, b); (2, c)]%Z = DeriveCoefficients.Failed err
  <-> exists pre entry post e,
        data = pre ++ entry :: post
        /\ forallb divides pre = true
        /\ Num.truediv (total_receipts_amount (input entry))
             (trip_duration_days (input entry)) = Raise e
        /\ err = DeriveCoefficients.Exn e.
Proof.
  induction data as [|x data IH]; intros a b c err.
  - simpl. split; [discriminate|].
    intros (pre & entry & post & e & D & _). now destruct pre.
  - simpl group.
    destruct (case_classify_trip_cases x) as [(e & D & E)|[Dv (cl & C & E)]];
      rewrite E.
    + split.
      * intros [= <-]. exists [], x, data, e. now repeat split.
      * intros (pre & entry & post & e' & Dd & P & T & ->).
        destruct pre as [|y pre]; simpl in Dd; injection Dd as -> ->.
        -- congruence.
        -- simpl in P. apply andb_prop in P as [P _].
           unfold divides in P. rewrite D in P. discriminate P.
    + assert (G : forall a' b' c',
                group data [(0, a'); (1, b'); (2, c')]%Z
                = DeriveCoefficients.Failed err
                <-> exists pre entry post e,
                      x :: data = pre ++ entry :: post
                      /\ forallb divides pre = true
                      /\ Num.truediv (total_receipts_amount (input entry))
                           (trip_duration_days (input entry)) = Raise e
                      /\ err = DeriveCoefficients.Exn e).
      { intros a' b' c'. rewrite IH. split.
        - intros (pre & entry & post & e & -> & P & T & ->).
          exists (x :: pre), entry, post, e. simpl. rewrite Dv, P.
          now repeat split.
        - intros (pre & entry & post & e & Dd & P & T & ->).
          destruct pre as [|y pre]; simpl in Dd; injection Dd as -> ->.
          + unfold divides in Dv. rewrite T in Dv. discriminate Dv.
          + simpl in P. apply andb_prop in P as [_ P].
            exists pre, entry, post, e. now repeat split. }
      destruct C as [-> | [-> | [-> | ->]]]; simpl; apply G.
Qed.

Lemma case_members_In k e data :
  In e (members k data) <-> In e data /\ classify_trip e = Ok k.
Proof.
  unfold members. rewrite filter_In.
  destruct (classify_trip e) as [c|x].
  - split; intros [H1 H2]; (split; [exact H1|]).
    + apply Z.eqb_eq in H2. now subst.
    + injection H2 as ->. apply Z.eqb_refl.
  - split; intros [H1 H2]; discriminate H2.
Qed.

Lemma case_members_lengths data :
  forallb divides data = true ->
  (List.length (members 0 data) + List.length (members 1 data)
   + List.length (members 2 data) + List.length (members (-1) data)
   = List.length data)%nat.
Proof.
  induction data as [|e data IH]; intros H; [reflexivity|].
  simpl in H. apply andb_prop in H as [He H].
  rewrite !case_members_cons.
  destruct (divides_classify e He) as (cl & C & E). rewrite E.
  specialize (IH H).
  destruct C as [-> | [-> | [-> | ->]]]; simpl; lia.
Qed.

End CaseFileFacts.

(** On a record of floats the two models of [classify_trip] agree. *)
Lemma classify_trip_floats e :
  CaseFile.classify_trip (case_of_entry e) = classify_trip e.
Proof.
  unfold CaseFile.classify_trip, classify_trip, case_of_entry.
  cbv beta iota zeta
    delta [CaseFile.trip_duration_days CaseFile.miles_traveled
           CaseFile.total_receipts_amount CaseFile.input
           Num.truediv Num.to_float Num.int_le Num.le_int bind].
  literals.
  destruct (Py.truediv _ _); reflexivity.
Qed.

(** X1: when the division of the receipts by the days gives a quotient
    for every record of the case file (an [int] of days or a float, as
    [json.load] returns them), the grouping loop ends with the three
    clusters holding, in the order of the file, the records that
    [classify_trip] numbers 0, 1 and 2; the records numbered -1 are in
    none, and every record is counted once. *)
Theorem grouping_partitions data :
  forallb CaseFile.divides data = true ->
  CaseFile.group data [(0, []); (1, []); (2, [])]%Z
  = DeriveCoefficients.Done
      [(0, CaseFile.members 0 data); (1, CaseFile.members 1 data);
       (2, CaseFile.members 2 data)]%Z
  /\ (List.length (CaseFile.members 0 data)
      + List.length (CaseFile.members 1 data)
      + List.length (CaseFile.members 2 data)
      + List.length (CaseFile.members (-1) data)
      = List.length data)%nat
  /\ forall k entry,
       In entry (CaseFile.members k data)
       <-> In entry data /\ CaseFile.classify_trip entry = Ok k.
Proof.
  intros H. split; [|split].
  - now rewrite CaseFileFacts.case_group_spec.
  - now apply CaseFileFacts.case_members_lengths.
  - intros k e. apply CaseFileFacts.case_members_In.
Qed.

Lemma grouping_partitions_witness :
  CaseFile.group CaseFile.example_data [(0, []); (1, []); (2, [])]%Z
  = DeriveCoefficients.Done
      [(0, CaseFile.members 0 CaseFile.example_data);
       (1, CaseFile.members 1 CaseFile.example_data);
       (2, CaseFile.members 2 CaseFile.example_data)]%Z
  /\ (List.length (CaseFile.members 0 CaseFile.example_data)
      + List.length (CaseFile.members 1 CaseFile.example_data)
      + List.length (CaseFile.members 2 CaseFile.example_data)
      + List.length (CaseFile.members (-1) CaseFile.example_data)
      = List.length CaseFile.example_data)%nat
  /\ forall k entry,
       In entry (CaseFile.members k CaseFile.example_data)
       <-> In entry CaseFile.example_data
           /\ CaseFile.classify_trip entry = Ok k.
Proof.
  apply (grouping_partitions CaseFile.example_data).
  vm_compute; reflexivity.
Defined.

(** X2: the grouping loop of [derive_linear_coefficients] fails exactly
    when the division of the receipts by the days fails for some record
    of the case file, at the first such record and with the exception of
    that division: [ZeroDivisionError], and then the days of the record
    are zero, or [OverflowError], for an [int] that has no float or a
    quotient of [int]s that has none.  It never looks up a cluster that
    is not in the dictionary.  A record with zero days and float receipts
    fails with [ZeroDivisionError]; a record whose days are an [int] from
    1 to below [2^1023], or a float other than zero, and whose receipts
    are a float, does not fail.  On records of floats [classify_trip]
    is the function of that name above. *)
Theorem grouping_failures :
  (forall data err,
     CaseFile.group data [(0, []); (1, []); (2, [])]%Z
     = DeriveCoefficients.Failed err
     <-> exists pre entry post e,
           data = pre ++ entry :: post
           /\ forallb CaseFile.divides pre = true
           /\ Num.truediv
                (CaseFile.total_receipts_amount (CaseFile.input entry))
                (CaseFile.trip_duration_days (CaseFile.input entry))
              = Raise e
           /\ err = DeriveCoefficients.Exn e)
  /\ (forall data err,
        CaseFile.group data [(0, []); (1, []); (2, [])]%Z
        = DeriveCoefficients.Failed err ->
        err = DeriveCoefficients.Exn ZeroDivisionError
        \/ err = DeriveCoefficients.Exn OverflowError)
  /\ (forall entry e,
        Num.truediv (CaseFile.total_receipts_amount (CaseFile.input entry))
          (CaseFile.trip_duration_days (CaseFile.input entry)) = Raise e ->
        (e = ZeroDivisionError
         /\ Num.is_zero (CaseFile.trip_duration_days (CaseFile.input entry))
            = true)
        \/ e = OverflowError)
  /\ (forall days miles r out,
        Num.is_zero days = true ->
        CaseFile.classify_trip
          (CaseFile.mkCase (CaseFile.mkTrip days miles (Float r)) out)
        = Raise ZeroDivisionError)
  /\ (forall days miles r out,
        (exists z, days = Int z /\ 1 <= z < 2 ^ 1023)
        \/ (exists d, days = Float d /\ (d =? 0)%float = false) ->
        CaseFile.divides
          (CaseFile.mkCase (CaseFile.mkTrip days miles (Float r)) out)
        = true)
  /\ (forall e, CaseFile.classify_trip (case_of_entry e)
                = classify_trip e).
Proof.
  split; [|split; [|split; [|split; [|split]]]].
  - intros data err. apply CaseFileFacts.case_group_failure.
  - intros data err H.
    apply CaseFileFacts.case_group_failure in H
      as (pre & entry & post & e & _ & _ & T & ->).
    destruct (truediv_error _ _ _ T) as [[-> _]| ->]; auto.
  - intros entry e. apply truediv_error.
  - intros days miles r out H. unfold CaseFile.classify_trip.
    cbv beta iota zeta
      delta [CaseFile.trip_duration_days CaseFile.total_receipts_amount
             CaseFile.input].
    assert (D : Num.truediv (Float r) days = Raise ZeroDivisionError).
    { destruct days as [z|d]; simpl in H.
      - apply Z.eqb_eq in H. subst z. reflexivity.
      - unfold Num.truediv, Num.to_float, Py.truediv.
        cbv beta iota delta [bind]. now rewrite H. }
    now rewrite D.
  - intros days miles r out H. unfold CaseFile.divides.
    cbv beta iota zeta
      delta [CaseFile.trip_duration_days CaseFile.total_receipts_amount
             CaseFile.input].
    destruct H as [(z & -> & Hz1 & Hz2)|(d & -> & Hd)].
    + unfold Num.truediv, Num.to_float. cbv beta iota delta [bind].
      destruct (float_of_int_range z Hz1) as [F _].
      destruct F as [d F]; [apply Z.log2_lt_pow2; [lia|exact Hz2]|].
      rewrite F. unfold Py.truediv.
      rewrite (ge_1_not_zero _ (float_of_int_ge_1 _ _ Hz1 F)).
      reflexivity.
    + unfold Num.truediv, Num.to_float, Py.truediv.
      cbv beta iota delta [bind]. now rewrite Hd.
  - apply classify_trip_floats.
Qed.

(** ** The dictionaries of [analyze_patterns.py] *)

Module AnalyzePatternsFacts.

Import AnalyzePatterns.

Section GroupingFacts.

Variable K : Type.
Variable C : Type.
Variable same_key : K -> K -> bool.
Variable key : C -> K.

Lemma grouped_cons (g : K * list C) (d : groups K C) x :
  grouped (g :: d) x <-> In x (snd g) \/ grouped d x.
Proof.
  unfold grouped. split.
  - intros (g' & [<-|H] & Hx); [now left|right; now exists g'].
  - intros [H|(g' & H & Hx)]; [exists g|exists g']; simpl; auto.
Qed.

Lemma append_to_grouped (d : groups K C) k c x :
  grouped (append_to same_key d k c) x <-> grouped d x \/ x = c.
Proof.
  induction d as [|[k' l] d IH]; simpl.
  - rewrite grouped_cons. simpl. unfold grouped. firstorder.
  - destruct (same_key k' k); rewrite !grouped_cons; simpl.
    + rewrite in_app_iff. simpl. intuition congruence.
    + rewrite IH. tauto.
Qed.

Lemma append_to_sizes (d : groups K C) k c :
  list_sum (sizes (append_to same_key d k c)) = S (list_sum (sizes d)).
Proof.
  unfold sizes.
  induction d as [|[k' l] d IH]; simpl; [reflexivity|].
  destruct (same_key k' k); simpl.
  - rewrite length_app. simpl. lia.
  - rewrite IH. lia.
Qed.

Lemma append_to_well_formed (d : groups K C) c :
  Forall (well_formed same_key key) d ->
  Forall (well_formed same_key key) (append_to same_key d (key c) c).
Proof.
  induction d as [|[k' l] d IH]; simpl; intros H.
  - constructor; [|constructor]. exists c, []. simpl. auto.
  - inversion H as [|? ? Hg Hd]; subst.
    destruct (same_key k' (key c)) eqn:M; constructor; auto.
    destruct Hg as (c0 & l0 & E1 & E2 & F). simpl in E1, E2, F. subst l.
    exists c0, (l0 ++ [c]). simpl. repeat split; auto.
    apply Forall_app. split; [exact F|]. constructor; [exact M|constructor].
Qed.

Lemma append_to_keys (d : groups K C) k (c : C) :
  (Exists (fun k' => same_key k' k = true) (map fst d)
   /\ map fst (append_to same_key d k c) = map fst d)
  \/ (Forall (fun k' => same_key k' k = false) (map fst d)
      /\ map fst (append_to same_key d k c) = map fst d ++ [k]).
Proof.
  induction d as [|[k' l] d IH]; simpl.
  - right. split; [constructor|reflexivity].
  - destruct (same_key k' k) eqn:M; simpl.
    + left. split; [now constructor|reflexivity].
    + destruct IH as [[E1 E2]|[E1 E2]]; rewrite E2.
      * left. split; [now constructor 2|reflexivity].
      * right. split; [now constructor|reflexivity].
Qed.

Lemma ordered_pairs_snoc {A} (R : A -> A -> Prop) l x :
  ForallOrdPairs R l -> Forall (fun y => R y x) l ->
  ForallOrdPairs R (l ++ [x]).
Proof.
  induction 1 as [|a l Ha Hl IH]; intros F; simpl.
  - constructor; constructor.
  - inversion F; subst. constructor; [|now apply IH].
    apply Forall_app. split; [exact Ha|]. now repeat constructor.
Qed.

Lemma append_to_distinct (d : groups K C) k (c : C) :
  distinct_keys same_key d -> distinct_keys same_key (append_to same_key d k c).
Proof.
  unfold distinct_keys. intros H.
  destruct (append_to_keys d k c) as [[_ E]|[F E]]; rewrite E; [exact H|].
  now apply ordered_pairs_snoc.
Qed.

Lemma group_by_fold cases : forall d,
  let d' := fold_left (fun d case => append_to same_key d (key case) case)
              cases d in
  (forall x, grouped d' x <-> grouped d x \/ In x cases)
  /\ list_sum (sizes d') = (list_sum (sizes d) + List.length cases)%nat
  /\ (Forall (well_formed same_key key) d
      -> Forall (well_formed same_key key) d')
  /\ (distinct_keys same_key d -> distinct_keys same_key d').
Proof.
  induction cases as [|c cases IH]; intros d; simpl.
  - repeat split; auto; tauto.
  - destruct (IH (append_to same_key d (key c) c)) as (I1 & I2 & I3 & I4).
    repeat split.
    + intros H. apply I1 in H. rewrite append_to_grouped in H.
      intuition congruence.
    + intros H. apply I1. rewrite append_to_grouped. intuition congruence.
    + rewrite I2, append_to_sizes. lia.
    + intros H. now apply I3, append_to_well_formed.
    + intros H. now apply I4, append_to_distinct.
Qed.

End GroupingFacts.

End AnalyzePatternsFacts.

(** X13: the dictionaries that [analyze_patterns] fills with
    [d[key].append(case)] lose and repeat no case, whatever the keys are
    and whichever of them the dictionary takes for the same: the sizes of
    the groups add up to the number of cases; a case is in a group
    exactly when it is among the cases; every group has a first case,
    its key is the key of that case, and the dictionary took the key of
    every later case of the group for it; and it took no key of a group
    for the key of an earlier group.  Two NaN days of a loaded file are
    one object, hence one group of two cases, where two computed NaN
    keys are two groups; the [int] 3 and the float 3.0 are one key. *)
Theorem grouping_keeps_cases (K C : Type) (same_key : K -> K -> bool)
    (key : C -> K) (cases : list C) :
  list_sum (map (fun g => List.length (snd g))
              (AnalyzePatterns.group_by same_key key cases))
  = List.length cases
  /\ (forall x,
        (exists g, In g (AnalyzePatterns.group_by same_key key cases)
                   /\ In x (snd g))
        <-> In x cases)
  /\ (forall g, In g (AnalyzePatterns.group_by same_key key cases) ->
        exists c l, snd g = c :: l /\ fst g = key c
                    /\ Forall (fun x => same_key (fst g) (key x) = true) l)
  /\ ForallOrdPairs (fun k1 k2 => same_key k1 k2 = false)
       (map fst (AnalyzePatterns.group_by same_key key cases))
  /\ map (fun g => List.length (snd g))
       (AnalyzePatterns.duration_groups
          [CaseFile.mkCase (CaseFile.mkTrip (Float nan) (Int 10) (Int 20))
             (Int 30);
           CaseFile.mkCase (CaseFile.mkTrip (Float nan) (Int 40) (Int 50))
             (Int 60)])
     = [2%nat]
  /\ map (fun g => List.length (snd g))
       (AnalyzePatterns.group_by AnalyzePatterns.computed_key
          (fun case => CaseFile.trip_duration_days (CaseFile.input case))
          [CaseFile.mkCase (CaseFile.mkTrip (Float nan) (Int 10) (Int 20))
             (Int 30);
           CaseFile.mkCase (CaseFile.mkTrip (Float nan) (Int 40) (Int 50))
             (Int 60)])
     = [1%nat; 1%nat]
  /\ map fst
       (AnalyzePatterns.duration_groups
          [CaseFile.mkCase (CaseFile.mkTrip (Int 3) (Int 10) (Int 20))
             (Int 30);
           CaseFile.mkCase (CaseFile.mkTrip (Float 3) (Int 40) (Int 50))
             (Int 60);
           CaseFile.mkCase (CaseFile.mkTrip (Float 3.5) (Int 40) (Int 50))
             (Int 60)])
     = [Int 3; Float 3.5].
Proof.
  destruct (AnalyzePatternsFacts.group_by_fold K C same_key key cases [])
    as (I1 & I2 & I3 & I4).
  fold (AnalyzePatterns.group_by same_key key cases) in I1, I2, I3, I4.
  split; [exact I2|]. split; [|split; [|split]].
  - intros x. unfold AnalyzePatterns.grouped in I1. rewrite I1.
    split; [intros [(g & [] & _)|H]; exact H|auto].
  - intros g H.
    assert (W : Forall (AnalyzePatterns.well_formed same_key key)
                  (AnalyzePatterns.group_by same_key key cases))
      by (apply I3; constructor).
    rewrite Forall_forall in W. exact (W g H).
  - apply I4. constructor.
  - repeat split; vm_compute; reflexivity.
Qed.

(** ** The rates of a band *)

Lemma rates_failure field cases e :
  AnalyzePatterns.rates field cases = Raise e
  <-> exists pre case post,
        cases = pre ++ case :: post
        /\ (exists rs, AnalyzePatterns.rates field pre = Ok rs)
        /\ Num.truediv (CaseFile.expected_output case) (field case)
           = Raise e.
Proof.
  induction cases as [|c cases IH].
  - simpl. split; [discriminate|].
    intros (pre & x & post & D & _). now destruct pre.
  - assert (P0 : forall pre',
              (exists rs, AnalyzePatterns.rates field (c :: pre') = Ok rs) ->
              (exists rate, Num.truediv (CaseFile.expected_output c)
                              (field c) = Ok rate)
              /\ exists rs, AnalyzePatterns.rates field pre' = Ok rs).
    { intros pre' [rs P]. simpl in P.
      destruct (Num.truediv (CaseFile.expected_output c) (field c));
        [|discriminate P].
      cbv beta iota delta [bind] in P.
      destruct (AnalyzePatterns.rates field pre'); [eauto|discriminate P]. }
    simpl AnalyzePatterns.rates.
    destruct (Num.truediv (CaseFile.expected_output c) (field c))
      as [rate|e0] eqn:D; cbv beta iota delta [bind].
    + assert (S : match AnalyzePatterns.rates field cases with
                  | Ok a => Ok (rate :: a)
                  | Raise e1 => Raise e1
                  end = Raise e
                  <-> AnalyzePatterns.rates field cases = Raise e)
        by (destruct (AnalyzePatterns.rates field cases);
            split; congruence).
      rewrite S, IH. split.
      * intros (pre & x & post & -> & [rs P] & T).
        exists (c :: pre), x, post. repeat split; auto.
        simpl. rewrite D, P. eexists; reflexivity.
      * intros (pre & x & post & Dd & P & T).
        destruct pre as [|y pre]; simpl in Dd; injection Dd as -> ->;
          [congruence|].
        exists pre, x, post. repeat split; auto.
        now apply P0 in P.
    + split.
      * intros [= <-]. exists [], c, cases. repeat split; auto.
        exists []. reflexivity.
      * intros (pre & x & post & Dd & P & T).
        destruct pre as [|y pre]; simpl in Dd; injection Dd as -> ->;
          [congruence|].
        apply P0 in P as [[rate P] _]. congruence.
Qed.

Lemma rates_length field cases rs :
  AnalyzePatterns.rates field cases = Ok rs ->
  List.length rs = List.length cases
  /\ existsb (fun case => Num.is_zero (field case)) cases = false.
Proof.
  revert rs. induction cases as [|c cases IH]; simpl; intros rs.
  - intros [= <-]. auto.
  - destruct (Num.truediv (CaseFile.expected_output c) (field c))
      as [rate|e'] eqn:D; cbv beta iota delta [bind]; [|discriminate].
    destruct (AnalyzePatterns.rates field cases) as [more|e']; [|discriminate].
    intros [= <-]. destruct (IH more eq_refl) as [L Z].
    simpl. rewrite L, Z. split; [reflexivity|].
    rewrite orb_false_r.
    destruct (Num.truediv (CaseFile.expected_output c) (field c)) eqn:T;
      [|discriminate D].
    destruct (Num.is_zero (field c)) eqn:Zc; [exfalso|reflexivity].
    clear D. revert T. unfold Num.truediv.
    destruct (CaseFile.expected_output c) as [x|x],
             (field c) as [y|y]; simpl in Zc.
    + now rewrite Zc.
    + unfold Num.to_float, Py.truediv.
      destruct (float_of_int x); cbv beta iota delta [bind];
        [now rewrite Zc|discriminate].
    + unfold Num.to_float. cbv beta iota delta [bind].
      apply Z.eqb_eq in Zc. subst y. discriminate.
    + unfold Num.to_float, Py.truediv. cbv beta iota delta [bind].
      now rewrite Zc.
Qed.

(** X12: the generator that [analyze_patterns] hands to
    [statistics.mean] for a band divides the expected output of each case
    by its miles (or its receipts), in order.  It raises exactly when one
    of these divisions fails, at the first that does: with
    [ZeroDivisionError], and then that case has zero miles, or with
    [OverflowError], for an [int] that has no float.  A band with a case
    of zero miles therefore never yields all its rates; a band that does
    yields one rate per case. *)
Theorem analysis_fails_on_zero (field : CaseFile.case -> number)
    (cases : list CaseFile.case) :
  (forall e,
     AnalyzePatterns.rates field cases = Raise e
     <-> exists pre case post,
           cases = pre ++ case :: post
           /\ (exists rs, AnalyzePatterns.rates field pre = Ok rs)
           /\ Num.truediv (CaseFile.expected_output case) (field case)
              = Raise e)
  /\ (forall e,
        AnalyzePatterns.rates field cases = Raise e ->
        (e = ZeroDivisionError
         /\ existsb (fun case => Num.is_zero (field case)) cases = true)
        \/ e = OverflowError)
  /\ (existsb (fun case => Num.is_zero (field case)) cases = true ->
      exists e, AnalyzePatterns.rates field cases = Raise e)
  /\ (forall rs,
        AnalyzePatterns.rates field cases = Ok rs ->
        List.length rs = List.length cases
        /\ existsb (fun case => Num.is_zero (field case)) cases = false).
Proof.
  split; [|split; [|split]].
  - intros e. apply rates_failure.
  - intros e H. apply rates_failure in H
      as (pre & c & post & -> & _ & T).
    destruct (truediv_error _ _ _ T) as [[-> Z]| ->]; [left|now right].
    split; [reflexivity|]. rewrite existsb_app. simpl. rewrite Z.
    now rewrite orb_true_r.
  - intros H. destruct (AnalyzePatterns.rates field cases) as [rs|e] eqn:R;
      [|eauto].
    apply rates_length in R as [_ Z]. congruence.
  - apply rates_length.
Qed.
